(** * Relay-site planning tools: a shallow embedding and its properties

    The development follows the Python tools of the repository:

    - [Py]: the JSON scalars held in GeoJSON property dictionaries and the
      Python built-ins the tools apply to them ([int], [float], [round],
      truthiness, [dict.get]);
    - [ScaffoldAndScore]: [tools/scaffold_and_score_hexes.py];
    - [MakeHexCells]: the cell record of [tools/make_hex_cells.py];
    - [ApplyTierACoverage]: [tools/apply_tiera_coverage.py];
    - [SeedTierA]: [tools/seed_tiera_from_corridors.py];
    - [SeedTierB]: [tools/seed_tierb_sites.py].

    Property values of type float are IEEE binary64 numbers (primitive
    floats).  Coordinates and distances, on which the tools use [cos] and
    [sqrt], are modelled by real numbers: rounding is not modelled there.
    A Python exception is the result [None]. *)

From Stdlib Require Import ZArith Reals Lra List String Ascii Floats.
From stdpp Require Import base decidable countable gmap strings list option pretty.

Set Warnings "-inexact-float,-clear-no-such-hyp".

(** * Python values and built-ins *)

Module Py.

Inductive value : Type :=
  | VNone
  | VBool (b : bool)
  | VInt (z : Z)
  | VFloat (f : float)
  | VStr (s : string).

(** Reading a number out of a string ([int("12")], [float("0.5")]), testing
    [s.isdigit()] and printing a float ([str(0.5)]) are Python's own text
    routines: the embedding takes them as an interface. *)
Class PyText := {
  int_of_str : string → option Z;
  float_of_str : string → option float;
  str_isdigit : string → bool;
  str_of_float : float → string;
}.

(** An instance that reads no number out of any string, for inputs that hold
    no numeric strings and no floats to print. *)
Definition no_text : PyText :=
  {| int_of_str := λ _, None; float_of_str := λ _, None;
     str_isdigit := λ _, false; str_of_float := λ _, "" |}.

(** An instance that reads the strings of ASCII decimal digits, as Python
    reads them ([int("0007")] is 7 and ["0007".isdigit()] holds), and no
    other string. *)
Definition digit_of (c : ascii) : option Z :=
  let n := Z.of_N (N_of_ascii c) in
  if ((48 <=? n) && (n <=? 57))%Z then Some (n - 48)%Z else None.

Fixpoint digits_from (s : string) (acc : Z) : option Z :=
  match s with
  | EmptyString => Some acc
  | String c rest => d ← digit_of c; digits_from rest (10 * acc + d)%Z
  end.

Definition decimal_of (s : string) : option Z :=
  match s with
  | EmptyString => None
  | _ => digits_from s 0
  end.

Definition decimal_text : PyText :=
  {| int_of_str := decimal_of; float_of_str := λ _, None;
     str_isdigit := λ s, bool_decide (is_Some (decimal_of s));
     str_of_float := λ _, "" |}.

#[global] Instance spec_float_eq_dec : EqDecision spec_float.
Proof. solve_decision. Defined.

#[global] Instance float_eq_dec : EqDecision float.
Proof.
  intros x y. destruct (decide (Prim2SF x = Prim2SF y)) as [E|N].
  - left. rewrite <- (SF2Prim_Prim2SF x), <- (SF2Prim_Prim2SF y). by rewrite E.
  - right. congruence.
Defined.

#[global] Instance spec_float_countable : Countable spec_float.
Proof.
  refine (inj_countable'
    (λ x, match x with
          | S754_zero s => inl s
          | S754_infinity s => inr (inl s)
          | S754_nan => inr (inr (inl ()))
          | S754_finite s m e => inr (inr (inr (s, m, e)))
          end)
    (λ y, match y with
          | inl s => S754_zero s
          | inr (inl s) => S754_infinity s
          | inr (inr (inl _)) => S754_nan
          | inr (inr (inr (s, m, e))) => S754_finite s m e
          end) _).
  by intros [].
Defined.

#[global] Instance value_eq_dec : EqDecision value.
Proof. solve_decision. Defined.

(** ** Values as dictionary keys and set members

    Python finds a key by hash and [==]: [True], [1] and [1.0] are one key,
    a string is a key of its own.  [key_of] sends a value to the
    representative of its class: a number with an integer value to that
    integer, any other float to its sign, mantissa and exponent.  (All NaN
    are one key here; the tools' identifiers are strings.) *)
Inductive key : Type :=
  | KNone
  | KInt (z : Z)
  | KFloat (sf : spec_float)
  | KStr (s : string).

#[global] Instance key_eq_dec : EqDecision key.
Proof. solve_decision. Defined.

#[global] Instance key_countable : Countable key.
Proof.
  refine (inj_countable'
    (λ k, match k with
          | KNone => inl ()
          | KInt z => inr (inl z)
          | KFloat sf => inr (inr (inl sf))
          | KStr s => inr (inr (inr s))
          end)
    (λ y, match y with
          | inl _ => KNone
          | inr (inl z) => KInt z
          | inr (inr (inl sf)) => KFloat sf
          | inr (inr (inr s)) => KStr s
          end) _).
  by intros [].
Defined.

Definition key_of (v : value) : key :=
  match v with
  | VNone => KNone
  | VBool b => KInt (if b then 1 else 0)
  | VInt z => KInt z
  | VStr s => KStr s
  | VFloat f =>
      match Prim2SF f with
      | S754_zero _ => KInt 0
      | S754_finite s m e =>
          if (0 <=? e)%Z then
            KInt (if s then - (Z.pos m * 2 ^ e) else Z.pos m * 2 ^ e)
          else if (Z.pos m mod 2 ^ (- e) =? 0)%Z then
            KInt (if s then - (Z.pos m / 2 ^ (- e)) else Z.pos m / 2 ^ (- e))
          else KFloat (S754_finite s m e)
      | sf => KFloat sf
      end
  end.

(** [bool(v)]: what [if v] and [not v] test. *)
Definition truthy (v : value) : bool :=
  match v with
  | VNone => false
  | VBool b => b
  | VInt z => negb (z =? 0)%Z
  | VFloat f => negb (f =? 0)%float
  | VStr s => negb (String.eqb s "")
  end.

(** [a or b] *)
Definition py_or (a b : value) : value := if truthy a then a else b.

(** [d.get(k)] and [d.get(k, dflt)] on a property dictionary. *)
Definition get (p : gmap string value) (k : string) : value :=
  default VNone (p !! k).

Definition get_or (p : gmap string value) (k : string) (dflt : value) : value :=
  default dflt (p !! k).

(** The integer part of a finite float, towards zero. *)
Definition trunc_float (f : float) : option Z :=
  match Prim2SF f with
  | S754_zero _ => Some 0%Z
  | S754_finite s m e =>
      let a := (if (0 <=? e)%Z then Z.pos m * 2 ^ e
                else Z.pos m / 2 ^ (- e))%Z in
      Some (if s then (- a)%Z else a)
  | S754_infinity _ | S754_nan => None
  end.

(** [round(f)] of a float: the nearest integer, halves to the even one. *)
Definition round_float (f : float) : option Z :=
  match Prim2SF f with
  | S754_zero _ => Some 0%Z
  | S754_finite s m e =>
      let a := (if (0 <=? e)%Z then Z.pos m * 2 ^ e
                else
                  let d := 2 ^ (- e) in
                  let q := Z.pos m / d in
                  let r := Z.pos m mod d in
                  if (2 * r <? d) then q
                  else if (d <? 2 * r) then q + 1
                  else if Z.even q then q else q + 1)%Z in
      Some (if s then (- a)%Z else a)
  | S754_infinity _ | S754_nan => None
  end.

(** The float nearest to an integer; [None] where Python raises
    [OverflowError]. *)
Definition float_of_Z (z : Z) : option float :=
  match binary_normalize prec emax z 0 false with
  | S754_infinity _ | S754_nan => None
  | sf => Some (SF2Prim sf)
  end.

Section Conversions.
Context `{PyText}.

(** [int(v)] *)
Definition py_int (v : value) : option Z :=
  match v with
  | VNone => None
  | VBool b => Some (if b then 1 else 0)%Z
  | VInt z => Some z
  | VFloat f => trunc_float f
  | VStr s => int_of_str s
  end.

(** [float(v)] *)
Definition py_float (v : value) : option float :=
  match v with
  | VNone => None
  | VBool b => Some (if b then 1 else 0)%float
  | VInt z => float_of_Z z
  | VFloat f => Some f
  | VStr s => float_of_str s
  end.

(** [str(v)], also what an f-string prints for [{v}]. *)
Definition py_str (v : value) : string :=
  match v with
  | VNone => "None"
  | VBool b => if b then "True" else "False"
  | VInt z => pretty z
  | VFloat f => str_of_float f
  | VStr s => s
  end.
End Conversions.

(** [f"{n:0{w}d}"] for a natural number: decimal digits, zero-padded on the
    left to at least [w] characters. *)
Fixpoint zeros (k : nat) : string :=
  match k with
  | O => ""
  | S k => String "0" (zeros k)
  end.

Definition zero_pad (w : nat) (n : nat) : string :=
  let d := pretty (N.of_nat n) in
  zeros (w - String.length d) +:+ d.

End Py.

Import Py.

(** * tools/scaffold_and_score_hexes.py *)

Module ScaffoldAndScore.

Definition defaults_row (elev tall clutter los : Z) (pop crit : float)
  : gmap string value :=
  list_to_map
    [ ("elev_adv_avail", VInt elev);
      ("tall_struct_avail", VInt tall);
      ("clutter_high", VInt clutter);
      ("backbone_los_likely", VInt los);
      ("pop_weight", VFloat pop);
      ("critical_weight", VFloat crit) ].

Definition ZONE_DEFAULTS : gmap string (gmap string value) :=
  list_to_map
    [ ("Z_WEST_HIGH_RELIEF", defaults_row 1 0 0 1 0.2 0.2);
      ("Z_CENTRAL_LOW_RELIEF", defaults_row 0 1 0 1 0.4 0.3);
      ("Z_EAST_RIDGE_METRO", defaults_row 1 1 1 0 0.6 0.4);
      ("", defaults_row 0 0 0 0 0.0 0.0) ].

(** [ZONE_DEFAULTS.get(zid, ZONE_DEFAULTS[""])]: the keys are strings, so a
    [zid] that is not a string finds nothing. *)
Definition zone_defaults (zid : value) : gmap string value :=
  let unassigned := default ∅ (ZONE_DEFAULTS !! "") in
  match zid with
  | VStr s => default unassigned (ZONE_DEFAULTS !! s)
  | _ => unassigned
  end.

Definition clamp (x lo hi : Z) : Z :=
  if (x <? lo)%Z then lo else if (hi <? x)%Z then hi else x.

Section Scoring.
Context `{PyText}.

Definition compute_confidence_score (p : gmap string value) : option Z :=
  elev ← py_int (get_or p "elev_adv_avail" (VInt 0));
  tall ← py_int (get_or p "tall_struct_avail" (VInt 0));
  clutter ← py_int (get_or p "clutter_high" (VInt 0));
  los ← py_int (get_or p "backbone_los_likely" (VInt 0));
  let score := 0%Z in
  let score := (score + 25 * los)%Z in
  let score := (score + 20 * elev)%Z in
  let score := (score + 20 * tall)%Z in
  let score := (score + 15 * (1 - clutter))%Z in
  Some (clamp score 0 100).

Definition confidence_class (score : Z) : string :=
  if (70 <=? score)%Z then "HIGH"
  else if (40 <=? score)%Z then "MED"
  else "LOW".

Definition tierB_requirements (conf_class : string) : Z * Z :=
  if String.eqb conf_class "LOW" then (2, 1)%Z
  else if String.eqb conf_class "MED" then (1, 1)%Z
  else (1, 0)%Z.

Definition compute_tierC_demand (p : gmap string value) (zid : value)
  : option string :=
  pop ← py_float (get_or p "pop_weight" (VFloat 0));
  clutter ← py_int (get_or p "clutter_high" (VInt 0));
  let demand := (pop + (if (clutter =? 0)%Z then 0.0 else 0.2))%float in
  let demand :=
    if decide (zid = VStr "Z_EAST_RIDGE_METRO") then (demand + 0.2)%float
    else demand in
  Some (if (0.8 <=? demand)%float then "HIGH"
        else if (0.4 <=? demand)%float then "MED"
        else "LOW").

Definition compute_priority_score (p : gmap string value) : option Z :=
  conf ← py_int (py_or (get p "confidence_score") (VInt 0));
  pop ← py_float (get_or p "pop_weight" (VFloat 0));
  crit ← py_float (get_or p "critical_weight" (VFloat 0));
  fconf ← float_of_Z conf;
  let score := (0.6 * fconf + 25.0 * pop + 25.0 * crit)%float in
  r ← round_float score;
  Some (clamp r 0 100).

(** ** The scaffolding step of [main] *)

Definition flag_keys : list string :=
  ["elev_adv_avail"; "tall_struct_avail"; "clutter_high";
   "backbone_los_likely"].

Definition weight_keys : list string := ["pop_weight"; "critical_weight"].

(** [k not in p or p.get(k) in (None, "")] *)
Definition flag_unset (p : gmap string value) (k : string) : bool :=
  match p !! k with
  | None => true
  | Some v => bool_decide (v = VNone) || bool_decide (v = VStr "")
  end.

(** [k not in p or p.get(k) is None] *)
Definition weight_unset (p : gmap string value) (k : string) : bool :=
  match p !! k with
  | None => true
  | Some v => bool_decide (v = VNone)
  end.

(** One turn of either loop: [p[k] = defaults[k]; scaffolded += 1] when the
    test holds. *)
Definition scaffold_key (unset : gmap string value → string → bool)
    (defaults : gmap string value)
    (st : option (gmap string value * nat)) (k : string)
  : option (gmap string value * nat) :=
  '(p, scaffolded) ← st;
  if unset p k then
    d ← defaults !! k;
    Some (<[k := d]> p, S scaffolded)
  else Some (p, scaffolded).

Definition scaffold (defaults : gmap string value)
    (st : gmap string value * nat) : option (gmap string value * nat) :=
  let st := foldl (scaffold_key flag_unset defaults) (Some st) flag_keys in
  foldl (scaffold_key weight_unset defaults) st weight_keys.

(** ** The body of the loop of [main], for one feature's properties *)

Definition score_properties (st : gmap string value * nat)
  : option (gmap string value * nat) :=
  let zid := get_or st.1 "zone_id" (VStr "") in
  let defaults := zone_defaults zid in
  '(p, scaffolded) ← scaffold defaults st;
  cs ← compute_confidence_score p;
  let cc := confidence_class cs in
  let '(sites_required, alt_required) := tierB_requirements cc in
  let p := <["confidence_score" := VInt cs]> p in
  let p := <["confidence_class" := VStr cc]> p in
  let p := <["tierB_sites_required" := VInt sites_required]> p in
  let p := <["tierB_alternate_required" := VInt alt_required]> p in
  demand ← compute_tierC_demand p zid;
  let p := <["tierC_demand_class" := VStr demand]> p in
  prio ← compute_priority_score p;
  let p := <["priority_score" := VInt prio]> p in
  Some (p, scaffolded).

(** [main] over the property dictionaries of the features, in order; the
    file is written only when no feature raised. *)
Fixpoint score_all (ps : list (gmap string value)) (scaffolded : nat)
  : option (list (gmap string value) * nat) :=
  match ps with
  | [] => Some ([], scaffolded)
  | p :: rest =>
      '(p', scaffolded) ← score_properties (p, scaffolded);
      '(rest', scaffolded) ← score_all rest scaffolded;
      Some (p' :: rest', scaffolded)
  end.

Definition main (ps : list (gmap string value))
  : option (list (gmap string value) * nat) :=
  score_all ps 0.
End Scoring.

End ScaffoldAndScore.

(** * tools/make_hex_cells.py *)

Module MakeHexCells.

Local Open Scope R_scope.

Record feature := Feature {
  geometry : list (list (R * R));
  properties : gmap string value;
}.

(** lon_min, lat_min, lon_max, lat_max *)
Definition BBOX : R * R * R * R := (-125, 24, -66.5, 49.5).

Definition HEX_RADIUS_MI : R := 35.

(** [math.radians] *)
Definition radians (deg : R) : R := deg * (PI / 180).

Definition miles_to_deg_lat (mi : R) : R := mi / 69.

Definition miles_to_deg_lon (mi lat_deg : R) : R :=
  mi / (69 * cos (radians lat_deg)).

Definition hex_polygon (center_lon center_lat r_mi : R)
  : list (list (R * R)) :=
  let r_lat := miles_to_deg_lat r_mi in
  let r_lon := miles_to_deg_lon r_mi center_lat in
  [[ (center_lon + r_lon, center_lat);
     (center_lon + r_lon / 2, center_lat + r_lat * R_sqrt.sqrt 3 / 2);
     (center_lon - r_lon / 2, center_lat + r_lat * R_sqrt.sqrt 3 / 2);
     (center_lon - r_lon, center_lat);
     (center_lon - r_lon / 2, center_lat - r_lat * R_sqrt.sqrt 3 / 2);
     (center_lon + r_lon / 2, center_lat - r_lat * R_sqrt.sqrt 3 / 2);
     (center_lon + r_lon, center_lat) ]].

(** The [props] literal of [main], for the cell numbered [cell_idx]. *)
Definition cell_properties (cell_idx : nat) : gmap string value :=
  list_to_map
    [ ("cell_id", VStr ("H_" +:+ zero_pad 6 cell_idx));
      ("zone_id", VStr "");
      ("cell_radius_mi", VInt 35);
      ("elev_adv_avail", VInt 0);
      ("tall_struct_avail", VInt 0);
      ("clutter_high", VInt 0);
      ("backbone_los_likely", VInt 0);
      ("pop_weight", VFloat 0);
      ("critical_weight", VFloat 0);
      ("confidence_score", VNone);
      ("confidence_class", VNone);
      ("tierB_sites_required", VNone);
      ("tierB_alternate_required", VNone);
      ("tierC_demand_class", VNone);
      ("priority_score", VNone);
      ("notes", VStr "") ].

(** The inner loop [while lon <= lon_max], cut after [fuel] turns. *)
Fixpoint row_cells (fuel : nat) (lon lat lon_step lon_max : R)
    (cell_idx : nat) : list feature * nat :=
  match fuel with
  | O => ([], cell_idx)
  | S fuel =>
      if Rle_dec lon lon_max then
        let cell_idx := S cell_idx in
        let f := Feature (hex_polygon lon lat HEX_RADIUS_MI)
                         (cell_properties cell_idx) in
        let '(fs, cell_idx) :=
          row_cells fuel (lon + lon_step) lat lon_step lon_max cell_idx in
        (f :: fs, cell_idx)
      else ([], cell_idx)
  end.

(** The outer loop [while lat <= lat_max], cut after [fuel] turns. *)
Fixpoint grid_cells (fuel : nat) (lat : R) (row : nat) (cell_idx : nat)
  : list feature :=
  let '(lon_min, lat_min, lon_max, lat_max) := BBOX in
  match fuel with
  | O => []
  | S fuel' =>
      if Rle_dec lat lat_max then
        let r_lon := miles_to_deg_lon HEX_RADIUS_MI lat in
        let r_lat := miles_to_deg_lat HEX_RADIUS_MI in
        let lon_step := 1.5 * r_lon in
        let lat_step := R_sqrt.sqrt 3 * r_lat in
        let lon := lon_min + (if Nat.odd row then 0.75 * r_lon else 0) in
        let '(fs, cell_idx) :=
          row_cells fuel lon lat lon_step lon_max cell_idx in
        fs ++ grid_cells fuel' (lat + lat_step) (S row) cell_idx
      else []
  end.

(** The features [main] writes, with both loops cut after [fuel] turns. *)
Definition main (fuel : nat) : list feature :=
  let '(lon_min, lat_min, lon_max, lat_max) := BBOX in
  grid_cells fuel lat_min 0 0.

End MakeHexCells.

(** * tools/apply_tiera_coverage.py *)

Module ApplyTierACoverage.

Section Coverage.

(** [Vertex = Tuple[float, float]]: the tool only compares vertices for
    equality and hashes them, so any countable type with decidable equality
    stands for them. *)
Context {V : Type} `{Countable V}.

(** The geometry of a site feature, which the tool never reads. *)
Context {G : Type}.

(** [for covered_cell in covered_cells] walks a Python set, in an order the
    language does not fix: the order is an argument of the pass. *)
Variable set_order : gset key → list key.

Inductive geometry : Type :=
  | Polygon (coordinates : list (list V))
  | MultiPolygon (coordinates : list (list (list V)))
  | OtherGeometry.

Record hex_feature := HexFeature {
  hex_geometry : geometry;
  hex_properties : gmap string value;
}.

Record site_feature := SiteFeature {
  site_geometry : G;
  site_properties : gmap string value;
}.

(** [None] is the [ValueError] for an unsupported geometry type. *)
Definition iter_vertices (g : geometry) : option (list V) :=
  match g with
  | Polygon coordinates => Some (concat coordinates)
  | MultiPolygon coordinates => Some (concat (concat coordinates))
  | OtherGeometry => None
  end.

(** [vertex_to_cells.setdefault(vertex, set()).add(cell_id)] *)
Definition index_vertex (cell_id : key)
    (vertex_to_cells : gmap V (gset key)) (vertex : V)
  : gmap V (gset key) :=
  <[vertex := default ∅ (vertex_to_cells !! vertex) ∪ {[cell_id]}]>
    vertex_to_cells.

(** One turn of the first loop of [build_neighbor_map]. *)
Definition index_feature
    (st : gmap V (gset key) * gmap key (gset V)) (feature : hex_feature)
  : option (gmap V (gset key) * gmap key (gset V)) :=
  let '(vertex_to_cells, cell_vertices) := st in
  let cell_id := get (hex_properties feature) "cell_id" in
  if truthy cell_id then
    vs ← iter_vertices (hex_geometry feature);
    let vertices : gset V := list_to_set vs in
    Some (foldl (index_vertex (key_of cell_id)) vertex_to_cells
                (elements vertices),
          <[key_of cell_id := vertices]> cell_vertices)
  else Some st.

Fixpoint index_features (hex_features : list hex_feature)
    (st : gmap V (gset key) * gmap key (gset V))
  : option (gmap V (gset key) * gmap key (gset V)) :=
  match hex_features with
  | [] => Some st
  | feature :: rest => st ← index_feature st feature; index_features rest st
  end.

(** The body of the second loop: the union, over the cell's vertices, of
    the cells recorded at each. *)
Definition neighbors_of (vertex_to_cells : gmap V (gset key))
    (vertices : gset V) : gset key :=
  foldl (λ neighbors vertex,
           neighbors ∪ default ∅ (vertex_to_cells !! vertex))
        ∅ (elements vertices).

Definition build_neighbor_map (hex_features : list hex_feature)
  : option (gmap key (gset key)) :=
  match index_features hex_features (∅, ∅) with
  | Some (vertex_to_cells, cell_vertices) =>
      Some (neighbors_of vertex_to_cells <$> cell_vertices)
  | None => None
  end.

(** ** [main]

    The site features stay in the list [sites["features"]]; the lists the
    tool builds hold references to them, here their positions in that list,
    so that a change made through one reference is seen through the others. *)

Record buckets := Buckets {
  tierb_candidates_by_cell : gmap key (list nat);
  tierb_required_features : list nat;
  tierb_alt_features : list nat;
  tiera_features : list nat;
}.

Definition no_buckets : buckets := Buckets ∅ [] [] [].

(** One turn of the loop of lines 80-96, for the feature at position [i]. *)
Definition classify_feature (b : buckets) (i : nat) (feature : site_feature)
  : buckets :=
  let props := site_properties feature in
  let tier := get props "tier" in
  let notes := get props "notes" in
  if decide (tier = VStr "A") then
    Buckets (tierb_candidates_by_cell b) (tierb_required_features b)
            (tierb_alt_features b) (tiera_features b ++ [i])
  else if decide (tier ≠ VStr "B") then b
  else if decide (notes = VStr "ALT") then
    Buckets (tierb_candidates_by_cell b) (tierb_required_features b)
            (tierb_alt_features b ++ [i]) (tiera_features b)
  else
    let required := tierb_required_features b ++ [i] in
    if decide (get props "status" = VStr "CANDIDATE") then
      let cell_id := get props "cell_id" in
      if truthy cell_id then
        Buckets (<[key_of cell_id :=
                     default [] (tierb_candidates_by_cell b !! key_of cell_id)
                     ++ [i]]>
                   (tierb_candidates_by_cell b))
                required (tierb_alt_features b) (tiera_features b)
      else
        Buckets (tierb_candidates_by_cell b) required
                (tierb_alt_features b) (tiera_features b)
    else
      Buckets (tierb_candidates_by_cell b) required
              (tierb_alt_features b) (tiera_features b).

Fixpoint classify (i : nat) (features : list site_feature) (b : buckets)
  : buckets :=
  match features with
  | [] => b
  | feature :: rest => classify (S i) rest (classify_feature b i feature)
  end.

Definition set_properties (feature : site_feature)
    (props : gmap string value) : site_feature :=
  SiteFeature (site_geometry feature) props.

(** The body of [for candidate in candidates], lines 110-118: [i] is the
    position of the Tier-A feature, [j] the candidate's. *)
Definition satisfy (i : nat) (st : list site_feature * nat * bool) (j : nat)
  : list site_feature * nat * bool :=
  let '(sites, satisfied_required, satisfied_any) := st in
  match sites !! i, sites !! j with
  | Some tiera_feature, Some candidate =>
      let props := site_properties tiera_feature in
      let cand_props := site_properties candidate in
      if decide (get cand_props "status" ≠ VStr "CANDIDATE") then st
      else
        let cand_props := <["status" := VStr "SATISFIED"]> cand_props in
        let cand_props := <["satisfied_by" := get props "site_id"]> cand_props in
        let cand_props :=
          <["satisfied_corridor_id" := get props "corridor_id"]> cand_props in
        (<[j := set_properties candidate cand_props]> sites,
         S satisfied_required, true)
  | _, _ => st
  end.

(** The body of [for covered_cell in covered_cells], lines 108-118. *)
Definition cover_cell (candidates_by_cell : gmap key (list nat)) (i : nat)
    (st : list site_feature * nat * bool) (covered_cell : key)
  : list site_feature * nat * bool :=
  foldl (satisfy i) st (default [] (candidates_by_cell !! covered_cell)).

(** [neighbor_map.get(cell_id, {cell_id})] *)
Definition covered_cells (neighbor_map : gmap key (gset key))
    (cell_id : key) : gset key :=
  default {[cell_id]} (neighbor_map !! cell_id).

(** The body of [for tiera_feature in tiera_features], lines 101-120. *)
Definition cover (neighbor_map : gmap key (gset key))
    (candidates_by_cell : gmap key (list nat))
    (st : list site_feature * nat * gset key) (i : nat)
  : list site_feature * nat * gset key :=
  let '(sites, satisfied_required, tiera_used) := st in
  match sites !! i with
  | None => st
  | Some tiera_feature =>
      let cell_id := get (site_properties tiera_feature) "cell_id" in
      if truthy cell_id then
        let '(sites, satisfied_required, satisfied_any) :=
          foldl (cover_cell candidates_by_cell i)
                (sites, satisfied_required, false)
                (set_order (covered_cells neighbor_map (key_of cell_id))) in
        let tiera_used :=
          if satisfied_any : bool then
            match sites !! i with
            | Some tiera_feature =>
                tiera_used
                ∪ {[key_of (get (site_properties tiera_feature) "site_id")]}
            | None => tiera_used
            end
          else tiera_used in
        (sites, satisfied_required, tiera_used)
      else st
  end.

Record zone_row := ZoneRow {
  tierB_required_before : nat;
  tierB_required_after : nat;
  tierB_alt_total : nat;
  tierA_sites : nat;
}.

Definition zero_row : zone_row := ZoneRow 0 0 0 0.

(** [stats = zone_stats.setdefault(zone_id, {...all 0...})] followed by the
    update of [stats]; a feature with no [zone_id] is passed over. *)
Definition count_in_zone (sites : list site_feature)
    (update : gmap string value → zone_row → zone_row)
    (zone_stats : gmap key zone_row) (j : nat) : gmap key zone_row :=
  match sites !! j with
  | None => zone_stats
  | Some feature =>
      let props := site_properties feature in
      let zone_id := get props "zone_id" in
      if truthy zone_id then
        <[key_of zone_id :=
            update props (default zero_row (zone_stats !! key_of zone_id))]>
          zone_stats
      else zone_stats
  end.

Definition count_required (props : gmap string value) (stats : zone_row)
  : zone_row :=
  ZoneRow (S (tierB_required_before stats))
          (if decide (get props "status" ≠ VStr "SATISFIED")
           then S (tierB_required_after stats)
           else tierB_required_after stats)
          (tierB_alt_total stats) (tierA_sites stats).

Definition count_alt (props : gmap string value) (stats : zone_row)
  : zone_row :=
  ZoneRow (tierB_required_before stats) (tierB_required_after stats)
          (S (tierB_alt_total stats)) (tierA_sites stats).

Definition count_tiera (props : gmap string value) (stats : zone_row)
  : zone_row :=
  ZoneRow (tierB_required_before stats) (tierB_required_after stats)
          (tierB_alt_total stats) (S (tierA_sites stats)).

(** Lines 122-171. *)
Definition zone_rollup (sites : list site_feature) (b : buckets)
  : gmap key zone_row :=
  let zone_stats :=
    foldl (count_in_zone sites count_required) ∅ (tierb_required_features b) in
  let zone_stats :=
    foldl (count_in_zone sites count_alt) zone_stats (tierb_alt_features b) in
  foldl (count_in_zone sites count_tiera) zone_stats (tiera_features b).

(** What a run leaves: the site features written back to [sites.geojson],
    the rows of the rollup (the CSV file lists them by [zone_id]) and the
    three counters of the summary line. *)
Record outcome := Outcome {
  out_sites : list site_feature;
  out_zone_stats : gmap key zone_row;
  out_satisfied_required : nat;
  out_remaining_required : nat;
  out_tiera_used : gset key;
}.

Definition still_required (sites : list site_feature) (j : nat) : bool :=
  match sites !! j with
  | Some feature =>
      bool_decide (get (site_properties feature) "status" ≠ VStr "SATISFIED")
  | None => false
  end.

(** [sorted(zone_stats)], line 184, orders the keys of the rollup with [<]:
    two strings compare and two numbers compare, but a string against a
    number, or [None] against anything, raises [TypeError]; fewer than two
    keys are returned without a comparison.  Any ordering of two keys or
    more has to compare keys of both kinds when both are present, so the
    call returns exactly on the key sets below. *)
Definition is_str_key (k : key) : bool :=
  match k with KStr _ => true | _ => false end.

Definition is_number_key (k : key) : bool :=
  match k with KInt _ | KFloat _ => true | _ => false end.

Definition sortable (keys : list key) : bool :=
  bool_decide (length keys ≤ 1)
  || forallb is_str_key keys || forallb is_number_key keys.

(** The rows of the CSV file are written between the rollup and the count
    of the remaining sites; [None] is an error raised before the sites are
    written back.  The order of the rows in the file is not part of the
    outcome. *)
Definition main (hex_features : list hex_feature) (sites : list site_feature)
  : option outcome :=
  neighbor_map ← build_neighbor_map hex_features;
  let b := classify 0 sites no_buckets in
  let '(sites, satisfied_required, tiera_used) :=
    foldl (cover neighbor_map (tierb_candidates_by_cell b))
          (sites, 0, ∅) (tiera_features b) in
  let zone_stats := zone_rollup sites b in
  if sortable (elements (dom zone_stats)) then
    let remaining_required :=
      length (filter (λ j, still_required sites j = true)
                     (tierb_required_features b)) in
    Some (Outcome sites zone_stats satisfied_required remaining_required
                  tiera_used)
  else None.

End Coverage.

Arguments geometry V : clear implicits.
Arguments hex_feature V : clear implicits.
Arguments site_feature G : clear implicits.
Arguments outcome G : clear implicits.

End ApplyTierACoverage.

(** * GeoJSON features with coordinates

    Shared by the two seeding tools.  A position is a pair (lon, lat).

    Coordinates, and the lengths computed from them, are binary64 numbers
    in the tools and real numbers here: the arithmetic below is exact where
    Python's rounds.  The two part where a computed number is compared
    with zero.  The denominator [(y2 - y1) + 1e-12] of [_point_in_ring] is
    zero here only for [y2 - y1 = -1e-12] exactly, and can round to [0.0]
    in binary64, a [ZeroDivisionError], where the real one is not zero.  A
    segment along a pole has length exactly 0 here, the cosine of 90
    degrees being 0, and a length of about 4e-15 miles per degree of
    longitude in binary64.  The statements below that depend on such a test either
    assume its result or keep latitudes strictly between -90 and 90. *)

Module Geo.

Inductive geometry : Type :=
  | Point (coordinates : R * R)
  | LineString (coordinates : list (R * R))
  | Polygon (coordinates : list (list (R * R)))
  | MultiPolygon (coordinates : list (list (list (R * R))))
  | OtherGeometry.

(** [f.get("properties", {}) or {}]: a feature without properties has the
    empty dictionary. *)
Record feature := Feature {
  geometry_of : geometry;
  properties : gmap string value;
}.

(** [math.radians] *)
Definition radians (deg : R) : R := (deg * (PI / 180))%R.

End Geo.

(** * tools/seed_tiera_from_corridors.py *)

Module SeedTierA.

Import Geo.

Local Open Scope R_scope.

Definition DEFAULT_SITE_FIELDS : list (string * value) :=
  [ ("tier", VStr "A");
    ("status", VStr "CANDIDATE");
    ("site_class", VStr "OTHER");
    ("access_class", VStr "MODERATE");
    ("power_class", VStr "UNKNOWN");
    ("risk_lightning", VStr "UNKNOWN") ].

(** The loop of [_point_in_ring] from the edge that starts at the head of
    [ring]; [None] is the [ZeroDivisionError] of a zero denominator. *)
Fixpoint _point_in_ring_from (x y : R) (ring : list (R * R)) (inside : bool)
  : option bool :=
  match ring with
  | [] => Some inside
  | (x1, y1) :: rest =>
      match rest with
      | [] => Some inside
      | (x2, y2) :: _ =>
          if xorb (if Rgt_dec y1 y then true else false)
                  (if Rgt_dec y2 y then true else false)
          then
            let denominator := (y2 - y1) + 1e-12 in
            if Req_dec_T denominator 0 then None
            else
              let xinters := (x2 - x1) * (y - y1) / denominator + x1 in
              _point_in_ring_from x y rest
                (if Rlt_dec x xinters then negb inside else inside)
          else _point_in_ring_from x y rest inside
      end
  end.

Definition _point_in_ring (point : R * R) (ring : list (R * R))
  : option bool :=
  let '(x, y) := point in _point_in_ring_from x y ring false.

(** [None] is also the [IndexError] of [polygon_coords[0]]. *)
Definition _point_in_polygon (point : R * R)
    (polygon_coords : list (list (R * R))) : option bool :=
  match polygon_coords with
  | [] => None
  | outer :: _ => _point_in_ring point outer
  end.

Definition _deg_to_miles_lon (dlon lat_deg : R) : R :=
  dlon * 69 * cos (radians lat_deg).

Definition _deg_to_miles_lat (dlat : R) : R := dlat * 69.

Definition _segment_len_mi (a b : R * R) : R :=
  let '(lon1, lat1) := a in
  let '(lon2, lat2) := b in
  let dlon := lon2 - lon1 in
  let dlat := lat2 - lat1 in
  let mx := _deg_to_miles_lon dlon ((lat1 + lat2) / 2) in
  let my := _deg_to_miles_lat dlat in
  R_sqrt.sqrt (mx * mx + my * my).

(** [total] is threaded as the accumulator of the loop. *)
Fixpoint _line_length_from (coords : list (R * R)) (total : R) : R :=
  match coords with
  | [] => total
  | a :: rest =>
      match rest with
      | [] => total
      | b :: _ => _line_length_from rest (total + _segment_len_mi a b)
      end
  end.

Definition _line_length_mi (coords : list (R * R)) : R :=
  _line_length_from coords 0.

Definition _interpolate_on_segment (a b : R * R) (t : R) : R * R :=
  (a.1 + (b.1 - a.1) * t, a.2 + (b.2 - a.2) * t).

(** The loop of [_point_at_distance] from the segment that starts at the
    head of [coords], [walked] miles into the line; past the last segment
    the result is [coords[-1]], an [IndexError] on the empty list. *)
Fixpoint _point_at_distance_from (coords : list (R * R)) (walked dist_mi : R)
  : option (R * R) :=
  match coords with
  | [] => None
  | a :: rest =>
      match rest with
      | [] => Some a
      | b :: _ =>
          let seg := _segment_len_mi a b in
          if Rge_dec (walked + seg) dist_mi then
            let t := if Req_dec_T seg 0 then 0
                     else (dist_mi - walked) / seg in
            Some (_interpolate_on_segment a b t)
          else _point_at_distance_from rest (walked + seg) dist_mi
      end
  end.

Definition _point_at_distance (coords : list (R * R)) (dist_mi : R)
  : option (R * R) :=
  _point_at_distance_from coords 0 dist_mi.

Definition _sample_points_along_line (coords : list (R * R)) (n : Z)
  : option (list (R * R)) :=
  if (n <=? 0)%Z then Some []
  else if (n =? 1)%Z then
    let target := _line_length_mi coords / 2 in
    p ← _point_at_distance coords target;
    Some [p]
  else
    let total_len := _line_length_mi coords in
    if Rle_dec total_len 0 then
      first ← head coords;
      Some (replicate (Z.to_nat n) first)
    else
      let targets :=
        (λ i : nat, total_len * (INR i / IZR (n + 1)))
          <$> seq 1 (Z.to_nat n) in
      mapM (_point_at_distance coords) targets.

Section Seeding.
Context `{PyText}.

(** [(cell_id, zone_id, polygon_coords)] for each Polygon feature that has
    both identifiers. *)
Definition _build_hex_index (hex_features : list feature)
  : list (string * string * list (list (R * R))) :=
  flat_map
    (λ f,
       let props := properties f in
       match geometry_of f with
       | Polygon coordinates =>
           let cell_id :=
             py_or (py_or (get props "cell_id") (get props "id"))
                   (get props "hex_id") in
           let zone_id := get props "zone_id" in
           if decide (cell_id = VNone ∨ zone_id = VNone) then []
           else [(py_str cell_id, py_str zone_id, coordinates)]
       | _ => []
       end)
    hex_features.

(** The outer [None] is an exception raised by [_point_in_polygon], the
    inner one the result [None] of the function. *)
Fixpoint _find_hex_for_point (pt : R * R)
    (hex_index : list (string * string * list (list (R * R))))
  : option (option (string * string)) :=
  match hex_index with
  | [] => Some None
  | (cell_id, zone_id, poly_coords) :: rest =>
      inside ← _point_in_polygon pt poly_coords;
      if inside : bool then Some (Some (cell_id, zone_id))
      else _find_hex_for_point pt rest
  end.

(** The property dictionary [p] of a seeded site (lines 218-226). *)
Definition site_properties (seq_no i : nat) (cell_id zone_id : string)
    (corridor_id : value) (is_alt : bool) : gmap string value :=
  list_to_map
    ([ ("site_id", VStr ("S_A_" +:+ zero_pad 4 seq_no));
       ("site_name",
        VStr ("Tier A " +:+ py_str corridor_id +:+ " #" +:+ zero_pad 2 (i + 1)));
       ("cell_id", VStr cell_id);
       ("zone_id", VStr zone_id);
       ("corridor_id", corridor_id);
       ("notes", VStr (if is_alt then "ALT" else "")) ]
     ++ DEFAULT_SITE_FIELDS).

(** One turn of [for i in range(total)] (lines 206-234): the state is the
    list [seeded] and the counter [seq]. *)
Definition seed_point
    (hex_index : list (string * string * list (list (R * R))))
    (corridor_id : value) (required : Z) (pts : list (R * R))
    (st : option (list feature * nat)) (i : nat)
  : option (list feature * nat) :=
  '(seeded, seq_no) ← st;
  pt ← pts !! i;
  found ← _find_hex_for_point pt hex_index;
  match found with
  | None => Some (seeded, seq_no)
  | Some (cell_id, zone_id) =>
      let is_alt := (required <=? Z.of_nat i)%Z in
      let p := site_properties seq_no i cell_id zone_id corridor_id is_alt in
      Some (seeded ++ [Feature (Point pt) p], S seq_no)
  end.

Record rollup_row := RollupRow {
  required_total : Z;
  alternate_total : Z;
  total_total : Z;
}.

(** One turn of [for c in corridors] (lines 177-234). *)
Definition seed_corridor
    (hex_index : list (string * string * list (list (R * R))))
    (st : list feature * nat * gmap string rollup_row) (c : feature)
  : option (list feature * nat * gmap string rollup_row) :=
  let '(seeded, seq_no, rollup) := st in
  let props := properties c in
  match geometry_of c with
  | LineString coords =>
      let corridor_id := get props "corridor_id" in
      tmin ← py_int (py_or (get_or props "tierA_target_sites_min" (VInt 0))
                           (VInt 0));
      tmax ← py_int (py_or (get_or props "tierA_target_sites_max" (VInt 0))
                           (VInt 0));
      if decide (corridor_id = VNone) then None
      else
        let required := Z.max 0 tmin in
        let alternate := Z.max 0 (tmax - tmin) in
        let total := (required + alternate)%Z in
        let r := default (RollupRow 0 0 0) (rollup !! py_str corridor_id) in
        let rollup :=
          <[py_str corridor_id :=
              RollupRow (required_total r + required)
                        (alternate_total r + alternate)
                        (total_total r + total)]> rollup in
        if (total =? 0)%Z then Some (seeded, seq_no, rollup)
        else
          pts ← _sample_points_along_line coords total;
          '(seeded, seq_no) ←
            foldl (seed_point hex_index corridor_id required pts)
                  (Some (seeded, seq_no)) (seq 0 (Z.to_nat total));
          Some (seeded, seq_no, rollup)
  | _ => None
  end.

Fixpoint seed_corridors
    (hex_index : list (string * string * list (list (R * R))))
    (corridors : list feature)
    (st : list feature * nat * gmap string rollup_row)
  : option (list feature * nat * gmap string rollup_row) :=
  match corridors with
  | [] => Some st
  | c :: rest =>
      st ← seed_corridor hex_index st c;
      seed_corridors hex_index rest st
  end.

(** What a run writes: the features of [sites.geojson], the list [seeded]
    among them, and the rollup (the CSV file lists it by corridor). *)
Record outcome := Outcome {
  out_sites : list feature;
  out_seeded : list feature;
  out_rollup : gmap string rollup_row;
}.

Definition main (corridors hex_features existing : list feature)
  : option outcome :=
  match corridors, hex_features with
  | [], _ | _, [] => None
  | _, _ =>
      let kept :=
        filter (λ f, get (properties f) "tier" ≠ VStr "A") existing in
      let hex_index := _build_hex_index hex_features in
      '(seeded, _, rollup) ←
        seed_corridors hex_index corridors ([], 1%nat, ∅);
      Some (Outcome (kept ++ seeded) seeded rollup)
  end.

End Seeding.

End SeedTierA.

(** * tools/seed_tierb_sites.py *)

Module SeedTierB.

Import Geo.

Local Open Scope R_scope.

(** If true: replace sites.geojson with only the seeded Tier B candidates.
    If false: keep the existing features and append the candidates. *)
Definition REPLACE_SITES_FILE : bool := true.

Definition DEFAULT_SITE_FIELDS : list (string * value) :=
  [ ("tier", VStr "B");
    ("status", VStr "CANDIDATE");
    ("site_class", VStr "OTHER");
    ("access_class", VStr "MODERATE");
    ("power_class", VStr "UNKNOWN");
    ("risk_lightning", VStr "UNKNOWN");
    ("corridor_id", VNone) ].

(** [sum] of a list of floats *)
Definition sum_R (xs : list R) : R := foldl Rplus 0 xs.

Definition _polygon_area (ring : list (R * R)) : R :=
  let points := ring in
  if (length points <? 3)%nat then 0
  else
    let area :=
      foldl (λ area '((x1, y1), (x2, y2)), area + (x1 * y2 - x2 * y1)) 0
            (zip points (drop 1 points ++ take 1 points)) in
    Rabs area / 2.

(** [None] is the [ZeroDivisionError] of a ring with at most one point. *)
Definition _centroid_from_ring (ring : list (R * R)) : option (R * R) :=
  let xs := fst <$> removelast ring in
  let ys := snd <$> removelast ring in
  if decide (length xs = 0%nat) then None
  else Some (sum_R xs / INR (length xs), sum_R ys / INR (length ys)).

(** The key of [max] in [_get_centroid]; [None] is the [IndexError] of
    [poly[0]]. *)
Definition outer_area (poly : list (list (R * R))) : option R :=
  outer ← head poly;
  Some (_polygon_area (removelast outer)).

(** [max(coords, key=...)]: the first polygon of greatest key. *)
Fixpoint max_by_area (best : list (list (R * R))) (best_key : R)
    (polys : list (list (list (R * R)))) : option (list (list (R * R))) :=
  match polys with
  | [] => Some best
  | poly :: rest =>
      k ← outer_area poly;
      if Rgt_dec k best_key then max_by_area poly k rest
      else max_by_area best best_key rest
  end.

Definition _get_centroid (geom : geometry) : option (R * R) :=
  match geom with
  | Polygon coords =>
      outer ← head coords;
      _centroid_from_ring outer
  | MultiPolygon coords =>
      match coords with
      | [] => None
      | poly :: rest =>
          k ← outer_area poly;
          largest ← max_by_area poly k rest;
          outer ← head largest;
          _centroid_from_ring outer
      end
  | _ => None
  end.

Definition base_offsets : list (Z * Z) :=
  [ (-1, -1); (0, -1); (1, -1);
    (-1, 0); (0, 0); (1, 0);
    (-1, 1); (0, 1); (1, 1) ]%Z.

Definition _candidate_points (lon lat : R) (n : Z) : list (R * R) :=
  if (n <=? 1)%Z then [(lon, lat)]
  else
    let step := 0.0003 in
    let k := length base_offsets in
    ((λ '(dx, dy), (lon + IZR dx * step, lat + IZR dy * step))
       <$> take (Z.to_nat (Z.min n (Z.of_nat k))) base_offsets)
    ++ ((λ i : nat, (lon + IZR (Z.of_nat i - Z.of_nat k + 1) * step, lat))
          <$> seq k (Z.to_nat n - k)).

(** [s.split("_")[-1]]: what follows the last underscore. *)
Fixpoint last_segment (s : string) (current : string) : string :=
  match s with
  | EmptyString => current
  | String c rest =>
      if Ascii.eqb c "_" then last_segment rest ""
      else last_segment rest (current +:+ String c "")
  end.

Definition _new_site_id (seq_no : nat) : string :=
  "S_B_" +:+ zero_pad 4 seq_no.

Section Seeding.
Context `{PyText}.

(** The loop of [_next_site_seq], with [max_id] as its state; [None] is a
    [ValueError] of [int(tail)]. *)
Fixpoint _next_site_seq_from (existing_features : list feature) (max_id : Z)
  : option Z :=
  match existing_features with
  | [] => Some (max_id + 1)%Z
  | feat :: rest =>
      match get_or (properties feat) "site_id" (VStr "") with
      | VStr site_id =>
          if String.prefix "S_B_" site_id then
            let tail := last_segment site_id "" in
            if str_isdigit tail then
              n ← int_of_str tail;
              _next_site_seq_from rest (Z.max max_id n)
            else _next_site_seq_from rest max_id
          else _next_site_seq_from rest max_id
      | _ => _next_site_seq_from rest max_id
      end
  end.

Definition _next_site_seq (existing_features : list feature) : option Z :=
  _next_site_seq_from existing_features 0.

(** The property dictionary [p] of a seeded site (lines 176-183). *)
Definition site_properties (seq_no i : nat) (cell_id zone_id : value)
    (is_alt : bool) : gmap string value :=
  list_to_map
    ([ ("site_id", VStr (_new_site_id seq_no));
       ("site_name",
        VStr ("Tier B " +:+ py_str cell_id +:+ " #" +:+ zero_pad 2 (i + 1)));
       ("cell_id", cell_id);
       ("zone_id", zone_id) ]
     ++ DEFAULT_SITE_FIELDS
     ++ [ ("notes", VStr (if is_alt then "ALT" else "")) ]).

(** One turn of [for i in range(total)] (lines 169-191). *)
Definition seed_point (cell_id zone_id : value) (req : Z)
    (pts : list (R * R)) (st : option (list feature * nat)) (i : nat)
  : option (list feature * nat) :=
  '(seeded, seq_no) ← st;
  pt ← pts !! i;
  let is_alt := (req <=? Z.of_nat i)%Z in
  let p := site_properties seq_no i cell_id zone_id is_alt in
  Some (seeded ++ [Feature (Point pt) p], S seq_no).

Record zone_row := ZoneRow {
  tierB_sites_required : Z;
  tierB_alternate_required : Z;
  total : Z;
}.

(** One turn of [for hf in hex_features] (lines 142-191). *)
Definition seed_hex (st : list feature * nat * gmap key zone_row)
    (hf : feature)
  : option (list feature * nat * gmap key zone_row) :=
  let '(seeded, seq_no, by_zone) := st in
  let props := properties hf in
  let geom := geometry_of hf in
  let cell_id :=
    py_or (py_or (get props "cell_id") (get props "id"))
          (get props "hex_id") in
  let zone_id := get props "zone_id" in
  if decide (cell_id = VNone) then None
  else if decide (zone_id = VNone) then None
  else
    req ← py_int (py_or (get_or props "tierB_sites_required" (VInt 0))
                        (VInt 0));
    alt ← py_int (py_or (get_or props "tierB_alternate_required" (VInt 0))
                        (VInt 0));
    let total_sites := (req + alt)%Z in
    let z := default (ZoneRow 0 0 0) (by_zone !! key_of zone_id) in
    let by_zone :=
      <[key_of zone_id :=
          ZoneRow (tierB_sites_required z + req)
                  (tierB_alternate_required z + alt)
                  (total z + total_sites)]> by_zone in
    if (total_sites =? 0)%Z then Some (seeded, seq_no, by_zone)
    else
      '(lon0, lat0) ← _get_centroid geom;
      let pts := _candidate_points lon0 lat0 total_sites in
      '(seeded, seq_no) ←
        foldl (seed_point cell_id zone_id req pts) (Some (seeded, seq_no))
              (seq 0 (Z.to_nat total_sites));
      Some (seeded, seq_no, by_zone).

Fixpoint seed_hexes (hex_features : list feature)
    (st : list feature * nat * gmap key zone_row)
  : option (list feature * nat * gmap key zone_row) :=
  match hex_features with
  | [] => Some st
  | hf :: rest => st ← seed_hex st hf; seed_hexes rest st
  end.

(** What a run writes: the features of [sites.geojson], the list [seeded]
    among them, and the requirement rows by zone. *)
Record outcome := Outcome {
  out_sites : list feature;
  out_seeded : list feature;
  out_by_zone : gmap key zone_row;
}.

(** [main], with the module constant [REPLACE_SITES_FILE] as an argument. *)
Definition main_with (replace_sites_file : bool)
    (hex_features existing_features : list feature) : option outcome :=
  match hex_features with
  | [] => None
  | _ =>
      let kept_features :=
        if negb replace_sites_file then existing_features else [] in
      seq_no ← match kept_features with
               | [] => Some 1%Z
               | _ => _next_site_seq kept_features
               end;
      '(seeded, _, by_zone) ←
        seed_hexes hex_features ([], Z.to_nat seq_no, ∅);
      Some (Outcome (kept_features ++ seeded) seeded by_zone)
  end.

Definition main (hex_features existing_features : list feature)
  : option outcome :=
  main_with REPLACE_SITES_FILE hex_features existing_features.

End Seeding.

End SeedTierB.

(** * Sample inputs

    Concrete cells, sites and lines on which the properties below are
    instantiated. *)

Module Samples.

(** A property dictionary holding the four suitability flags only. *)
Definition flags (elev tall clutter los : Z) : gmap string value :=
  list_to_map
    [ ("elev_adv_avail", VInt elev);
      ("tall_struct_avail", VInt tall);
      ("clutter_high", VInt clutter);
      ("backbone_los_likely", VInt los) ].

(** A cell of the western zone edited by hand: two flags blanked (one with
    the empty string, one with null), one weight blanked with the empty
    string and the other with null, and an explicit 0 and 0.0 nowhere. *)
Definition hand_edited_cell : gmap string value :=
  list_to_map
    [ ("cell_id", VStr "H_000007");
      ("zone_id", VStr "Z_WEST_HIGH_RELIEF");
      ("elev_adv_avail", VStr "");
      ("tall_struct_avail", VInt 0);
      ("clutter_high", VInt 0);
      ("backbone_los_likely", VNone);
      ("pop_weight", VStr "");
      ("critical_weight", VNone) ].

(** The first cell of the tessellation: the south-west corner of the
    bounding box, row 0. *)
Definition first_cell : MakeHexCells.feature :=
  MakeHexCells.Feature
    (MakeHexCells.hex_polygon (-125 + 0) 24 MakeHexCells.HEX_RADIUS_MI)
    (MakeHexCells.cell_properties 1).

(** Four hex cells with vertices named by numbers: H1 shares vertex 3 with
    H2 and vertex 1 with H3; H9 touches none of them. *)
Definition hex (cell_id : string) (ring : list nat)
  : ApplyTierACoverage.hex_feature nat :=
  ApplyTierACoverage.HexFeature
    (ApplyTierACoverage.Polygon [ring])
    (list_to_map [("cell_id", VStr cell_id)]).

Definition hexes : list (ApplyTierACoverage.hex_feature nat) :=
  [ hex "H1" [1; 2; 3; 1]%nat; hex "H2" [3; 4; 5; 3]%nat;
    hex "H3" [1; 9; 8; 1]%nat; hex "H9" [20; 21; 22; 20]%nat ].

Definition hexes_neighbor_map : gmap key (gset key) :=
  default ∅ (ApplyTierACoverage.build_neighbor_map hexes).

(** Site features of the central zone, with no geometry of interest. *)
Definition site (site_id tier status notes cell_id : string)
    (corridor_id : value) : ApplyTierACoverage.site_feature unit :=
  ApplyTierACoverage.SiteFeature tt
    (list_to_map
       [ ("site_id", VStr site_id); ("tier", VStr tier);
         ("status", VStr status); ("notes", VStr notes);
         ("cell_id", VStr cell_id); ("zone_id", VStr "Z_CENTRAL_LOW_RELIEF");
         ("corridor_id", corridor_id) ]).

Definition tiera_h1 : ApplyTierACoverage.site_feature unit :=
  site "S_A_0001" "A" "CANDIDATE" "" "H1" (VStr "C_I80").

Definition tierb_h1 : ApplyTierACoverage.site_feature unit :=
  site "S_B_0001" "B" "CANDIDATE" "" "H1" VNone.

Definition tierb_h3 : ApplyTierACoverage.site_feature unit :=
  site "S_B_0002" "B" "CANDIDATE" "" "H3" VNone.

Definition tierb_h9 : ApplyTierACoverage.site_feature unit :=
  site "S_B_0003" "B" "CANDIDATE" "" "H9" VNone.

Definition tierb_alt : ApplyTierACoverage.site_feature unit :=
  site "S_B_0004" "B" "CANDIDATE" "ALT" "H1" VNone.

(** One Tier-A site in H1; required Tier-B candidates in H1, in its neighbor
    H3 and in the far cell H9; an alternate Tier-B candidate in H1. *)
Definition sites : list (ApplyTierACoverage.site_feature unit) :=
  [tiera_h1; tierb_h1; tierb_h3; tierb_h9; tierb_alt].

(** What the coverage pass leaves of [sites] over [hexes], walking each
    coverage set in the order of [elements]. *)
Definition covered : ApplyTierACoverage.outcome unit :=
  default (ApplyTierACoverage.Outcome [] ∅ 0 0 ∅)
          (ApplyTierACoverage.main elements hexes sites).

(** Three Tier-A sites: the first in the far cell H9, the next two in the
    cells H2 and H3, which both touch H1. *)
Definition tiera_h9 : ApplyTierACoverage.site_feature unit :=
  site "S_A_0001" "A" "CANDIDATE" "" "H9" (VStr "C_I10").

Definition tiera_h2 : ApplyTierACoverage.site_feature unit :=
  site "S_A_0002" "A" "CANDIDATE" "" "H2" (VStr "C_I80").

Definition tiera_h3 : ApplyTierACoverage.site_feature unit :=
  site "S_A_0003" "A" "CANDIDATE" "" "H3" (VStr "C_I90").

(** A required candidate and an alternate in H1, within the coverage sets
    of the second and of the third Tier-A site. *)
Definition contested_sites : list (ApplyTierACoverage.site_feature unit) :=
  [tiera_h9; tiera_h2; tiera_h3; tierb_h1; tierb_alt].

(** Two sites of what should be one zone, the zone id once written as the
    string 7 and once as the number 7. *)
Definition mixed_zone_sites : list (ApplyTierACoverage.site_feature unit) :=
  [ ApplyTierACoverage.SiteFeature tt
      (list_to_map [("tier", VStr "A"); ("zone_id", VStr "7")]);
    ApplyTierACoverage.SiteFeature tt
      (list_to_map [("tier", VStr "B"); ("zone_id", VInt 7)]) ].

Local Open Scope R_scope.

(** A line of two vertices on the meridian of Greenwich, 10/69 degrees of
    latitude long: 10 miles. *)
Definition meridian_start : R * R := (0, 0).

Definition meridian_end : R * R := (0, 10 / 69).

Definition meridian_line : list (R * R) := [meridian_start; meridian_end].

(** A closed square ring around the origin. *)
Definition square : list (R * R) :=
  [(-1, -1); (1, -1); (1, 1); (-1, 1); (-1, -1)].

(** A scored cell over the square, with its Tier-B requirements. *)
Definition scored_hex (cell_id : string) (req alt : Z) : Geo.feature :=
  Geo.Feature (Geo.Polygon [square])
    (list_to_map
       [ ("cell_id", VStr cell_id); ("zone_id", VStr "Z_CENTRAL_LOW_RELIEF");
         ("tierB_sites_required", VInt req);
         ("tierB_alternate_required", VInt alt) ]).

Definition scored_hexes : list Geo.feature :=
  [scored_hex "H1" 1 1; scored_hex "H2" 1 0].

(** Sites found in [sites.geojson] before a seeding run. *)
Definition old_site : Geo.feature :=
  Geo.Feature (Geo.Point (0, 0))
    (list_to_map [("site_id", VStr "S_A_0007"); ("tier", VStr "A")]).

Definition kept_site : Geo.feature :=
  Geo.Feature (Geo.Point (0, 0))
    (list_to_map [("site_id", VStr "S_B_0001"); ("tier", VStr "B")]).

(** What Tier-B seeding writes for [scored_hexes] when [old_site] is in the
    sites file. *)
Definition tierb_seeded : SeedTierB.outcome :=
  default (SeedTierB.Outcome [] [] ∅)
          (SeedTierB.main (H := no_text) scored_hexes [old_site]).

(** A corridor of a single vertex that asks for one Tier-A site. *)
Definition corridor (corridor_id : string) (at_point : R * R) : Geo.feature :=
  Geo.Feature (Geo.LineString [at_point])
    (list_to_map
       [ ("corridor_id", VStr corridor_id);
         ("tierA_target_sites_min", VInt 1);
         ("tierA_target_sites_max", VInt 1) ]).

(** Three corridors: the second one lies outside the square. *)
Definition corridors : list Geo.feature :=
  [corridor "C1" (0, 0); corridor "C2" (5, 5); corridor "C3" (0, 0)].

Definition tiera_site (seq_no : nat) (corridor_id : string) : Geo.feature :=
  Geo.Feature (Geo.Point (0, 0))
    (SeedTierA.site_properties (H := no_text) seq_no 0 "H1"
       "Z_CENTRAL_LOW_RELIEF" (VStr corridor_id) false).

(** What Tier-A seeding writes for [corridors] over the cell H1 when
    [old_site] and [kept_site] are in the sites file. *)
Definition tiera_seeded : SeedTierA.outcome :=
  SeedTierA.Outcome
    [kept_site; tiera_site 1 "C1"; tiera_site 2 "C3"]
    [tiera_site 1 "C1"; tiera_site 2 "C3"]
    (<["C3" := SeedTierA.RollupRow 1 0 1]>
       (<["C2" := SeedTierA.RollupRow 1 0 1]>
          (<["C1" := SeedTierA.RollupRow 1 0 1]> ∅))).

(** The first cell of the tessellation once a zone assignment has put it in
    the eastern zone. *)
Definition zoned_cell : gmap string value :=
  <["zone_id" := VStr "Z_EAST_RIDGE_METRO"]> (MakeHexCells.cell_properties 1).

(** Another order in which to walk a set. *)
Definition reverse_order (s : gset key) : list key := reverse (elements s).

(** What Tier-B seeding writes for [scored_hexes] in the mode that keeps the
    sites file, when [old_site] is in it. *)
Definition tierb_appended : SeedTierB.outcome :=
  default (SeedTierB.Outcome [] [] ∅)
          (SeedTierB.main_with (H := no_text) false scored_hexes [old_site]).

Definition square_centroid : R * R :=
  default (0, 0) (SeedTierB._get_centroid (Geo.Polygon [square])).

(** What Tier-B seeding writes for [scored_hexes] in the mode that keeps the
    sites file, when [old_site] and [kept_site] are in it and site ids are
    read with decimal digits. *)
Definition tierb_renumbered : SeedTierB.outcome :=
  default (SeedTierB.Outcome [] [] ∅)
          (SeedTierB.main_with (H := decimal_text) false scored_hexes
             [old_site; kept_site]).

(** A closed square ring away from the origin, and a hex index that lists
    the cell over it before the cell over [square]. *)
Definition far_square : list (R * R) :=
  [(9, 9); (11, 9); (11, 11); (9, 11); (9, 9)].

Definition two_cell_index : list (string * string * list (list (R * R))) :=
  [ ("H_FAR", "Z_WEST_HIGH_RELIEF", [far_square]);
    ("H1", "Z_CENTRAL_LOW_RELIEF", [square]) ].

End Samples.

(** * Properties of the scoring tool *)

Section ScoringFacts.
Import ScaffoldAndScore.
Context {text : PyText}.

Lemma clamp_max_min (x : Z) : clamp x 0 100 = Z.max 0 (Z.min 100 x).
Proof. unfold clamp. repeat case_match; lia. Qed.

Lemma confidence_class_cases (score : Z) :
  (confidence_class score = "HIGH" ↔ (70 ≤ score)%Z)
  ∧ (confidence_class score = "MED" ↔ (40 ≤ score < 70)%Z)
  ∧ (confidence_class score = "LOW" ↔ (score < 40)%Z).
Proof.
  unfold confidence_class.
  destruct (Z.leb_spec 70 score); [|destruct (Z.leb_spec 40 score)];
    repeat split; intros; try done; try lia.
Qed.

Lemma compute_confidence_score_eq (p : gmap string value)
    (elev tall clutter los : Z) :
  py_int (get_or p "elev_adv_avail" (VInt 0)) = Some elev →
  py_int (get_or p "tall_struct_avail" (VInt 0)) = Some tall →
  py_int (get_or p "clutter_high" (VInt 0)) = Some clutter →
  py_int (get_or p "backbone_los_likely" (VInt 0)) = Some los →
  compute_confidence_score p
  = Some (clamp (25 * los + 20 * elev + 20 * tall + 15 * (1 - clutter)) 0 100).
Proof.
  intros He Ht Hc Hl. unfold compute_confidence_score.
  rewrite He, Ht, Hc, Hl. simpl. do 2 f_equal.
Qed.

(** C3. The confidence score of a cell whose four flags read as the integers
    [los], [elev], [tall] and [clutter] is 25·los + 20·elev + 20·tall +
    15·(1 − clutter) clamped to [0,100]; with 0/1 flags it is at most 80,
    the flags (elev 1, tall 1, clutter 0, los 1) score exactly 80 and the
    flags (elev 0, tall 0, clutter 1, los 0) exactly 0; the class is HIGH
    iff the score is at least 70, MED iff it is at least 40 and below 70,
    and LOW otherwise. *)
Theorem confidence_score_and_class (p : gmap string value)
    (elev tall clutter los : Z) :
  py_int (get_or p "elev_adv_avail" (VInt 0)) = Some elev →
  py_int (get_or p "tall_struct_avail" (VInt 0)) = Some tall →
  py_int (get_or p "clutter_high" (VInt 0)) = Some clutter →
  py_int (get_or p "backbone_los_likely" (VInt 0)) = Some los →
  compute_confidence_score p
  = Some (Z.max 0 (Z.min 100
            (25 * los + 20 * elev + 20 * tall + 15 * (1 - clutter))))
  ∧ ((0 ≤ elev ≤ 1)%Z → (0 ≤ tall ≤ 1)%Z → (0 ≤ clutter ≤ 1)%Z →
     (0 ≤ los ≤ 1)%Z →
     ∃ score, compute_confidence_score p = Some score ∧ (0 ≤ score ≤ 80)%Z)
  ∧ compute_confidence_score (Samples.flags 1 1 0 1) = Some 80%Z
  ∧ compute_confidence_score (Samples.flags 0 0 1 0) = Some 0%Z
  ∧ ∀ score,
      (confidence_class score = "HIGH" ↔ (70 ≤ score)%Z)
      ∧ (confidence_class score = "MED" ↔ (40 ≤ score < 70)%Z)
      ∧ (confidence_class score = "LOW" ↔ (score < 40)%Z).
Proof.
  intros He Ht Hc Hl.
  pose proof (compute_confidence_score_eq p elev tall clutter los He Ht Hc Hl)
    as Hs.
  rewrite clamp_max_min in Hs.
  split; [exact Hs|]. split.
  - intros. eexists. split; [exact Hs|]. lia.
  - split; [reflexivity|]. split; [reflexivity|].
    intros score. apply confidence_class_cases.
Qed.

End ScoringFacts.

(** The theorem at the cell with flags (elev 1, tall 0, clutter 1, los 1):
    its score is 25 + 20 = 45. *)
Lemma confidence_score_and_class_witness :
  @ScaffoldAndScore.compute_confidence_score no_text (Samples.flags 1 0 1 1)
  = Some 45%Z.
Proof.
  exact (proj1 (@confidence_score_and_class no_text (Samples.flags 1 0 1 1)
                  1 0 1 1 eq_refl eq_refl eq_refl eq_refl)).
Defined.

(** ** The scaffolding step *)

Section ScaffoldFacts.
Import ScaffoldAndScore.

Lemma foldl_scaffold_key_None unset defaults (ks : list string) :
  foldl (scaffold_key unset defaults) None ks = None.
Proof. induction ks as [|k ks IH]; [done|]. simpl. exact IH. Qed.

Lemma scaffold_key_lookup unset defaults (p p' : gmap string value)
    (n n' : nat) (k : string) :
  scaffold_key unset defaults (Some (p, n)) k = Some (p', n') →
  ∀ k', p' !! k' =
        if decide (k' = k)
        then (if unset p k then defaults !! k else p !! k)
        else p !! k'.
Proof.
  unfold scaffold_key. simpl. intros Hk k'.
  destruct (unset p k) eqn:Hu.
  - destruct (defaults !! k) as [d|] eqn:Hd; [|done]. simpl in Hk.
    injection Hk as <- <-. destruct (decide (k' = k)) as [->|Hne].
    + by rewrite lookup_insert_eq.
    + by rewrite lookup_insert_ne.
  - injection Hk as <- <-. by destruct (decide (k' = k)) as [->|Hne].
Qed.

(** A loop of the scaffolding step over distinct keys, with a test that
    reads only the key it is asked about. *)
Lemma scaffold_keys_lookup unset defaults (ks : list string) :
  (∀ (p q : gmap string value) k, p !! k = q !! k → unset p k = unset q k) →
  NoDup ks →
  ∀ (p p' : gmap string value) (n n' : nat),
    foldl (scaffold_key unset defaults) (Some (p, n)) ks = Some (p', n') →
    ∀ k, p' !! k =
         if bool_decide (k ∈ ks) && unset p k then defaults !! k else p !! k.
Proof.
  intros Hlocal. induction ks as [|k0 ks IH]; intros Hnd p p' n n' Hf k.
  - simpl in Hf. by injection Hf as <- <-.
  - apply NoDup_cons in Hnd as [Hk0 Hnd]. cbn [foldl] in Hf.
    destruct (scaffold_key unset defaults (Some (p, n)) k0)
      as [[p1 n1]|] eqn:H1;
      [|by rewrite foldl_scaffold_key_None in Hf].
    pose proof (scaffold_key_lookup _ _ _ _ _ _ _ H1) as Hp1.
    rewrite (IH Hnd _ _ _ _ Hf k), (Hp1 k).
    destruct (decide (k = k0)) as [->|Hne].
    + rewrite (bool_decide_eq_false_2 (k0 ∈ ks)) by done.
      rewrite (bool_decide_eq_true_2 (k0 ∈ k0 :: ks)) by constructor.
      simpl. by destruct (unset p k0).
    + rewrite (Hlocal p1 p k) by (rewrite (Hp1 k); by destruct (decide _)).
      destruct (decide (k ∈ ks)) as [Hin|Hnin].
      * rewrite !bool_decide_eq_true_2 by set_solver. done.
      * rewrite !bool_decide_eq_false_2 by set_solver. done.
Qed.

Lemma flag_unset_local (p q : gmap string value) (k : string) :
  p !! k = q !! k → flag_unset p k = flag_unset q k.
Proof. unfold flag_unset. by intros ->. Qed.

Lemma weight_unset_local (p q : gmap string value) (k : string) :
  p !! k = q !! k → weight_unset p k = weight_unset q k.
Proof. unfold weight_unset. by intros ->. Qed.

(** What the scaffolding step leaves under every key: the zone default where
    the key is a flag that was missing, null or the empty string, or a
    weight that was missing or null; the value it found everywhere else. *)
Lemma scaffold_lookup defaults (p p' : gmap string value) (n n' : nat) :
  scaffold defaults (p, n) = Some (p', n') →
  ∀ k, p' !! k =
       if bool_decide (k ∈ flag_keys) && flag_unset p k then defaults !! k
       else if bool_decide (k ∈ weight_keys) && weight_unset p k
            then defaults !! k
            else p !! k.
Proof.
  unfold scaffold. intros Hs k.
  destruct (foldl (scaffold_key flag_unset defaults) (Some (p, n)) flag_keys)
    as [[p1 n1]|] eqn:H1;
    [|by rewrite foldl_scaffold_key_None in Hs].
  assert (NoDup flag_keys) as Hnd1
    by (apply (bool_decide_unpack (NoDup flag_keys)); done).
  assert (NoDup weight_keys) as Hnd2
    by (apply (bool_decide_unpack (NoDup weight_keys)); done).
  pose proof (scaffold_keys_lookup _ _ _ flag_unset_local Hnd1 _ _ _ _ H1)
    as Hp1.
  rewrite (scaffold_keys_lookup _ _ _ weight_unset_local Hnd2 _ _ _ _ Hs k).
  destruct (decide (k ∈ weight_keys)) as [Hw|Hw].
  - assert (k ∉ flag_keys) as Hf.
    { unfold weight_keys, flag_keys in *. set_solver. }
    assert (p1 !! k = p !! k) as Hk.
    { rewrite (Hp1 k), (bool_decide_eq_false_2 (k ∈ flag_keys)) by done.
      done. }
    rewrite (weight_unset_local p1 p k Hk), Hk.
    rewrite (bool_decide_eq_false_2 (k ∈ flag_keys)) by done. done.
  - rewrite (bool_decide_eq_false_2 (k ∈ weight_keys)) by done. simpl.
    rewrite (Hp1 k). destruct (_ && _); done.
Qed.

(** The defaults of a zone hold all six keys, whatever the zone. *)
Lemma zone_defaults_complete (zid : value) (k : string) :
  k ∈ flag_keys ++ weight_keys → is_Some (zone_defaults zid !! k).
Proof.
  intros Hk. unfold zone_defaults.
  assert (∀ e t c l pw cw, is_Some (defaults_row e t c l pw cw !! k)) as Hrow.
  { intros. unfold flag_keys, weight_keys in Hk. simpl in Hk.
    repeat (apply elem_of_cons in Hk as [->|Hk]; [by eexists|]).
    by apply elem_of_nil in Hk. }
  destruct zid as [| | | |s]; try apply Hrow.
  unfold ZONE_DEFAULTS.
  destruct (decide (s = "Z_WEST_HIGH_RELIEF")) as [->|?]; [apply Hrow|].
  destruct (decide (s = "Z_CENTRAL_LOW_RELIEF")) as [->|?]; [apply Hrow|].
  destruct (decide (s = "Z_EAST_RIDGE_METRO")) as [->|?]; [apply Hrow|].
  destruct (decide (s = "")) as [->|?]; [apply Hrow|].
  assert (list_to_map
            [("Z_WEST_HIGH_RELIEF", defaults_row 1 0 0 1 0.2 0.2);
             ("Z_CENTRAL_LOW_RELIEF", defaults_row 0 1 0 1 0.4 0.3);
             ("Z_EAST_RIDGE_METRO", defaults_row 1 1 1 0 0.6 0.4);
             ("", defaults_row 0 0 0 0 0.0 0.0)] !! s
          = (None : option (gmap string value))) as ->.
  { apply not_elem_of_list_to_map_1. simpl. set_solver. }
  apply Hrow.
Qed.

Lemma scaffold_keys_defined unset defaults (ks : list string) :
  (∀ k, k ∈ ks → is_Some (defaults !! k)) →
  ∀ (p : gmap string value) (n : nat),
    is_Some (foldl (scaffold_key unset defaults) (Some (p, n)) ks).
Proof.
  induction ks as [|k ks IH]; intros Hd p n; [by eexists|].
  simpl. destruct (Hd k) as [d Hk]; [set_solver|].
  destruct (unset p k); simpl; [rewrite Hk; simpl|];
    apply IH; intros; apply Hd; set_solver.
Qed.

(** With the defaults of a zone the scaffolding step never raises. *)
Lemma scaffold_defined (zid : value) (p : gmap string value) (n : nat) :
  is_Some (scaffold (zone_defaults zid) (p, n)).
Proof.
  unfold scaffold.
  destruct (scaffold_keys_defined flag_unset (zone_defaults zid) flag_keys)
    with (p := p) (n := n) as [[p1 n1] ->].
  { intros k Hk. apply zone_defaults_complete. set_solver. }
  apply scaffold_keys_defined.
  intros k Hk. apply zone_defaults_complete. set_solver.
Qed.

(** A field that holds an explicit 0, 0.0 or any other value that is not
    blank comes out of the scaffolding step as it went in. *)
Lemma scaffold_keeps_explicit defaults (p p' : gmap string value)
    (n n' : nat) (k : string) (v : value) :
  scaffold defaults (p, n) = Some (p', n') →
  p !! k = Some v → v ≠ VNone → v ≠ VStr "" → p' !! k = Some v.
Proof.
  intros Hs Hk Hn He. rewrite (scaffold_lookup _ _ _ _ _ Hs k).
  unfold flag_unset, weight_unset. rewrite Hk.
  rewrite (bool_decide_eq_false_2 (v = VNone)) by done.
  rewrite (bool_decide_eq_false_2 (v = VStr "")) by done. simpl.
  by rewrite !andb_false_r.
Qed.

(** C4. The hand-edited western cell: the scaffolding step fills the flag
    that holds the empty string, the flag that holds null and the weight
    that holds null from the zone defaults (three fields), keeps the
    explicit zeros, and leaves the weight that holds the empty string as it
    is, although the zone default for it is 0.2. *)
Theorem scaffold_leaves_empty_string_weight :
  let p' := <["critical_weight" := VFloat 0.2]>
              (<["backbone_los_likely" := VInt 1]>
                 (<["elev_adv_avail" := VInt 1]> Samples.hand_edited_cell)) in
  scaffold (zone_defaults (get_or Samples.hand_edited_cell "zone_id" (VStr "")))
           (Samples.hand_edited_cell, 0)
  = Some (p', 3)
  ∧ p' !! "elev_adv_avail" = Some (VInt 1)
  ∧ p' !! "backbone_los_likely" = Some (VInt 1)
  ∧ p' !! "critical_weight" = Some (VFloat 0.2)
  ∧ p' !! "tall_struct_avail" = Some (VInt 0)
  ∧ p' !! "clutter_high" = Some (VInt 0)
  ∧ p' !! "pop_weight" = Some (VStr "")
  ∧ zone_defaults (VStr "Z_WEST_HIGH_RELIEF") !! "pop_weight"
    = Some (VFloat 0.2).
Proof. cbv zeta. repeat (split; [reflexivity|]). reflexivity. Qed.

End ScaffoldFacts.

(** After the scaffolding step the empty-string weight reaches
    [float(p.get("pop_weight", 0.0))], which raises for every reading of
    strings that rejects the empty one, as Python's does: the run stops
    there and writes nothing. *)
Lemma empty_string_weight_aborts (text : PyText) (n : nat) :
  float_of_str "" = None →
  ScaffoldAndScore.score_properties (Samples.hand_edited_cell, n) = None.
Proof.
  intros Hf. unfold ScaffoldAndScore.score_properties.
  replace (ScaffoldAndScore.scaffold _ _)
    with (Some (<["critical_weight" := VFloat 0.2]>
                  (<["backbone_los_likely" := VInt 1]>
                     (<["elev_adv_avail" := VInt 1]>
                        Samples.hand_edited_cell)), S (S (S n))))
    by reflexivity.
  cbn [mbind option_bind].
  replace (ScaffoldAndScore.compute_confidence_score _) with (Some 60%Z)
    by reflexivity.
  cbn [mbind option_bind ScaffoldAndScore.confidence_class
       ScaffoldAndScore.tierB_requirements Z.leb Z.compare Pos.compare
       Pos.compare_cont String.eqb Ascii.eqb Bool.eqb].
  unfold ScaffoldAndScore.compute_tierC_demand.
  match goal with
  | |- context [py_float ?v] => replace v with (VStr "") by reflexivity
  end.
  unfold py_float. by rewrite Hf.
Qed.

(** * Cells of the tessellator under the scoring tool *)

Section TessellatedCells.
Import ScaffoldAndScore.
Context {text : PyText}.

Lemma row_cells_properties (fuel : nat) (lon lat lon_step lon_max : R)
    (cell_idx : nat) (f : MakeHexCells.feature) :
  f ∈ (MakeHexCells.row_cells fuel lon lat lon_step lon_max cell_idx).1 →
  ∃ i, MakeHexCells.properties f = MakeHexCells.cell_properties i.
Proof.
  revert lon cell_idx.
  induction fuel as [|fuel IH]; intros lon cell_idx; simpl.
  - by intros ?%elem_of_nil.
  - destruct (Rle_dec lon lon_max); [|by intros ?%elem_of_nil].
    destruct (MakeHexCells.row_cells fuel _ lat lon_step lon_max _)
      as [fs idx] eqn:Hrow.
    simpl. intros [->|Hin]%elem_of_cons.
    + by eexists.
    + eapply IH. rewrite Hrow. exact Hin.
Qed.

Lemma grid_cells_properties (fuel : nat) (lat : R) (row cell_idx : nat)
    (f : MakeHexCells.feature) :
  f ∈ MakeHexCells.grid_cells fuel lat row cell_idx →
  ∃ i, MakeHexCells.properties f = MakeHexCells.cell_properties i.
Proof.
  revert lat row cell_idx.
  induction fuel as [|fuel IH]; intros lat row cell_idx.
  - by intros ?%elem_of_nil.
  - cbn [MakeHexCells.grid_cells]. unfold MakeHexCells.BBOX.
    destruct (Rle_dec lat _); [|by intros ?%elem_of_nil].
    destruct (MakeHexCells.row_cells (S fuel) _ lat _ _ cell_idx)
      as [fs idx] eqn:Hrow.
    intros [Hin|Hin]%elem_of_app.
    + eapply row_cells_properties. rewrite Hrow. exact Hin.
    + eapply IH. exact Hin.
Qed.

(** Every feature the tessellator writes carries the property literal of
    [main] for some cell number. *)
Lemma main_properties (fuel : nat) (f : MakeHexCells.feature) :
  f ∈ MakeHexCells.main fuel →
  ∃ i, MakeHexCells.properties f = MakeHexCells.cell_properties i.
Proof. apply grid_cells_properties. Qed.

(** A property dictionary whose four flags hold the integer 0 and whose two
    weights hold the float 0.0. *)
Definition explicit_zeros (p : gmap string value) : Prop :=
  (∀ k, k ∈ flag_keys → p !! k = Some (VInt 0))
  ∧ (∀ k, k ∈ weight_keys → p !! k = Some (VFloat 0)).

Lemma cell_properties_explicit_zeros (i : nat) (zid : value) :
  explicit_zeros (<["zone_id" := zid]> (MakeHexCells.cell_properties i)).
Proof.
  split; intros k Hk; unfold flag_keys, weight_keys in Hk;
    repeat (apply elem_of_cons in Hk as [->|Hk]; [reflexivity|]);
    by apply elem_of_nil in Hk.
Qed.

Lemma scaffold_key_skip unset defaults (p : gmap string value) (n : nat)
    (k : string) :
  unset p k = false →
  scaffold_key unset defaults (Some (p, n)) k = Some (p, n).
Proof. unfold scaffold_key. cbn [mbind option_bind]. by intros ->. Qed.

Lemma scaffold_explicit_zeros defaults (p : gmap string value) (n : nat) :
  explicit_zeros p → scaffold defaults (p, n) = Some (p, n).
Proof.
  intros [Hf Hw].
  assert (∀ k, k ∈ flag_keys → flag_unset p k = false) as Hf'.
  { intros k Hk. unfold flag_unset. by rewrite (Hf k Hk). }
  assert (∀ k, k ∈ weight_keys → weight_unset p k = false) as Hw'.
  { intros k Hk. unfold weight_unset. by rewrite (Hw k Hk). }
  unfold scaffold. unfold flag_keys at 1. cbn [foldl].
  rewrite !scaffold_key_skip by (apply Hf'; unfold flag_keys; set_solver).
  unfold weight_keys at 1. cbn [foldl].
  rewrite !scaffold_key_skip by (apply Hw'; unfold weight_keys; set_solver).
  reflexivity.
Qed.

(** The derived fields the body of the loop writes into a dictionary with
    explicit zeros. *)
Definition scored_zero_cell (p : gmap string value) : gmap string value :=
  <["priority_score" := VInt 9]>
    (<["tierC_demand_class" := VStr "LOW"]>
       (<["tierB_alternate_required" := VInt 1]>
          (<["tierB_sites_required" := VInt 2]>
             (<["confidence_class" := VStr "LOW"]>
                (<["confidence_score" := VInt 15]> p))))).

Lemma score_properties_explicit_zeros (p : gmap string value) (n : nat) :
  explicit_zeros p →
  score_properties (p, n) = Some (scored_zero_cell p, n).
Proof.
  intros Hz. pose proof Hz as [Hf Hw].
  unfold score_properties. cbn [fst].
  rewrite (scaffold_explicit_zeros _ p n Hz). cbn [mbind option_bind].
  assert (compute_confidence_score p = Some 15%Z) as ->.
  { rewrite (compute_confidence_score_eq p 0 0 0 0);
      [reflexivity| | | |]; unfold get_or;
      rewrite Hf by (unfold flag_keys; set_solver); reflexivity. }
  cbn [mbind option_bind].
  change (confidence_class 15) with "LOW".
  change (tierB_requirements "LOW") with (2%Z, 1%Z).
  cbv beta iota.
  set (p4 := <["tierB_alternate_required" := VInt 1]> _).
  assert (p4 !! "pop_weight" = Some (VFloat 0)) as Hpop.
  { unfold p4. rewrite !lookup_insert_ne by done.
    apply Hw. unfold weight_keys. set_solver. }
  assert (p4 !! "clutter_high" = Some (VInt 0)) as Hcl.
  { unfold p4. rewrite !lookup_insert_ne by done.
    apply Hf. unfold flag_keys. set_solver. }
  assert (∀ zid, compute_tierC_demand p4 zid = Some "LOW") as ->.
  { intros zid. unfold compute_tierC_demand, get_or. rewrite Hpop, Hcl.
    cbn [default py_float py_int mbind option_bind Z.eqb].
    by destruct (decide (zid = VStr "Z_EAST_RIDGE_METRO")). }
  cbn [mbind option_bind].
  set (p5 := <["tierC_demand_class" := VStr "LOW"]> p4).
  assert (compute_priority_score p5 = Some 9%Z) as ->.
  { unfold compute_priority_score, get_or, get, p5, p4.
    rewrite !(lookup_insert_ne _ _ "confidence_score") by done.
    rewrite lookup_insert_eq.
    rewrite !(lookup_insert_ne _ _ "pop_weight") by done.
    rewrite !(lookup_insert_ne _ _ "critical_weight") by done.
    rewrite !Hw by (unfold weight_keys; set_solver).
    reflexivity. }
  reflexivity.
Qed.

(** C9. A cell written by the tessellator, with any value put under
    [zone_id] by a zone assignment, holds the integer 0 under each of the
    four flags and the float 0.0 under both weights; the scaffolding step
    with that zone's defaults changes nothing in it and counts no field as
    scaffolded; the body of the scoring loop succeeds on it, leaves the six
    fields as they are, and writes confidence_score 15 and confidence_class
    LOW. *)
Theorem tessellated_cell_is_never_scaffolded (fuel : nat)
    (f : MakeHexCells.feature) (zid : value) (n : nat) :
  f ∈ MakeHexCells.main fuel →
  ∃ p p',
    p = <["zone_id" := zid]> (MakeHexCells.properties f)
    ∧ (∀ k, k ∈ flag_keys → p !! k = Some (VInt 0))
    ∧ (∀ k, k ∈ weight_keys → p !! k = Some (VFloat 0))
    ∧ scaffold (zone_defaults zid) (p, n) = Some (p, n)
    ∧ score_properties (p, n) = Some (p', n)
    ∧ (∀ k, k ∈ flag_keys ++ weight_keys → p' !! k = p !! k)
    ∧ p' !! "confidence_score" = Some (VInt 15)
    ∧ p' !! "confidence_class" = Some (VStr "LOW").
Proof.
  intros [i Hi]%main_properties. rewrite Hi.
  pose proof (cell_properties_explicit_zeros i zid) as Hz.
  eexists _, _. split; [reflexivity|].
  split; [apply Hz|]. split; [apply Hz|].
  split; [by apply scaffold_explicit_zeros|].
  split; [by apply score_properties_explicit_zeros|].
  split; [|split; reflexivity].
  intros k Hk. unfold scored_zero_cell.
  unfold flag_keys, weight_keys in Hk. simpl in Hk.
  repeat (apply elem_of_cons in Hk as [->|Hk]; [reflexivity|]).
  by apply elem_of_nil in Hk.
Qed.

End TessellatedCells.

Lemma first_cell_tessellated : Samples.first_cell ∈ MakeHexCells.main 1.
Proof.
  unfold MakeHexCells.main, MakeHexCells.BBOX.
  cbn [MakeHexCells.grid_cells MakeHexCells.row_cells].
  unfold MakeHexCells.BBOX.
  destruct (Rle_dec 24 49.5) as [_|Hn]; [|exfalso; apply Hn; lra].
  change (Nat.odd 0) with false. cbv iota.
  destruct (Rle_dec (-125 + 0) (-66.5)) as [_|Hn]; [|exfalso; apply Hn; lra].
  apply elem_of_cons. by left.
Qed.

(** The theorem at the first cell of the tessellation, assigned to the
    eastern zone. *)
Lemma tessellated_cell_is_never_scaffolded_witness :
  ∃ p p',
    p = <["zone_id" := VStr "Z_EAST_RIDGE_METRO"]>
          (MakeHexCells.properties Samples.first_cell)
    ∧ (∀ k, k ∈ ScaffoldAndScore.flag_keys → p !! k = Some (VInt 0))
    ∧ (∀ k, k ∈ ScaffoldAndScore.weight_keys → p !! k = Some (VFloat 0))
    ∧ ScaffoldAndScore.scaffold
        (ScaffoldAndScore.zone_defaults (VStr "Z_EAST_RIDGE_METRO")) (p, 0)
      = Some (p, 0)
    ∧ @ScaffoldAndScore.score_properties no_text (p, 0) = Some (p', 0)
    ∧ (∀ k, k ∈ ScaffoldAndScore.flag_keys ++ ScaffoldAndScore.weight_keys →
            p' !! k = p !! k)
    ∧ p' !! "confidence_score" = Some (VInt 15)
    ∧ p' !! "confidence_class" = Some (VStr "LOW").
Proof.
  exact (@tessellated_cell_is_never_scaffolded no_text 1 Samples.first_cell
           (VStr "Z_EAST_RIDGE_METRO") 0 first_cell_tessellated).
Defined.

(** * Properties of the neighbor map *)

Section NeighborMap.
Import ApplyTierACoverage.
Context {V : Type} `{Countable V}.

(** The cells recorded at a vertex: [vertex_to_cells.get(vertex, set())]. *)
Definition cells_at (vertex_to_cells : gmap V (gset key)) (vertex : V)
  : gset key :=
  default ∅ (vertex_to_cells !! vertex).

(** The cells the first loop of [build_neighbor_map] indexes, in order: the
    key and the vertices of each feature that has a [cell_id]. *)
Fixpoint indexed_cells (hex_features : list (hex_feature V))
  : option (list (key * list V)) :=
  match hex_features with
  | [] => Some []
  | feature :: rest =>
      let cell_id := get (hex_properties feature) "cell_id" in
      if truthy cell_id then
        vs ← iter_vertices (hex_geometry feature);
        cs ← indexed_cells rest;
        Some ((key_of cell_id, vs) :: cs)
      else indexed_cells rest
  end.

(** The keys of the features that have a [cell_id], in order. *)
Definition cell_keys (hex_features : list (hex_feature V)) : list key :=
  omap (λ feature,
          let cell_id := get (hex_properties feature) "cell_id" in
          if truthy cell_id then Some (key_of cell_id) else None)
       hex_features.

Lemma indexed_cells_keys (hex_features : list (hex_feature V)) cs :
  indexed_cells hex_features = Some cs → cs.*1 = cell_keys hex_features.
Proof.
  revert cs. induction hex_features as [|f fs IH]; intros cs Hcs.
  - by injection Hcs as <-.
  - simpl in Hcs. unfold cell_keys. cbn [omap list_omap].
    destruct (truthy (get (hex_properties f) "cell_id")).
    + destruct (iter_vertices (hex_geometry f)) as [vs|]; [|done].
      destruct (indexed_cells fs) as [cs'|]; [|done].
      simpl in Hcs. injection Hcs as <-. simpl. f_equal. by apply IH.
    + by apply IH.
Qed.

Lemma indexed_cells_elem (hex_features : list (hex_feature V)) cs f vs :
  indexed_cells hex_features = Some cs →
  f ∈ hex_features →
  truthy (get (hex_properties f) "cell_id") = true →
  iter_vertices (hex_geometry f) = Some vs →
  (key_of (get (hex_properties f) "cell_id"), vs) ∈ cs.
Proof.
  revert cs. induction hex_features as [|f0 fs IH]; intros cs Hcs Hin Ht Hv.
  - by apply elem_of_nil in Hin.
  - simpl in Hcs. apply elem_of_cons in Hin as [->|Hin].
    + rewrite Ht, Hv in Hcs. simpl in Hcs.
      destruct (indexed_cells fs) as [cs'|]; [|done].
      injection Hcs as <-. apply elem_of_cons. by left.
    + destruct (truthy (get (hex_properties f0) "cell_id")).
      * destruct (iter_vertices (hex_geometry f0)) as [vs0|]; [|done].
        destruct (indexed_cells fs) as [cs'|]; [|done].
        simpl in Hcs. injection Hcs as <-. apply elem_of_cons. right.
        by apply IH.
      * by apply IH.
Qed.

Lemma foldl_index_vertex (c : key) (l : list V)
    (m : gmap V (gset key)) (c' : key) (v : V) :
  c' ∈ cells_at (foldl (index_vertex c) m l) v
  ↔ c' ∈ cells_at m v ∨ (c' = c ∧ v ∈ l).
Proof.
  revert m. induction l as [|v0 l IH]; intros m.
  - simpl. split; [by left|]. intros [?|[_ ?%elem_of_nil]]; done.
  - cbn [foldl]. rewrite IH. unfold index_vertex, cells_at.
    destruct (decide (v = v0)) as [->|Hne].
    + rewrite lookup_insert_eq. simpl. set_solver.
    + rewrite lookup_insert_ne by done. set_solver.
Qed.

Lemma elem_of_neighbors_from (vertex_to_cells : gmap V (gset key))
    (l : list V) (acc : gset key) (c : key) :
  c ∈ foldl (λ neighbors vertex, neighbors ∪ cells_at vertex_to_cells vertex)
            acc l
  ↔ c ∈ acc ∨ ∃ v, v ∈ l ∧ c ∈ cells_at vertex_to_cells v.
Proof.
  revert acc. induction l as [|v0 l IH]; intros acc.
  - simpl. split; [by left|]. intros [?|(v & ?%elem_of_nil & _)]; done.
  - cbn [foldl]. rewrite IH. set_solver.
Qed.

(** A cell is among the neighbors computed for a vertex set iff it is
    recorded at one of the vertices. *)
Lemma elem_of_neighbors_of (vertex_to_cells : gmap V (gset key))
    (vertices : gset V) (c : key) :
  c ∈ neighbors_of vertex_to_cells vertices
  ↔ ∃ v, v ∈ vertices ∧ c ∈ cells_at vertex_to_cells v.
Proof.
  unfold neighbors_of.
  etrans;
    [apply (elem_of_neighbors_from vertex_to_cells (elements vertices) ∅ c)|].
  setoid_rewrite elem_of_elements. set_solver.
Qed.

(** What the first loop leaves, from any starting state. *)
Lemma index_features_spec (hex_features : list (hex_feature V))
    (v2c0 v2c : gmap V (gset key)) (cv0 cv : gmap key (gset V)) :
  index_features hex_features (v2c0, cv0) = Some (v2c, cv) →
  ∃ cs,
    indexed_cells hex_features = Some cs
    ∧ (∀ c v, c ∈ cells_at v2c v
              ↔ c ∈ cells_at v2c0 v ∨ ∃ vs, (c, vs) ∈ cs ∧ v ∈ vs)
    ∧ (∀ c, c ∉ cs.*1 → cv !! c = cv0 !! c)
    ∧ (∀ c S, cv !! c = Some S →
              cv0 !! c = Some S ∨ ∃ vs, (c, vs) ∈ cs ∧ S = list_to_set vs)
    ∧ (NoDup cs.*1 →
       ∀ c vs, (c, vs) ∈ cs → cv !! c = Some (list_to_set vs)).
Proof.
  revert v2c0 cv0.
  induction hex_features as [|f fs IH]; intros v2c0 cv0 Hidx.
  - injection Hidx as <- <-. exists []. split; [done|].
    split; [set_solver|]. split; [done|]. split; [by left|].
    by intros _ c vs ?%elem_of_nil.
  - cbn [index_features] in Hidx. unfold index_feature in Hidx.
    cbn [indexed_cells].
    destruct (truthy (get (hex_properties f) "cell_id")); [|by apply IH].
    destruct (iter_vertices (hex_geometry f)) as [vs0|]; [|done].
    cbn [mbind option_bind] in Hidx.
    set (c0 := key_of (get (hex_properties f) "cell_id")) in *.
    destruct (IH _ _ Hidx) as (cs & -> & Hv & Hkeep & Hcv & Hnd).
    exists ((c0, vs0) :: cs). split; [done|].
    split; [|split; [|split]].
    + intros c v. rewrite Hv, foldl_index_vertex.
      rewrite elem_of_elements, elem_of_list_to_set.
      split.
      * intros [[?|[-> ?]]|(vs & ? & ?)]; [by left| |].
        -- right. exists vs0. split; [by left|done].
        -- right. exists vs. split; [by right|done].
      * intros [?|(vs & [Heq|?]%elem_of_cons & ?)]; [by left; left| |].
        -- injection Heq as -> ->. left. by right.
        -- right. by exists vs.
    + intros c Hc. rewrite fmap_cons, not_elem_of_cons in Hc.
      destruct Hc as [Hc0 Hc]. rewrite (Hkeep c Hc).
      by rewrite lookup_insert_ne.
    + intros c S HS. destruct (Hcv c S HS) as [H0|(vs & ? & ->)].
      * destruct (decide (c = c0)) as [->|Hne].
        -- rewrite lookup_insert_eq in H0. injection H0 as <-.
           right. exists vs0. split; [by left|done].
        -- rewrite lookup_insert_ne in H0 by done. by left.
      * right. exists vs. split; [by right|done].
    + rewrite fmap_cons. intros [Hc0 Hnd']%NoDup_cons c vs.
      intros [Heq|Hin]%elem_of_cons.
      * injection Heq as -> ->. rewrite (Hkeep c0 Hc0).
        apply lookup_insert_eq.
      * by apply Hnd.
Qed.

(** ** Vertex sharing, in the words of the specification

    [v] is a vertex of the cell: a coordinate of one of the boundary rings
    of its geometry.  This reads the rings of the geometry and not the
    tool's walk over them. *)
Definition ring_vertex (g : geometry V) (v : V) : Prop :=
  match g with
  | Polygon rings => ∃ ring, ring ∈ rings ∧ v ∈ ring
  | MultiPolygon polygons =>
      ∃ polygon ring, polygon ∈ polygons ∧ ring ∈ polygon ∧ v ∈ ring
  | OtherGeometry => False
  end.

(** The tool's walk yields the ring vertices, and nothing else. *)
Lemma iter_vertices_ring_vertex (g : geometry V) (v : V) :
  ring_vertex g v ↔ ∃ vs, iter_vertices g = Some vs ∧ v ∈ vs.
Proof.
  destruct g as [rings|polygons|]; cbn [ring_vertex iter_vertices].
  - split.
    + intros (ring & Hring & Hv). eexists. split; [done|].
      apply list_elem_of_In, in_concat. exists ring.
      split; by apply list_elem_of_In.
    + intros (vs & [= <-] & Hv).
      apply list_elem_of_In, in_concat in Hv as (ring & Hring & Hv).
      exists ring. split; by apply list_elem_of_In.
  - split.
    + intros (polygon & ring & Hp & Hring & Hv). eexists. split; [done|].
      apply list_elem_of_In, in_concat. exists ring.
      split; [|by apply list_elem_of_In].
      apply in_concat. exists polygon. split; by apply list_elem_of_In.
    + intros (vs & [= <-] & Hv).
      apply list_elem_of_In, in_concat in Hv as (ring & Hring & Hv).
      apply in_concat in Hring as (polygon & Hp & Hring).
      exists polygon, ring. repeat split; by apply list_elem_of_In.
  - split; [done|]. by intros (vs & ? & _).
Qed.

(** Two indexed cells whose rings share a vertex: the second is among the
    neighbors of the first. *)
Lemma shared_vertex_neighbors (hex_features : list (hex_feature V))
    (neighbor_map : gmap key (gset key)) (fA fB : hex_feature V) (v : V) :
  build_neighbor_map hex_features = Some neighbor_map →
  NoDup (cell_keys hex_features) →
  fA ∈ hex_features → fB ∈ hex_features →
  truthy (get (hex_properties fA) "cell_id") = true →
  truthy (get (hex_properties fB) "cell_id") = true →
  ring_vertex (hex_geometry fA) v →
  ring_vertex (hex_geometry fB) v →
  ∃ nsA,
    neighbor_map !! key_of (get (hex_properties fA) "cell_id") = Some nsA
    ∧ key_of (get (hex_properties fB) "cell_id") ∈ nsA.
Proof.
  unfold build_neighbor_map. intros Hb Hnd HfA HfB HtA HtB HvA HvB.
  destruct (index_features hex_features (∅, ∅)) as [[v2c cv]|] eqn:Hidx;
    [|done].
  injection Hb as <-.
  destruct (index_features_spec _ _ _ _ _ Hidx)
    as (cs & Hcs & Hv & _ & _ & Hndcs).
  rewrite <- (indexed_cells_keys _ _ Hcs) in Hnd.
  specialize (Hndcs Hnd).
  apply iter_vertices_ring_vertex in HvA as (vsA & HvsA & HinA).
  apply iter_vertices_ring_vertex in HvB as (vsB & HvsB & HinB).
  pose proof (indexed_cells_elem _ _ _ _ Hcs HfA HtA HvsA) as HA.
  pose proof (indexed_cells_elem _ _ _ _ Hcs HfB HtB HvsB) as HB.
  exists (neighbors_of v2c (list_to_set vsA)). split.
  - by rewrite lookup_fmap, (Hndcs _ vsA HA).
  - apply elem_of_neighbors_of. exists v.
    split; [by apply elem_of_list_to_set|].
    apply Hv. right. by exists vsB.
Qed.

(** C6. For hex cells with distinct [cell_id]s, the neighbor map is
    symmetric: if B is in A's neighbor set then B has a neighbor set and A
    is in it; it is reflexive: every cell with at least one vertex on its
    rings has a neighbor set and is a member of it; and it is not empty
    where cells touch: a cell whose rings share a vertex with the rings of
    a cell A is in A's neighbor set. *)
Theorem neighbor_map_symmetric_reflexive
    (hex_features : list (hex_feature V))
    (neighbor_map : gmap key (gset key)) :
  build_neighbor_map hex_features = Some neighbor_map →
  NoDup (cell_keys hex_features) →
  (∀ A B nsA,
     neighbor_map !! A = Some nsA → B ∈ nsA →
     ∃ nsB, neighbor_map !! B = Some nsB ∧ A ∈ nsB)
  ∧ (∀ feature v,
       feature ∈ hex_features →
       truthy (get (hex_properties feature) "cell_id") = true →
       ring_vertex (hex_geometry feature) v →
       ∃ ns,
         neighbor_map !! key_of (get (hex_properties feature) "cell_id")
         = Some ns
         ∧ key_of (get (hex_properties feature) "cell_id") ∈ ns)
  ∧ (∀ fA fB v,
       fA ∈ hex_features → fB ∈ hex_features →
       truthy (get (hex_properties fA) "cell_id") = true →
       truthy (get (hex_properties fB) "cell_id") = true →
       ring_vertex (hex_geometry fA) v →
       ring_vertex (hex_geometry fB) v →
       ∃ nsA,
         neighbor_map !! key_of (get (hex_properties fA) "cell_id")
         = Some nsA
         ∧ key_of (get (hex_properties fB) "cell_id") ∈ nsA).
Proof.
  intros Hb Hnd. split; [|split].
  - unfold build_neighbor_map in Hb.
    destruct (index_features hex_features (∅, ∅)) as [[v2c cv]|] eqn:Hidx;
      [|done].
    injection Hb as <-.
    destruct (index_features_spec _ _ _ _ _ Hidx)
      as (cs & Hcs & Hv & _ & Hcv & Hndcs).
    rewrite <- (indexed_cells_keys _ _ Hcs) in Hnd.
    specialize (Hndcs Hnd).
    assert (∀ c v, c ∈ cells_at v2c v ↔ ∃ vs, (c, vs) ∈ cs ∧ v ∈ vs) as Hv'.
    { intros c v. rewrite Hv.
      assert (cells_at (∅ : gmap V (gset key)) v = ∅) as ->
        by (unfold cells_at; by rewrite lookup_empty).
      set_solver. }
    intros A B nsA HA HB. rewrite lookup_fmap in HA.
    destruct (cv !! A) as [SA|] eqn:HcvA; [|done].
    injection HA as <-.
    apply elem_of_neighbors_of in HB as (v & HvA & HBv).
    destruct (Hcv A SA HcvA) as [H0|(vsA & HinA & ->)];
      [by rewrite lookup_empty in H0|].
    apply elem_of_list_to_set in HvA.
    apply Hv' in HBv as (vsB & HinB & HvB).
    exists (neighbors_of v2c (list_to_set vsB)). split.
    + by rewrite lookup_fmap, (Hndcs B vsB HinB).
    + apply elem_of_neighbors_of. exists v. split.
      * by apply elem_of_list_to_set.
      * apply Hv'. by exists vsA.
  - intros f v Hf Ht Hv.
    by apply (shared_vertex_neighbors hex_features neighbor_map f f v).
  - intros fA fB v HfA HfB HtA HtB HvA HvB.
    by apply (shared_vertex_neighbors hex_features neighbor_map fA fB v).
Qed.

End NeighborMap.

(** The theorem at the four sample cells: H1 has vertex 1 and is its own
    neighbor; H1 and H2 share vertex 3, so H2 is a neighbor of H1 and, by
    symmetry, H1 one of H2. *)
Lemma neighbor_map_symmetric_reflexive_witness :
  ∃ ns1 ns2,
    Samples.hexes_neighbor_map !! KStr "H1" = Some ns1
    ∧ KStr "H1" ∈ ns1
    ∧ KStr "H2" ∈ ns1
    ∧ Samples.hexes_neighbor_map !! KStr "H2" = Some ns2
    ∧ KStr "H1" ∈ ns2.
Proof.
  destruct (neighbor_map_symmetric_reflexive Samples.hexes
              Samples.hexes_neighbor_map) as (Hsym & Hrefl & Hshare).
  - reflexivity.
  - apply (bool_decide_unpack (NoDup (cell_keys Samples.hexes))).
    vm_compute. exact I.
  - assert (Samples.hex "H1" [1; 2; 3; 1]%nat ∈ Samples.hexes) as H1
      by (apply elem_of_cons; by left).
    assert (Samples.hex "H2" [3; 4; 5; 3]%nat ∈ Samples.hexes) as H2
      by (apply elem_of_cons; right; apply elem_of_cons; by left).
    destruct (Hrefl (Samples.hex "H1" [1; 2; 3; 1]%nat) 1%nat H1 eq_refl)
      as (ns1 & Hns1 & Hself).
    { exists [1; 2; 3; 1]%nat. split; apply elem_of_cons; by left. }
    destruct (Hshare (Samples.hex "H1" [1; 2; 3; 1]%nat)
                (Samples.hex "H2" [3; 4; 5; 3]%nat) 3%nat
                H1 H2 eq_refl eq_refl)
      as (ns1' & Hns1' & Hnb).
    { exists [1; 2; 3; 1]%nat. split; [apply elem_of_cons; by left|].
      do 2 (apply elem_of_cons; right). apply elem_of_cons. by left. }
    { exists [3; 4; 5; 3]%nat. split; apply elem_of_cons; by left. }
    change (Samples.hexes_neighbor_map !! KStr "H1" = Some ns1) in Hns1.
    change (Samples.hexes_neighbor_map !! KStr "H1" = Some ns1') in Hns1'.
    change (KStr "H1" ∈ ns1) in Hself.
    change (KStr "H2" ∈ ns1') in Hnb.
    assert (ns1' = ns1) as -> by congruence.
    destruct (Hsym (KStr "H1") (KStr "H2") ns1 Hns1 Hnb)
      as (ns2 & Hns2 & Hback).
    exists ns1, ns2. done.
Defined.

(** * Properties of the coverage pass *)

Section CoverageFacts.
Import ApplyTierACoverage.
Context {G : Type}.
Implicit Types (f g a : site_feature G) (sites orig : list (site_feature G)).

Definition prop_of f (k : string) : value := get (site_properties f) k.

(** The tests of the loop of lines 80-96, as properties of a feature. *)
Definition is_tiera f : Prop := prop_of f "tier" = VStr "A".

Definition is_required f : Prop :=
  prop_of f "tier" = VStr "B" ∧ prop_of f "notes" ≠ VStr "ALT".

Definition is_alt f : Prop :=
  prop_of f "tier" = VStr "B" ∧ prop_of f "notes" = VStr "ALT".

Definition is_candidate f : Prop :=
  is_required f
  ∧ prop_of f "status" = VStr "CANDIDATE"
  ∧ truthy (prop_of f "cell_id") = true.

Definition cell_key f : key := key_of (prop_of f "cell_id").

#[global] Instance is_tiera_dec f : Decision (is_tiera f).
Proof. unfold is_tiera. apply _. Defined.

#[global] Instance is_required_dec f : Decision (is_required f).
Proof. unfold is_required. apply _. Defined.

#[global] Instance is_alt_dec f : Decision (is_alt f).
Proof. unfold is_alt. apply _. Defined.

#[global] Instance is_candidate_dec f : Decision (is_candidate f).
Proof. unfold is_candidate. apply _. Defined.

(** The positions, counted from [i], of the features that satisfy [P]. *)
Fixpoint positions (P : site_feature G → Prop) `{∀ f, Decision (P f)}
    (i : nat) (fs : list (site_feature G)) : list nat :=
  match fs with
  | [] => []
  | f :: fs => (if decide (P f) then [i] else []) ++ positions P (S i) fs
  end.

Lemma elem_of_positions (P : site_feature G → Prop) `{∀ f, Decision (P f)}
    (i : nat) (fs : list (site_feature G)) (j : nat) :
  j ∈ positions P i fs ↔ ∃ f, i ≤ j ∧ fs !! (j - i) = Some f ∧ P f.
Proof.
  revert i. induction fs as [|f0 fs IH]; intros i.
  - simpl. split; [by intros ?%elem_of_nil|]. by intros (f & _ & ? & _).
  - cbn [positions]. rewrite elem_of_app, IH. split.
    + intros [Hj|(f & Hle & Hf & HP)].
      * destruct (decide (P f0)); [|by apply elem_of_nil in Hj].
        apply list_elem_of_singleton in Hj as ->. exists f0.
        by rewrite Nat.sub_diag.
      * exists f. split; [lia|]. split; [|done].
        replace (j - i) with (S (j - S i)) by lia. done.
    + intros (f & Hle & Hf & HP).
      destruct (decide (j = i)) as [->|Hne].
      * left. rewrite Nat.sub_diag in Hf. injection Hf as ->.
        rewrite decide_True by done. by apply list_elem_of_singleton.
      * right. exists f. split; [lia|]. split; [|done].
        replace (j - i) with (S (j - S i)) in Hf by lia. done.
Qed.

Lemma positions_split (P : site_feature G → Prop) `{∀ f, Decision (P f)}
    (i0 : nat) (fs : list (site_feature G)) (i : nat) :
  i ∈ positions P i0 fs →
  ∃ l1 l2, positions P i0 fs = l1 ++ i :: l2 ∧ ∀ i', i' ∈ l1 → i' < i.
Proof.
  revert i0. induction fs as [|f0 fs IH]; intros i0.
  - by intros ?%elem_of_nil.
  - cbn [positions]. intros [Hi|Hi]%elem_of_app.
    + destruct (decide (P f0)); [|by apply elem_of_nil in Hi].
      apply list_elem_of_singleton in Hi as ->.
      exists [], (positions P (S i0) fs). split; [done|].
      by intros i' ?%elem_of_nil.
    + pose proof Hi as (f & Hle & _)%elem_of_positions.
      destruct (IH _ Hi) as (l1 & l2 & -> & Hlt).
      exists ((if decide (P f0) then [i0] else []) ++ l1), l2.
      split; [by rewrite <- app_assoc|].
      intros i' [Hi'|Hi']%elem_of_app; [|by apply Hlt].
      destruct (decide (P f0)); [|by apply elem_of_nil in Hi'].
      apply list_elem_of_singleton in Hi' as ->. lia.
Qed.

Lemma positions_ext (P Q : site_feature G → Prop)
    `{∀ f, Decision (P f)} `{∀ f, Decision (Q f)}
    (i : nat) (fs gs : list (site_feature G)) :
  Forall2 (λ f g, P f ↔ Q g) fs gs → positions P i fs = positions Q i gs.
Proof.
  intros HF. revert i. induction HF as [|f g fs gs Hfg _ IH]; intros i.
  - done.
  - cbn [positions]. rewrite IH. f_equal.
    destruct (decide (P f)), (decide (Q g)); tauto || done.
Qed.

(** Closes a goal [¬ (… ∧ …)] or [… ∧ …] about the tier, notes, status
    and cell of one feature from the tests already made. *)
Ltac tests_solver :=
  first
    [ by repeat split
    | let X := fresh in
      intros X; destruct_and?; first [congruence | done] ].

(** One turn of the classification loop. *)
Lemma classify_feature_spec (b : buckets) (i : nat) f :
  tiera_features (classify_feature b i f)
  = tiera_features b ++ (if decide (is_tiera f) then [i] else [])
  ∧ tierb_required_features (classify_feature b i f)
    = tierb_required_features b ++ (if decide (is_required f) then [i] else [])
  ∧ tierb_alt_features (classify_feature b i f)
    = tierb_alt_features b ++ (if decide (is_alt f) then [i] else [])
  ∧ ∀ c, default [] (tierb_candidates_by_cell (classify_feature b i f) !! c)
         = default [] (tierb_candidates_by_cell b !! c)
           ++ (if decide (is_candidate f ∧ cell_key f = c) then [i] else []).
Proof.
  unfold classify_feature.
  destruct (decide (get (site_properties f) "tier" = VStr "A")) as [HA|HA].
  { cbn [tiera_features tierb_required_features tierb_alt_features
         tierb_candidates_by_cell].
    rewrite (decide_True (P := is_tiera f)) by done.
    rewrite (decide_False (P := is_required f))
      by (unfold is_required, prop_of; tests_solver).
    rewrite (decide_False (P := is_alt f))
      by (unfold is_alt, prop_of; tests_solver).
    rewrite !app_nil_r. repeat split. intros c.
    rewrite decide_False
      by (unfold is_candidate, is_required, prop_of; tests_solver).
    by rewrite app_nil_r. }
  rewrite (decide_False (P := is_tiera f)) by done.
  destruct (decide (get (site_properties f) "tier" ≠ VStr "B")) as [HB|HB].
  { rewrite (decide_False (P := is_required f))
      by (unfold is_required, prop_of; tests_solver).
    rewrite (decide_False (P := is_alt f))
      by (unfold is_alt, prop_of; tests_solver).
    rewrite !app_nil_r. repeat split. intros c.
    rewrite decide_False
      by (unfold is_candidate, is_required, prop_of; tests_solver).
    by rewrite app_nil_r. }
  apply dec_stable in HB.
  destruct (decide (get (site_properties f) "notes" = VStr "ALT"))
    as [HN|HN].
  { cbn [tiera_features tierb_required_features tierb_alt_features
         tierb_candidates_by_cell].
    rewrite (decide_False (P := is_required f))
      by (unfold is_required, prop_of; tests_solver).
    rewrite (decide_True (P := is_alt f)) by done.
    rewrite !app_nil_r. repeat split. intros c.
    rewrite decide_False
      by (unfold is_candidate, is_required, prop_of; tests_solver).
    by rewrite app_nil_r. }
  assert (is_required f) as Hreq by done.
  destruct (decide (get (site_properties f) "status" = VStr "CANDIDATE"))
    as [HS|HS];
    [destruct (truthy (get (site_properties f) "cell_id")) eqn:HT|];
    cbn [tiera_features tierb_required_features tierb_alt_features
         tierb_candidates_by_cell];
    rewrite (decide_True (P := is_required f)) by done;
    rewrite (decide_False (P := is_alt f))
      by (unfold is_alt, prop_of; tests_solver);
    rewrite !app_nil_r; (repeat split; intros c).
  - destruct (decide (c = key_of (get (site_properties f) "cell_id")))
      as [->|Hne].
    + rewrite lookup_insert_eq. cbn [default].
      by rewrite decide_True by done.
    + rewrite lookup_insert_ne by done.
      rewrite decide_False by (unfold cell_key, prop_of; tests_solver).
      by rewrite app_nil_r.
  - rewrite decide_False
      by (unfold is_candidate, prop_of; tests_solver).
    by rewrite app_nil_r.
  - rewrite decide_False
      by (unfold is_candidate, prop_of; tests_solver).
    by rewrite app_nil_r.
Qed.

(** The four lists the classification loop builds. *)
Lemma classify_spec (fs : list (site_feature G)) (i : nat) (b : buckets) :
  tiera_features (classify i fs b)
  = tiera_features b ++ positions is_tiera i fs
  ∧ tierb_required_features (classify i fs b)
    = tierb_required_features b ++ positions is_required i fs
  ∧ tierb_alt_features (classify i fs b)
    = tierb_alt_features b ++ positions is_alt i fs
  ∧ ∀ c, default [] (tierb_candidates_by_cell (classify i fs b) !! c)
         = default [] (tierb_candidates_by_cell b !! c)
           ++ positions (λ f, is_candidate f ∧ cell_key f = c) i fs.
Proof.
  revert i b. induction fs as [|f fs IH]; intros i b.
  - simpl. rewrite !app_nil_r. repeat split. intros c. by rewrite app_nil_r.
  - cbn [classify positions].
    destruct (IH (S i) (classify_feature b i f)) as (-> & -> & -> & Hc).
    destruct (classify_feature_spec b i f) as (-> & -> & -> & Hc1).
    rewrite <- !app_assoc. repeat split.
    intros c. by rewrite Hc, Hc1, <- app_assoc.
Qed.

(** ** One Tier-A site against the candidates *)

(** The candidate [g] once the Tier-A site [a] has satisfied it. *)
Definition mark a g : site_feature G :=
  set_properties g
    (<["satisfied_corridor_id" := prop_of a "corridor_id"]>
       (<["satisfied_by" := prop_of a "site_id"]>
          (<["status" := VStr "SATISFIED"]> (site_properties g)))).

(** The body of the innermost loop on the feature [g]: nothing unless its
    status is CANDIDATE. *)
Definition mark_if a g : site_feature G :=
  if decide (prop_of g "status" ≠ VStr "CANDIDATE") then g else mark a g.

Lemma mark_status a g : prop_of (mark a g) "status" = VStr "SATISFIED".
Proof.
  unfold prop_of, mark, set_properties, get. cbn [site_properties].
  rewrite !lookup_insert_ne by done. by rewrite lookup_insert_eq.
Qed.

Lemma mark_if_not_candidate a g :
  prop_of g "status" ≠ VStr "CANDIDATE" → mark_if a g = g.
Proof. intros. unfold mark_if. by rewrite decide_True. Qed.

Lemma mark_if_candidate a g :
  prop_of g "status" = VStr "CANDIDATE" → mark_if a g = mark a g.
Proof. intros Hs. unfold mark_if. rewrite decide_False; [done|]. by intros ?. Qed.

Lemma mark_if_status a g :
  prop_of (mark_if a g) "status" ≠ VStr "CANDIDATE".
Proof.
  unfold mark_if. destruct (decide _) as [Hs|Hs]; [done|].
  by rewrite mark_status.
Qed.

Lemma mark_if_idemp a a' g : mark_if a' (mark_if a g) = mark_if a g.
Proof. apply mark_if_not_candidate, mark_if_status. Qed.

Lemma satisfy_lookup (i j : nat) sites (n : nat) (any : bool) a :
  sites !! i = Some a → i ≠ j →
  ∃ sites' n' any',
    satisfy i (sites, n, any) j = (sites', n', any')
    ∧ length sites' = length sites
    ∧ ∀ k, sites' !! k =
           if decide (k = j) then mark_if a <$> sites !! k else sites !! k.
Proof.
  intros Hi Hij. unfold satisfy. rewrite Hi.
  destruct (sites !! j) as [c|] eqn:Hj.
  - fold (prop_of c "status").
    destruct (decide (prop_of c "status" ≠ VStr "CANDIDATE")) as [Hs|Hs].
    + eexists _, _, _. split; [done|]. split; [done|]. intros k.
      destruct (decide (k = j)) as [->|]; [|done].
      rewrite Hj. simpl. by rewrite (mark_if_not_candidate a c Hs).
    + eexists _, _, _. split; [done|]. split; [by rewrite length_insert|].
      intros k. destruct (decide (k = j)) as [->|Hne].
      * rewrite list_lookup_insert_eq by (by eapply lookup_lt_Some).
        rewrite Hj. cbn [fmap option_fmap option_map]. f_equal.
        unfold mark_if. by rewrite decide_False.
      * by rewrite list_lookup_insert_ne.
  - eexists _, _, _. split; [done|]. split; [done|]. intros k.
    destruct (decide (k = j)) as [->|]; [|done]. by rewrite Hj.
Qed.

(** The innermost loop over any list of candidate positions that leaves
    out the Tier-A site itself: each listed feature is marked if its status
    is CANDIDATE, nothing else changes. *)
Lemma foldl_satisfy (i : nat) (J : list nat) a :
  i ∉ J →
  ∀ sites (n : nat) (any : bool),
    sites !! i = Some a →
    ∃ sites' n' any',
      foldl (satisfy i) (sites, n, any) J = (sites', n', any')
      ∧ length sites' = length sites
      ∧ ∀ k, sites' !! k =
             if decide (k ∈ J) then mark_if a <$> sites !! k else sites !! k.
Proof.
  induction J as [|j J IH]; intros HiJ sites n any Hi.
  - eexists _, _, _. split; [done|]. split; [done|]. intros k.
    rewrite decide_False; [done|]. by intros ?%elem_of_nil.
  - apply not_elem_of_cons in HiJ as [Hij HiJ]. cbn [foldl].
    destruct (satisfy_lookup i j sites n any a Hi Hij)
      as (s1 & n1 & any1 & -> & Hlen1 & Hs1).
    assert (s1 !! i = Some a) as Hi1.
    { rewrite Hs1. by rewrite decide_False. }
    destruct (IH HiJ s1 n1 any1 Hi1) as (s2 & n2 & any2 & -> & Hlen2 & Hs2).
    eexists _, _, _. split; [done|]. split; [congruence|]. intros k.
    rewrite Hs2, Hs1.
    destruct (decide (k = j)) as [->|Hne].
    + rewrite (decide_True (P := j ∈ j :: J)) by constructor.
      destruct (decide (j ∈ J)); [|done].
      destruct (sites !! j) as [c|]; [|done]. simpl.
      by rewrite mark_if_idemp.
    + destruct (decide (k ∈ J)) as [Hin|Hnin].
      * rewrite decide_True; [done|]. by constructor.
      * rewrite decide_False; [done|].
        by intros [?|?]%elem_of_cons.
Qed.

(** When no listed feature has the status CANDIDATE the loop changes
    nothing, its counters included. *)
Lemma foldl_satisfy_skip (i : nat) (J : list nat) sites
    (n : nat) (any : bool) :
  (∀ j g, j ∈ J → sites !! j = Some g →
          prop_of g "status" ≠ VStr "CANDIDATE") →
  foldl (satisfy i) (sites, n, any) J = (sites, n, any).
Proof.
  induction J as [|j J IH]; intros Hskip; [done|]. cbn [foldl].
  assert (satisfy i (sites, n, any) j = (sites, n, any)) as ->.
  { unfold satisfy. destruct (sites !! i); [|done].
    destruct (sites !! j) as [c|] eqn:Hj; [|done].
    rewrite decide_True; [done|]. apply (Hskip j c); [constructor|done]. }
  apply IH. intros j' g Hj'. apply Hskip. by constructor.
Qed.

(** The candidate positions a walk over the cells [cells] visits. *)
Definition visited (candidates_by_cell : gmap key (list nat))
    (cells : list key) : list nat :=
  cells ≫= λ c, default [] (candidates_by_cell !! c).

Lemma foldl_cover_cell (candidates_by_cell : gmap key (list nat)) (i : nat)
    (cells : list key) (st : list (site_feature G) * nat * bool) :
  foldl (cover_cell candidates_by_cell i) st cells
  = foldl (satisfy i) st (visited candidates_by_cell cells).
Proof.
  revert st. induction cells as [|c cells IH]; intros st; [done|].
  unfold visited. cbn [foldl mbind list_bind]. rewrite foldl_app.
  apply IH.
Qed.

(** ** The whole pass

    The order in which a Python set is walked is any enumeration of its
    members. *)

Variable set_order : gset key → list key.
Hypothesis set_order_perm : ∀ s, set_order s ≡ₚ elements s.

Variable neighbor_map : gmap key (gset key).
Variable orig : list (site_feature G).

(** The Tier-A site [a] has a cell and the feature [f0] is a required
    Tier-B candidate whose cell is in the coverage set of [a]. *)
Definition covers a f0 : Prop :=
  truthy (prop_of a "cell_id") = true
  ∧ is_candidate f0
  ∧ cell_key f0 ∈ covered_cells neighbor_map (cell_key a).

#[global] Instance covers_dec a f0 : Decision (covers a f0).
Proof. unfold covers. apply _. Defined.

(** What the turn of the outer loop for the Tier-A site [a] does to the
    feature that was [f0] when the pass started and is [g] now. *)
Definition step f0 g a : site_feature G :=
  if decide (covers a f0) then mark_if a g else g.

(** The same for the Tier-A sites at the positions [idxs], in order. *)
Definition reduce f0 g (idxs : list nat) : site_feature G :=
  foldl (λ g i, match orig !! i with Some a => step f0 g a | None => g end)
        g idxs.

Lemma elem_of_visited a (k : nat) :
  k ∈ visited (tierb_candidates_by_cell (classify 0 orig no_buckets))
              (set_order (covered_cells neighbor_map (cell_key a)))
  ↔ ∃ f0, orig !! k = Some f0 ∧ is_candidate f0
          ∧ cell_key f0 ∈ covered_cells neighbor_map (cell_key a).
Proof.
  unfold visited. rewrite list_elem_of_bind.
  destruct (classify_spec orig 0 no_buckets) as (_ & _ & _ & Hc).
  split.
  - intros (c & Hk & Hc'). rewrite Hc in Hk. cbn in Hk.
    rewrite lookup_empty in Hk. cbn in Hk.
    apply elem_of_positions in Hk as (f0 & _ & Hf0 & Hcand & Hcell).
    rewrite Nat.sub_0_r in Hf0. exists f0. split; [done|]. split; [done|].
    rewrite Hcell. rewrite set_order_perm in Hc'.
    by apply elem_of_elements in Hc'.
  - intros (f0 & Hf0 & Hcand & Hcell). exists (cell_key f0). split.
    + rewrite Hc. cbn. rewrite lookup_empty. cbn.
      apply elem_of_positions. exists f0. rewrite Nat.sub_0_r.
      split; [lia|]. done.
    + rewrite set_order_perm. by apply elem_of_elements.
Qed.

Lemma tiera_not_candidate a : is_tiera a → ¬ is_candidate a.
Proof.
  unfold is_tiera, is_candidate, is_required. intros HA [[HB _] _].
  congruence.
Qed.

(** One turn of the outer loop, on a store in which the Tier-A site is as
    it was at the start. *)
Lemma cover_step sites (n : nat) (used : gset key) (i : nat) a :
  orig !! i = Some a → is_tiera a → sites !! i = Some a →
  ∃ sites' n' used',
    cover set_order neighbor_map
          (tierb_candidates_by_cell (classify 0 orig no_buckets))
          (sites, n, used) i
    = (sites', n', used')
    ∧ length sites' = length sites
    ∧ ∀ k f0, orig !! k = Some f0 →
              sites' !! k = (λ g, step f0 g a) <$> sites !! k.
Proof.
  intros Hoi HA Hi. unfold cover. rewrite Hi.
  fold (prop_of a "cell_id"). fold (cell_key a).
  destruct (truthy (prop_of a "cell_id")) eqn:Ht.
  - rewrite foldl_cover_cell.
    set (J := visited _ _).
    assert (i ∉ J) as HiJ.
    { intros (f0 & Hf0 & Hcand & _)%elem_of_visited.
      rewrite Hoi in Hf0. injection Hf0 as <-.
      by apply (tiera_not_candidate a). }
    destruct (foldl_satisfy i J a HiJ sites n false Hi)
      as (s1 & n1 & any1 & -> & Hlen & Hs1).
    eexists s1, n1, _. split; [done|]. split; [done|].
    intros k f0 Hk. rewrite Hs1. unfold step, covers.
    destruct (decide (k ∈ J)) as [Hin|Hnin].
    + apply elem_of_visited in Hin as (f0' & Hf0' & Hcand & Hcell).
      rewrite Hk in Hf0'. injection Hf0' as <-.
      destruct (sites !! k); [|done]. simpl. by rewrite decide_True.
    + destruct (sites !! k) as [g|]; [|done]. simpl.
      rewrite decide_False; [done|]. intros (_ & Hcand & Hcell).
      apply Hnin, elem_of_visited. by exists f0.
  - eexists _, _, _. split; [done|]. split; [done|].
    intros k f0 Hk. destruct (sites !! k) as [g|]; [|done]. simpl.
    unfold step, covers. rewrite decide_False; [done|].
    intros (Ht' & _). congruence.
Qed.

Lemma step_tiera f0 g a : is_tiera f0 → step f0 g a = g.
Proof.
  intros HA. unfold step, covers. rewrite decide_False; [done|].
  intros (_ & Hcand & _). by apply (tiera_not_candidate f0).
Qed.

(** The outer loop over the Tier-A positions [idxs], from a store in which every
    Tier-A site is as it was at the start. *)
Lemma cover_fold (idxs : list nat) :
  (∀ i, i ∈ idxs → ∃ a, orig !! i = Some a ∧ is_tiera a) →
  ∀ sites (n : nat) (used : gset key),
    length sites = length orig →
    (∀ k a, orig !! k = Some a → is_tiera a → sites !! k = Some a) →
    ∃ sites' n' used',
      foldl (cover set_order neighbor_map
               (tierb_candidates_by_cell (classify 0 orig no_buckets)))
            (sites, n, used) idxs
      = (sites', n', used')
      ∧ length sites' = length orig
      ∧ ∀ k f0, orig !! k = Some f0 →
                sites' !! k = (λ g, reduce f0 g idxs) <$> sites !! k.
Proof.
  induction idxs as [|i idxs IH]; intros His sites n used Hlen Hkeep.
  - eexists _, _, _. split; [done|]. split; [done|]. intros k f0 _.
    by destruct (sites !! k).
  - destruct (His i) as (a & Hoi & HA); [constructor|]. cbn [foldl].
    destruct (cover_step sites n used i a Hoi HA (Hkeep _ _ Hoi HA))
      as (s1 & n1 & u1 & -> & Hlen1 & Hs1).
    destruct (IH (λ i' Hi', His i' (list_elem_of_further _ _ _ Hi'))
                s1 n1 u1) as (s2 & n2 & u2 & -> & Hlen2 & Hs2).
    + congruence.
    + intros k a' Hk HA'. rewrite (Hs1 k a' Hk), (Hkeep k a' Hk HA').
      simpl. by rewrite step_tiera.
    + eexists _, _, _. split; [done|]. split; [done|].
      intros k f0 Hk. rewrite (Hs2 k f0 Hk), (Hs1 k f0 Hk).
      destruct (sites !! k) as [g|]; [|done]. simpl.
      unfold reduce. cbn [foldl]. by rewrite Hoi.
Qed.

Lemma reduce_cons f0 g (i : nat) (idxs : list nat) :
  reduce f0 g (i :: idxs)
  = reduce f0 (match orig !! i with Some a => step f0 g a | None => g end)
           idxs.
Proof. done. Qed.

Lemma reduce_app f0 g (l1 l2 : list nat) :
  reduce f0 g (l1 ++ l2) = reduce f0 (reduce f0 g l1) l2.
Proof. unfold reduce. apply foldl_app. Qed.

Lemma reduce_not_candidate f0 g (idxs : list nat) :
  prop_of g "status" ≠ VStr "CANDIDATE" → reduce f0 g idxs = g.
Proof.
  revert g. induction idxs as [|i idxs IH]; intros g Hs; [done|].
  rewrite reduce_cons.
  destruct (orig !! i) as [a|]; [|by apply IH].
  unfold step. destruct (decide (covers a f0)); [|by apply IH].
  rewrite (mark_if_not_candidate a g Hs). by apply IH.
Qed.

Lemma reduce_not_covered f0 g (idxs : list nat) :
  (∀ i a, i ∈ idxs → orig !! i = Some a → ¬ covers a f0) →
  reduce f0 g idxs = g.
Proof.
  revert g. induction idxs as [|i idxs IH]; intros g Hn; [done|].
  rewrite reduce_cons.
  assert (∀ i' a, i' ∈ idxs → orig !! i' = Some a → ¬ covers a f0) as Hn'.
  { intros i' a' Hi'. apply Hn. by constructor. }
  destruct (orig !! i) as [a|] eqn:Hoi; [|by apply IH].
  unfold step. rewrite decide_False; [by apply IH|].
  apply (Hn i a); [constructor|done].
Qed.

(** First writer wins: the first Tier-A site of the list that covers a
    candidate marks it, and no later one changes it. *)
Lemma reduce_first f0 g (l1 l2 : list nat) (i : nat) a :
  prop_of g "status" = VStr "CANDIDATE" →
  (∀ i' a', i' ∈ l1 → orig !! i' = Some a' → ¬ covers a' f0) →
  orig !! i = Some a → covers a f0 →
  reduce f0 g (l1 ++ i :: l2) = mark a g.
Proof.
  intros Hs Hl1 Hoi Hcov. rewrite reduce_app.
  rewrite (reduce_not_covered f0 g l1 Hl1), reduce_cons, Hoi.
  unfold step. rewrite decide_True by done.
  rewrite (mark_if_candidate a g Hs).
  apply reduce_not_candidate. by rewrite mark_status.
Qed.

(** What the pass can do to one feature: nothing, or the mark of a Tier-A
    site of the list that covers it, and then the feature was a candidate
    with status CANDIDATE. *)
Lemma reduce_cases f0 g (idxs : list nat) :
  reduce f0 g idxs = g
  ∨ (prop_of g "status" = VStr "CANDIDATE"
     ∧ ∃ i a, i ∈ idxs ∧ orig !! i = Some a ∧ covers a f0
              ∧ reduce f0 g idxs = mark a g).
Proof.
  revert g. induction idxs as [|i idxs IH]; intros g; [by left|].
  rewrite reduce_cons.
  assert (reduce f0 g idxs = g
          ∨ prop_of g "status" = VStr "CANDIDATE"
            ∧ ∃ i' a, i' ∈ i :: idxs ∧ orig !! i' = Some a ∧ covers a f0
                      ∧ reduce f0 g idxs = mark a g) as Hrest.
  { destruct (IH g) as [?|(Hs & i' & a & Hi' & ? & ? & ?)]; [by left|].
    right. split; [done|]. exists i', a. split; [by constructor|done]. }
  destruct (orig !! i) as [a|] eqn:Hoi; [|exact Hrest].
  unfold step. destruct (decide (covers a f0)) as [Hc|Hc]; [|exact Hrest].
  destruct (decide (prop_of g "status" = VStr "CANDIDATE")) as [Hs|Hs].
  - right. split; [done|]. exists i, a. split; [constructor|].
    split; [done|]. split; [done|].
    rewrite (mark_if_candidate a g Hs).
    apply reduce_not_candidate. by rewrite mark_status.
  - rewrite (mark_if_not_candidate a g Hs). exact Hrest.
Qed.

(** A candidate covered by a Tier-A site of the list does not keep the
    status CANDIDATE. *)
Lemma reduce_covered f0 g (idxs : list nat) (i : nat) a :
  i ∈ idxs → orig !! i = Some a → covers a f0 →
  prop_of (reduce f0 g idxs) "status" ≠ VStr "CANDIDATE".
Proof.
  revert g. induction idxs as [|i0 idxs IH]; intros g Hi Hoi Hc.
  - by apply elem_of_nil in Hi.
  - rewrite reduce_cons. apply elem_of_cons in Hi as [->|Hi].
    + rewrite Hoi. unfold step. rewrite decide_True by done.
      rewrite reduce_not_candidate; apply mark_if_status.
    + by apply IH.
Qed.

Lemma mark_geometry a g : site_geometry (mark a g) = site_geometry g.
Proof. done. Qed.

Lemma mark_other_properties a g (k : string) :
  k ≠ "status" → k ≠ "satisfied_by" → k ≠ "satisfied_corridor_id" →
  site_properties (mark a g) !! k = site_properties g !! k.
Proof.
  intros. unfold mark, set_properties. cbn [site_properties].
  by rewrite !lookup_insert_ne.
Qed.

Lemma mark_satisfied_by a g :
  prop_of (mark a g) "satisfied_by" = prop_of a "site_id".
Proof.
  unfold prop_of at 1. unfold mark, set_properties, get.
  cbn [site_properties].
  rewrite lookup_insert_ne by done. by rewrite lookup_insert_eq.
Qed.

Lemma mark_satisfied_corridor_id a g :
  prop_of (mark a g) "satisfied_corridor_id" = prop_of a "corridor_id".
Proof.
  unfold prop_of at 1. unfold mark, set_properties, get.
  cbn [site_properties]. by rewrite lookup_insert_eq.
Qed.

(** The pass keeps the tier, the notes, the cell and the zone of every
    feature, hence the tests of the classification loop other than the one
    on the status. *)
Lemma reduce_other_properties f0 g (idxs : list nat) (k : string) :
  k ≠ "status" → k ≠ "satisfied_by" → k ≠ "satisfied_corridor_id" →
  prop_of (reduce f0 g idxs) k = prop_of g k.
Proof.
  intros. destruct (reduce_cases f0 g idxs)
    as [->|(_ & i & a & _ & _ & _ & ->)]; [done|].
  unfold prop_of, get. by rewrite mark_other_properties.
Qed.

(** The loop over the Tier-A positions of the input, started on the
    input. *)
Lemma coverage_run :
  ∃ sites' n' used',
    foldl (cover set_order neighbor_map
             (tierb_candidates_by_cell (classify 0 orig no_buckets)))
          (orig, 0, ∅) (positions is_tiera 0 orig)
    = (sites', n', used')
    ∧ length sites' = length orig
    ∧ ∀ k f0, orig !! k = Some f0 →
              sites' !! k = Some (reduce f0 f0 (positions is_tiera 0 orig)).
Proof.
  destruct (cover_fold (positions is_tiera 0 orig)) with
    (sites := orig) (n := 0) (used := (∅ : gset key))
    as (s & n & u & Hrun & Hlen & Hs).
  - intros i (a & _ & Hi & HA)%elem_of_positions.
    rewrite Nat.sub_0_r in Hi. by exists a.
  - done.
  - done.
  - exists s, n, u. split; [done|]. split; [done|].
    intros k f0 Hk. by rewrite (Hs k f0 Hk), Hk.
Qed.

(** One turn of the outer loop changes nothing, its counters included,
    when no candidate the Tier-A site reaches has the status CANDIDATE. *)
Lemma cover_skip sites (n : nat) (used : gset key) (i : nat)
    (candidates_by_cell : gmap key (list nat)) :
  (∀ a j g,
     sites !! i = Some a →
     truthy (prop_of a "cell_id") = true →
     j ∈ visited candidates_by_cell
           (set_order (covered_cells neighbor_map (cell_key a))) →
     sites !! j = Some g → prop_of g "status" ≠ VStr "CANDIDATE") →
  cover set_order neighbor_map candidates_by_cell (sites, n, used) i
  = (sites, n, used).
Proof.
  intros Hskip. unfold cover.
  destruct (sites !! i) as [a|] eqn:Hi; [|done].
  destruct (truthy _) eqn:Ht; [|done].
  rewrite foldl_cover_cell, foldl_satisfy_skip; [done|].
  intros j g. by apply Hskip.
Qed.

Lemma foldl_cover_skip (idxs : list nat) sites (n : nat) (used : gset key)
    (candidates_by_cell : gmap key (list nat)) :
  (∀ i a j g,
     i ∈ idxs →
     sites !! i = Some a →
     truthy (prop_of a "cell_id") = true →
     j ∈ visited candidates_by_cell
           (set_order (covered_cells neighbor_map (cell_key a))) →
     sites !! j = Some g → prop_of g "status" ≠ VStr "CANDIDATE") →
  foldl (cover set_order neighbor_map candidates_by_cell)
        (sites, n, used) idxs
  = (sites, n, used).
Proof.
  induction idxs as [|i idxs IH]; intros Hskip; [done|]. cbn [foldl].
  rewrite cover_skip.
  - apply IH. intros i' a j g Hi'. apply Hskip. by constructor.
  - intros a j g. apply Hskip. constructor.
Qed.

Lemma positions_fmap (P : site_feature G → Prop) `{∀ f, Decision (P f)}
    (h : site_feature G → site_feature G) (i : nat)
    (fs : list (site_feature G)) :
  (∀ f, P (h f) ↔ P f) → positions P i (h <$> fs) = positions P i fs.
Proof.
  intros Hh. revert i. induction fs as [|f fs IH]; intros i; [done|].
  cbn [fmap list_fmap positions]. rewrite <- IH. f_equal.
  destruct (decide (P (h f))), (decide (P f)); [done| | |done];
    exfalso; naive_solver.
Qed.

End CoverageFacts.

(** ** The pass as a whole *)

Section CoverageTheorems.
Import ApplyTierACoverage.
Context {V : Type} `{Countable V} {G : Type}.
Variable set_order : gset key → list key.
Hypothesis set_order_perm : ∀ s, set_order s ≡ₚ elements s.
Implicit Types (f g a b : site_feature G) (sites : list (site_feature G)).
Implicit Types (hexes : list (hex_feature V)).

(** The fate of the feature [f0] of the input [sites] under the pass. *)
Definition fate (neighbor_map : gmap key (gset key)) sites f0
  : site_feature G :=
  reduce neighbor_map sites f0 f0 (positions is_tiera 0 sites).

Lemma tiera_features_classify sites :
  tiera_features (classify 0 sites no_buckets) = positions is_tiera 0 sites.
Proof. by destruct (classify_spec sites 0 no_buckets) as (-> & _). Qed.

Lemma required_features_classify sites :
  tierb_required_features (classify 0 sites no_buckets)
  = positions is_required 0 sites.
Proof. by destruct (classify_spec sites 0 no_buckets) as (_ & -> & _). Qed.

Lemma alt_features_classify sites :
  tierb_alt_features (classify 0 sites no_buckets) = positions is_alt 0 sites.
Proof. by destruct (classify_spec sites 0 no_buckets) as (_ & _ & -> & _). Qed.

(** The keys of the rollup are zone ids of site features. *)
Lemma count_in_zone_keys sites
    (update : gmap string value → zone_row → zone_row) (js : list nat)
    (zone_stats : gmap key zone_row) (z : key) :
  z ∈ dom (foldl (count_in_zone sites update) zone_stats js) →
  z ∈ dom zone_stats
  ∨ ∃ j f, sites !! j = Some f
           ∧ truthy (prop_of f "zone_id") = true
           ∧ z = key_of (prop_of f "zone_id").
Proof.
  revert zone_stats. induction js as [|j js IH]; intros zone_stats Hz.
  - by left.
  - cbn [foldl] in Hz. destruct (IH _ Hz) as [Hin|?]; [|by right].
    unfold count_in_zone in Hin.
    destruct (sites !! j) as [f|] eqn:Hj; [|by left].
    destruct (truthy (get (site_properties f) "zone_id")) eqn:Ht; [|by left].
    rewrite dom_insert in Hin. apply elem_of_union in Hin as [Hin|?];
      [|by left].
    apply elem_of_singleton in Hin. right. by exists j, f.
Qed.

Lemma zone_rollup_keys sites (b : buckets) (z : key) :
  z ∈ dom (zone_rollup sites b) →
  ∃ j f, sites !! j = Some f
         ∧ truthy (prop_of f "zone_id") = true
         ∧ z = key_of (prop_of f "zone_id").
Proof.
  unfold zone_rollup. intros Hz.
  apply count_in_zone_keys in Hz as [Hz|?]; [|done].
  apply count_in_zone_keys in Hz as [Hz|?]; [|done].
  apply count_in_zone_keys in Hz as [Hz|?]; [|done].
  by rewrite dom_empty in Hz.
Qed.

(** [main] needs the neighbor map and an ordering of the zone ids of the
    rollup, and then writes the fate of each feature in its place. *)
Lemma main_unfold hexes sites neighbor_map :
  build_neighbor_map hexes = Some neighbor_map →
  ∃ (n : nat) (used : gset key),
    main set_order hexes sites
    = if sortable
           (elements
              (dom (zone_rollup (fate neighbor_map sites <$> sites)
                                (classify 0 sites no_buckets))))
      then
        Some (Outcome
                (fate neighbor_map sites <$> sites)
                (zone_rollup (fate neighbor_map sites <$> sites)
                             (classify 0 sites no_buckets))
                n
                (length (filter
                           (λ j, still_required
                                   (fate neighbor_map sites <$> sites) j
                                 = true)
                           (tierb_required_features
                              (classify 0 sites no_buckets))))
                used)
      else None.
Proof.
  intros Hnm. unfold main. rewrite Hnm. cbn [mbind option_bind].
  rewrite tiera_features_classify.
  destruct (coverage_run set_order set_order_perm neighbor_map sites)
    as (s & n & u & -> & Hlen & Hs).
  assert (s = fate neighbor_map sites <$> sites) as ->.
  { apply list_eq. intros k. rewrite list_lookup_fmap.
    destruct (sites !! k) as [f0|] eqn:Hk.
    - by rewrite (Hs k f0 Hk).
    - apply lookup_ge_None. apply lookup_ge_None in Hk. lia. }
  by exists n, u.
Qed.

Lemma main_run hexes sites neighbor_map :
  build_neighbor_map hexes = Some neighbor_map →
  sortable
    (elements (dom (zone_rollup (fate neighbor_map sites <$> sites)
                                (classify 0 sites no_buckets))))
  = true →
  ∃ out,
    main set_order hexes sites = Some out
    ∧ out_sites out = fate neighbor_map sites <$> sites
    ∧ out_zone_stats out
      = zone_rollup (out_sites out) (classify 0 sites no_buckets)
    ∧ out_remaining_required out
      = length (filter (λ j, still_required (out_sites out) j = true)
                       (tierb_required_features
                          (classify 0 sites no_buckets))).
Proof.
  intros Hnm Hsort.
  destruct (main_unfold hexes sites neighbor_map Hnm) as (n & u & ->).
  rewrite Hsort. eexists. split; [done|]. done.
Qed.

Lemma main_inv hexes sites out :
  main set_order hexes sites = Some out →
  ∃ neighbor_map,
    build_neighbor_map hexes = Some neighbor_map
    ∧ out_sites out = fate neighbor_map sites <$> sites
    ∧ out_zone_stats out
      = zone_rollup (out_sites out) (classify 0 sites no_buckets)
    ∧ out_remaining_required out
      = length (filter (λ j, still_required (out_sites out) j = true)
                       (tierb_required_features
                          (classify 0 sites no_buckets)))
    ∧ sortable (elements (dom (out_zone_stats out))) = true.
Proof.
  intros Hmain.
  destruct (build_neighbor_map hexes) as [nm|] eqn:Hnm.
  - destruct (main_unfold hexes sites nm Hnm) as (n & u & Hrun).
    rewrite Hrun in Hmain.
    destruct (sortable _) eqn:Hsort; [|done].
    injection Hmain as <-. by exists nm.
  - unfold main in Hmain. by rewrite Hnm in Hmain.
Qed.

Lemma indexed_cells_inv hexes (cs : list (key * list V)) (c : key)
    (vs : list V) :
  indexed_cells hexes = Some cs → (c, vs) ∈ cs →
  ∃ feature,
    feature ∈ hexes
    ∧ truthy (get (hex_properties feature) "cell_id") = true
    ∧ key_of (get (hex_properties feature) "cell_id") = c
    ∧ iter_vertices (hex_geometry feature) = Some vs.
Proof.
  revert cs. induction hexes as [|f0 fs IH]; intros cs Hcs Hin.
  - injection Hcs as <-. by apply elem_of_nil in Hin.
  - cbn [indexed_cells] in Hcs.
    destruct (truthy (get (hex_properties f0) "cell_id")) eqn:Ht.
    + destruct (iter_vertices (hex_geometry f0)) as [vs0|] eqn:Hv; [|done].
      destruct (indexed_cells fs) as [cs'|]; [|done].
      cbn in Hcs. injection Hcs as <-.
      apply elem_of_cons in Hin as [Heq|Hin].
      * injection Heq as -> ->. exists f0. split; [constructor|done].
      * destruct (IH cs' eq_refl Hin) as (f & ? & ?).
        exists f. split; [by constructor|done].
    + destruct (IH cs Hcs Hin) as (f & ? & ?).
      exists f. split; [by constructor|done].
Qed.

(** When every hex cell has a vertex, every cell of the neighbor map is
    among its own neighbors. *)
Lemma neighbor_map_self hexes (neighbor_map : gmap key (gset key)) :
  build_neighbor_map hexes = Some neighbor_map →
  (∀ feature vs,
     feature ∈ hexes →
     truthy (get (hex_properties feature) "cell_id") = true →
     iter_vertices (hex_geometry feature) = Some vs → vs ≠ []) →
  ∀ c ns, neighbor_map !! c = Some ns → c ∈ ns.
Proof.
  unfold build_neighbor_map. intros Hb Hne c ns Hc.
  destruct (index_features hexes (∅, ∅)) as [[v2c cv]|] eqn:Hidx; [|done].
  injection Hb as <-.
  destruct (index_features_spec _ _ _ _ _ Hidx)
    as (cs & Hcs & Hv & _ & Hcv & _).
  rewrite lookup_fmap in Hc. destruct (cv !! c) as [S|] eqn:HS; [|done].
  injection Hc as <-.
  destruct (Hcv c S HS) as [H0|(vs & Hin & ->)];
    [by rewrite lookup_empty in H0|].
  destruct (indexed_cells_inv _ _ _ _ Hcs Hin) as (f & Hf & Ht & <- & Hvs).
  pose proof (Hne f vs Hf Ht Hvs) as Hnil.
  destruct vs as [|v vs]; [done|].
  apply elem_of_neighbors_of. exists v. split; [set_solver|].
  apply Hv. right. exists (v :: vs). split; [done|]. constructor.
Qed.

Lemma covered_cells_self (neighbor_map : gmap key (gset key)) (c : key) :
  (∀ c ns, neighbor_map !! c = Some ns → c ∈ ns) →
  covered_cells neighbor_map c = {[c]} ∪ default ∅ (neighbor_map !! c).
Proof.
  intros Hself. unfold covered_cells.
  destruct (neighbor_map !! c) as [ns|] eqn:Hc; cbn [default].
  - specialize (Hself c ns Hc). set_solver.
  - set_solver.
Qed.

Lemma fate_cases (neighbor_map : gmap key (gset key)) sites f0 :
  fate neighbor_map sites f0 = f0
  ∨ (prop_of f0 "status" = VStr "CANDIDATE"
     ∧ ∃ i a, sites !! i = Some a ∧ is_tiera a
              ∧ covers neighbor_map a f0
              ∧ fate neighbor_map sites f0 = mark a f0).
Proof.
  unfold fate.
  destruct (reduce_cases neighbor_map sites f0 f0 (positions is_tiera 0 sites))
    as [?|(Hs & i & a & Hi & Hoi & Hc & ?)]; [by left|].
  right. split; [done|]. exists i, a.
  apply elem_of_positions in Hi as (a' & _ & Ha' & HA).
  rewrite Nat.sub_0_r, Hoi in Ha'. injection Ha' as <-. done.
Qed.

Lemma fate_not_candidate (neighbor_map : gmap key (gset key)) sites f0 :
  ¬ is_candidate f0 → fate neighbor_map sites f0 = f0.
Proof.
  intros Hn. destruct (fate_cases neighbor_map sites f0)
    as [?|(_ & i & a & _ & _ & (_ & Hc & _) & _)]; done.
Qed.

Lemma fate_other_properties (neighbor_map : gmap key (gset key)) sites f0
    (k : string) :
  k ≠ "status" → k ≠ "satisfied_by" → k ≠ "satisfied_corridor_id" →
  prop_of (fate neighbor_map sites f0) k = prop_of f0 k.
Proof. apply reduce_other_properties. Qed.

(** Zone ids that are all strings can be ordered. *)
Lemma string_zones_sortable (neighbor_map : gmap key (gset key)) sites
    (b : buckets) :
  (∀ f, f ∈ sites → truthy (prop_of f "zone_id") = true →
        ∃ zone_id : string, prop_of f "zone_id" = VStr zone_id) →
  sortable (elements (dom (zone_rollup (fate neighbor_map sites <$> sites) b)))
  = true.
Proof.
  intros Hstr. unfold sortable.
  apply orb_true_intro. left. apply orb_true_intro. right.
  apply forallb_forall. intros z Hz.
  apply list_elem_of_In, elem_of_elements, zone_rollup_keys in Hz
    as (j & f' & Hj & Ht & ->).
  rewrite list_lookup_fmap in Hj.
  destruct (sites !! j) as [f|] eqn:Hf; [|done]. injection Hj as <-.
  unfold prop_of in Ht |- *.
  change (get (site_properties (fate neighbor_map sites f)) "zone_id")
    with (prop_of (fate neighbor_map sites f) "zone_id") in *.
  rewrite fate_other_properties in Ht |- * by done.
  destruct (Hstr f (list_elem_of_lookup_2 _ _ _ Hf) Ht) as (zone_id & ->).
  done.
Qed.

(** C1 (as amended). Let the neighbor map be built, every hex cell have a
    vertex on its rings, so that the coverage set of a Tier-A site is its
    own cell together with the neighbors of that cell, and every zone id
    that is set be a string.  Then the pass succeeds, and:
    - for a Tier-A site [a] with a cell and a Tier-B site [b] that is not
      flagged ALT, has status CANDIDATE and a cell in the coverage set of
      [a], such that no Tier-A site earlier in the input has the cell of [b]
      in its coverage set, it leaves [b] with status SATISFIED,
      satisfied_by the site_id of [a] and satisfied_corridor_id the
      corridor_id of [a];
    - it writes every Tier-B site flagged ALT back as it found it. *)
Theorem coverage_first_writer_wins hexes sites
    (neighbor_map : gmap key (gset key)) :
  build_neighbor_map hexes = Some neighbor_map →
  (∀ feature,
     feature ∈ hexes →
     truthy (get (hex_properties feature) "cell_id") = true →
     ∃ v, ring_vertex (hex_geometry feature) v) →
  (∀ f, f ∈ sites → truthy (prop_of f "zone_id") = true →
        ∃ zone_id : string, prop_of f "zone_id" = VStr zone_id) →
  ∃ out,
    main set_order hexes sites = Some out
    ∧ (∀ (i j : nat) a b,
         sites !! i = Some a →
         prop_of a "tier" = VStr "A" →
         truthy (prop_of a "cell_id") = true →
         sites !! j = Some b →
         prop_of b "tier" = VStr "B" →
         prop_of b "notes" ≠ VStr "ALT" →
         prop_of b "status" = VStr "CANDIDATE" →
         truthy (prop_of b "cell_id") = true →
         cell_key b
         ∈ {[cell_key a]} ∪ default ∅ (neighbor_map !! cell_key a) →
         (∀ i' a',
            i' < i → sites !! i' = Some a' →
            prop_of a' "tier" = VStr "A" →
            truthy (prop_of a' "cell_id") = true →
            cell_key b
            ∉ {[cell_key a']} ∪ default ∅ (neighbor_map !! cell_key a')) →
         ∃ b',
           out_sites out !! j = Some b'
           ∧ prop_of b' "status" = VStr "SATISFIED"
           ∧ prop_of b' "satisfied_by" = prop_of a "site_id"
           ∧ prop_of b' "satisfied_corridor_id" = prop_of a "corridor_id")
    ∧ (∀ (k : nat) c,
         sites !! k = Some c →
         prop_of c "tier" = VStr "B" →
         prop_of c "notes" = VStr "ALT" →
         out_sites out !! k = Some c).
Proof.
  intros Hnm Hverts Hzones.
  assert (∀ c ns, neighbor_map !! c = Some ns → c ∈ ns) as Hself.
  { apply (neighbor_map_self hexes neighbor_map Hnm).
    intros feature vs Hf Ht Hvs ->.
    destruct (Hverts feature Hf Ht) as (v & Hv).
    apply iter_vertices_ring_vertex in Hv as (vs & Hvs' & Hin).
    rewrite Hvs in Hvs'. injection Hvs' as <-. by apply elem_of_nil in Hin. }
  destruct (main_run hexes sites neighbor_map Hnm) as (out & Hout & Hs & _).
  { by apply string_zones_sortable. }
  exists out. split; [done|]. split.
  - intros i j a b Hi HA Hta Hj HB Hnotes Hstatus Htb Hcell Hfirst.
    exists (mark a b).
    assert (is_candidate b) as Hcand by done.
    assert (i ∈ positions is_tiera 0 sites) as Hpos.
    { apply elem_of_positions. exists a. rewrite Nat.sub_0_r.
      split; [lia|done]. }
    destruct (positions_split is_tiera 0 sites i Hpos)
      as (l1 & l2 & Hsplit & Hl1).
    split; [|split; [apply mark_status|split;
      [apply mark_satisfied_by|apply mark_satisfied_corridor_id]]].
    rewrite Hs, list_lookup_fmap, Hj. cbn. f_equal.
    unfold fate. rewrite Hsplit. apply reduce_first; [done| |done|].
    + intros i' a' Hi' Ha' (Hta' & _ & Hcov).
      rewrite (covered_cells_self _ _ Hself) in Hcov.
      assert (i' ∈ positions is_tiera 0 sites) as Hpos'.
      { rewrite Hsplit. apply elem_of_app. by left. }
      apply elem_of_positions in Hpos' as (a'' & _ & Ha'' & HA').
      rewrite Nat.sub_0_r, Ha' in Ha''. injection Ha'' as <-.
      by apply (Hfirst i' a' (Hl1 i' Hi') Ha' HA' Hta').
    + split; [done|]. split; [done|].
      by rewrite (covered_cells_self _ _ Hself).
  - intros k c Hk HB Halt.
    rewrite Hs, list_lookup_fmap, Hk. cbn. f_equal.
    apply fate_not_candidate. intros [[_ Hnotes] _]. done.
Qed.

(** C7. The pass returns as many features as it was given, and each one in
    its place: with the same geometry, with every property other than
    status, satisfied_by and satisfied_corridor_id as it was, identical to
    the input feature if that is a Tier-A feature or had a status other
    than CANDIDATE, and otherwise either identical or moved from status
    CANDIDATE to status SATISFIED. *)
Theorem coverage_pass_frame hexes sites out :
  main set_order hexes sites = Some out →
  length (out_sites out) = length sites
  ∧ ∀ j f,
      sites !! j = Some f →
      ∃ f',
        out_sites out !! j = Some f'
        ∧ site_geometry f' = site_geometry f
        ∧ (∀ k, k ≠ "status" → k ≠ "satisfied_by" →
                k ≠ "satisfied_corridor_id" →
                site_properties f' !! k = site_properties f !! k)
        ∧ (prop_of f "tier" = VStr "A" → f' = f)
        ∧ (prop_of f "status" ≠ VStr "CANDIDATE" → f' = f)
        ∧ (f' = f
           ∨ (prop_of f "status" = VStr "CANDIDATE"
              ∧ prop_of f' "status" = VStr "SATISFIED")).
Proof.
  intros (nm & Hnm & Hs & _)%main_inv. rewrite Hs.
  split; [by rewrite length_fmap|].
  intros j f Hj. exists (fate nm sites f).
  split; [by rewrite list_lookup_fmap, Hj|].
  destruct (fate_cases nm sites f)
    as [->|(Hst & i & a & _ & _ & (_ & Hcand & _) & ->)].
  - repeat split; try done. by left.
  - split; [done|]. split; [apply mark_other_properties|].
    split; [|split].
    + intros HA. by destruct (tiera_not_candidate f HA).
    + done.
    + right. split; [done|]. apply mark_status.
Qed.

(** C5. A second run of the pass, on the sites the first run wrote and the
    same hex cells, succeeds, writes the same sites, counts no candidate as
    satisfied, and gives the same rollup rows and the same number of
    remaining required sites as the first run. *)
Theorem coverage_pass_idempotent hexes sites out :
  main set_order hexes sites = Some out →
  ∃ out',
    main set_order hexes (out_sites out) = Some out'
    ∧ out_sites out' = out_sites out
    ∧ out_zone_stats out' = out_zone_stats out
    ∧ out_satisfied_required out' = 0
    ∧ out_remaining_required out' = out_remaining_required out.
Proof.
  intros (nm & Hnm & Hs & Hz & Hr & Hsort)%main_inv.
  set (s1 := out_sites out) in *.
  assert (positions is_tiera 0 s1 = positions is_tiera 0 sites) as HposA.
  { rewrite Hs. apply positions_fmap. intros f. unfold is_tiera.
    by rewrite fate_other_properties. }
  assert (positions is_required 0 s1 = positions is_required 0 sites)
    as HposR.
  { rewrite Hs. apply positions_fmap. intros f. unfold is_required.
    by rewrite !fate_other_properties. }
  assert (positions is_alt 0 s1 = positions is_alt 0 sites) as HposL.
  { rewrite Hs. apply positions_fmap. intros f. unfold is_alt.
    by rewrite !fate_other_properties. }
  assert (foldl (cover set_order nm
                   (tierb_candidates_by_cell (classify 0 s1 no_buckets)))
                (s1, 0, ∅) (positions is_tiera 0 s1)
          = (s1, 0, ∅)) as Hrun.
  { apply foldl_cover_skip. intros i a j g Hi Ha Hta Hvis Hg Hst.
    apply (elem_of_visited set_order set_order_perm nm s1) in Hvis
      as (g' & Hg' & Hcand & Hcell).
    rewrite Hg in Hg'. injection Hg' as <-.
    rewrite HposA in Hi.
    pose proof Hi as (a0 & _ & Ha0 & HA0)%elem_of_positions.
    rewrite Nat.sub_0_r in Ha0.
    assert (a = a0) as ->.
    { rewrite Hs, list_lookup_fmap, Ha0 in Ha. cbn in Ha.
      injection Ha as <-. apply fate_not_candidate.
      by apply tiera_not_candidate. }
    rewrite Hs, list_lookup_fmap in Hg.
    destruct (sites !! j) as [f0|] eqn:Hj; [|done]. cbn in Hg.
    injection Hg as <-.
    assert (fate nm sites f0 = f0) as Hsame.
    { destruct (fate_cases nm sites f0) as [?|(_ & ? & a' & _ & _ & _ & Hm)];
        [done|].
      rewrite Hm, mark_status in Hst. done. }
    rewrite Hsame in Hcand, Hcell.
    apply (reduce_covered nm sites f0 f0 (positions is_tiera 0 sites) i a0);
      [done|done|done|].
    exact Hst. }
  assert (zone_rollup s1 (classify 0 s1 no_buckets) = out_zone_stats out)
    as Hrollup.
  { rewrite Hz. unfold zone_rollup.
    by rewrite !required_features_classify, !alt_features_classify,
      !tiera_features_classify, HposA, HposR, HposL. }
  unfold main. rewrite Hnm. cbn [mbind option_bind].
  rewrite tiera_features_classify, Hrun. cbv beta iota zeta.
  rewrite Hrollup, Hsort.
  eexists. split; [done|].
  cbn [out_sites out_zone_stats out_satisfied_required
       out_remaining_required].
  split; [done|]. split; [done|]. split; [done|].
  rewrite Hr. by rewrite !required_features_classify, HposR.
Qed.

End CoverageTheorems.

Lemma elements_perm (s : gset key) : elements s ≡ₚ elements s.
Proof. done. Qed.

Lemma hexes_have_vertices feature :
  feature ∈ Samples.hexes →
  truthy (get (ApplyTierACoverage.hex_properties feature) "cell_id") = true →
  ∃ v, ring_vertex (ApplyTierACoverage.hex_geometry feature) v.
Proof.
  intros Hf _. unfold Samples.hexes in Hf.
  repeat (apply elem_of_cons in Hf as [->|Hf]);
    [..|by apply elem_of_nil in Hf];
    eexists; eexists; (split; apply elem_of_cons; left; reflexivity).
Qed.

Lemma contested_sites_zones f :
  f ∈ Samples.contested_sites →
  truthy (prop_of f "zone_id") = true →
  ∃ zone_id : string, prop_of f "zone_id" = VStr zone_id.
Proof.
  intros Hf _. unfold Samples.contested_sites in Hf.
  repeat (apply elem_of_cons in Hf as [->|Hf]);
    [..|by apply elem_of_nil in Hf]; eexists; reflexivity.
Qed.

(** The amended claim at a sample with three Tier-A sites: S_A_0001 in the
    far cell H9 comes first and does not reach H1; S_A_0002 in H2 and
    S_A_0003 in H3 both have H1 in their coverage sets.  The candidate in
    H1 is satisfied by S_A_0002, the earlier of the two, and the alternate
    in H1 is written back as it was. *)
Lemma coverage_first_writer_wins_witness :
  ∃ out b',
    ApplyTierACoverage.main elements Samples.hexes Samples.contested_sites
    = Some out
    ∧ ApplyTierACoverage.out_sites out !! 3%nat = Some b'
    ∧ prop_of b' "status" = VStr "SATISFIED"
    ∧ prop_of b' "satisfied_by" = VStr "S_A_0002"
    ∧ prop_of b' "satisfied_corridor_id" = VStr "C_I80"
    ∧ ApplyTierACoverage.out_sites out !! 4%nat = Some Samples.tierb_alt.
Proof.
  destruct (coverage_first_writer_wins elements elements_perm
              Samples.hexes Samples.contested_sites
              Samples.hexes_neighbor_map)
    as (out & Hout & Hfirst & Halt).
  - reflexivity.
  - exact hexes_have_vertices.
  - exact contested_sites_zones.
  - destruct (Hfirst 1%nat 3%nat Samples.tiera_h2 Samples.tierb_h1)
      as (b' & Hb' & Hstatus & Hby & Hcorridor).
    + reflexivity.
    + reflexivity.
    + reflexivity.
    + reflexivity.
    + reflexivity.
    + apply (bool_decide_unpack _). reflexivity.
    + reflexivity.
    + reflexivity.
    + apply (bool_decide_unpack _). reflexivity.
    + intros i' a' Hi' Ha' _ _.
      destruct i' as [|i']; [|lia]. injection Ha' as <-.
      apply (bool_decide_unpack _). reflexivity.
    + exists out, b'. split; [done|]. split; [done|]. split; [done|].
      split; [exact Hby|]. split; [exact Hcorridor|].
      by apply (Halt 4%nat Samples.tierb_alt).
Defined.

(** C1 (as stated) fails on an alternate: the Tier-B site S_B_0004 of the
    sample has status CANDIDATE and its cell H1 is the own cell of the
    Tier-A site S_A_0001, whose coverage set is its own cell together with
    its neighbors; the pass succeeds and writes S_B_0004 back as it was,
    status CANDIDATE and no satisfied_by. *)
Lemma alt_candidate_stays_candidate :
  Samples.sites !! 0%nat = Some Samples.tiera_h1
  ∧ prop_of Samples.tiera_h1 "tier" = VStr "A"
  ∧ ApplyTierACoverage.covered_cells Samples.hexes_neighbor_map
      (cell_key Samples.tiera_h1)
    = {[cell_key Samples.tiera_h1]}
      ∪ default ∅ (Samples.hexes_neighbor_map !! cell_key Samples.tiera_h1)
  ∧ Samples.sites !! 4%nat = Some Samples.tierb_alt
  ∧ prop_of Samples.tierb_alt "tier" = VStr "B"
  ∧ prop_of Samples.tierb_alt "status" = VStr "CANDIDATE"
  ∧ cell_key Samples.tierb_alt
    ∈ ApplyTierACoverage.covered_cells Samples.hexes_neighbor_map
        (cell_key Samples.tiera_h1)
  ∧ ApplyTierACoverage.main elements Samples.hexes Samples.sites
    = Some Samples.covered
  ∧ ApplyTierACoverage.out_sites Samples.covered !! 4%nat
    = Some Samples.tierb_alt
  ∧ prop_of Samples.tierb_alt "satisfied_by" = VNone.
Proof.
  repeat (split; [reflexivity|]). reflexivity.
Qed.

(** Zone ids of both kinds cannot be ordered: on two sites of zone 7, one
    written as a string and one as a number, the run raises when it lists
    the rollup rows, before the sites are written back. *)
Lemma mixed_zone_ids_abort :
  ApplyTierACoverage.main elements Samples.hexes Samples.mixed_zone_sites
  = None.
Proof. reflexivity. Qed.

(** The frame property at the sample. *)
Lemma coverage_pass_frame_witness :
  length (ApplyTierACoverage.out_sites Samples.covered)
  = length Samples.sites
  ∧ ∀ j f,
      Samples.sites !! j = Some f →
      ∃ f',
        ApplyTierACoverage.out_sites Samples.covered !! j = Some f'
        ∧ ApplyTierACoverage.site_geometry f'
          = ApplyTierACoverage.site_geometry f
        ∧ (∀ k, k ≠ "status" → k ≠ "satisfied_by" →
                k ≠ "satisfied_corridor_id" →
                ApplyTierACoverage.site_properties f' !! k
                = ApplyTierACoverage.site_properties f !! k)
        ∧ (prop_of f "tier" = VStr "A" → f' = f)
        ∧ (prop_of f "status" ≠ VStr "CANDIDATE" → f' = f)
        ∧ (f' = f
           ∨ (prop_of f "status" = VStr "CANDIDATE"
              ∧ prop_of f' "status" = VStr "SATISFIED")).
Proof.
  apply (coverage_pass_frame elements elements_perm Samples.hexes).
  reflexivity.
Defined.

(** Idempotence at the sample. *)
Lemma coverage_pass_idempotent_witness :
  ∃ out',
    ApplyTierACoverage.main elements Samples.hexes
      (ApplyTierACoverage.out_sites Samples.covered)
    = Some out'
    ∧ ApplyTierACoverage.out_sites out'
      = ApplyTierACoverage.out_sites Samples.covered
    ∧ ApplyTierACoverage.out_zone_stats out'
      = ApplyTierACoverage.out_zone_stats Samples.covered
    ∧ ApplyTierACoverage.out_satisfied_required out' = 0%nat
    ∧ ApplyTierACoverage.out_remaining_required out'
      = ApplyTierACoverage.out_remaining_required Samples.covered.
Proof.
  apply (coverage_pass_idempotent elements elements_perm Samples.hexes
           Samples.sites).
  reflexivity.
Defined.

(** * Properties of the sampling of corridor lines *)

Section Sampling.
Import Geo SeedTierA.
Local Open Scope R_scope.

(** What the walk of [_point_at_distance] finds, in the tool's own terms:
    [p] lies on a segment [a]-[b] of positive length that starts [walked]
    miles into the line, with [walked <= d <= walked + length], at the
    fraction [(d - walked) / length] of the way from [a] to [b]. *)
Definition at_arc_length (coords : list (R * R)) (d : R) (p : R * R)
  : Prop :=
  ∃ pre a b post,
    coords = pre ++ a :: b :: post
    ∧ 0 < _segment_len_mi a b
    ∧ _line_length_mi (pre ++ [a]) <= d
      <= _line_length_mi (pre ++ [a]) + _segment_len_mi a b
    ∧ p = _interpolate_on_segment a b
            ((d - _line_length_mi (pre ++ [a])) / _segment_len_mi a b).

Lemma segment_len_nonneg (a b : R * R) : 0 <= _segment_len_mi a b.
Proof. destruct a, b. apply sqrt_pos. Qed.

Lemma line_length_from_acc (coords : list (R * R)) (total : R) :
  _line_length_from coords total = total + _line_length_from coords 0.
Proof.
  revert total. induction coords as [|a rest IH]; intros total.
  - cbn. lra.
  - destruct rest as [|b rest]; [cbn; lra|].
    change (_line_length_from (a :: b :: rest) total)
      with (_line_length_from (b :: rest) (total + _segment_len_mi a b)).
    change (_line_length_from (a :: b :: rest) 0)
      with (_line_length_from (b :: rest) (0 + _segment_len_mi a b)).
    rewrite (IH (total + _)), (IH (0 + _)). lra.
Qed.

Lemma line_length_cons (a b : R * R) (rest : list (R * R)) :
  _line_length_mi (a :: b :: rest)
  = _segment_len_mi a b + _line_length_mi (b :: rest).
Proof.
  unfold _line_length_mi.
  change (_line_length_from (a :: b :: rest) 0)
    with (_line_length_from (b :: rest) (0 + _segment_len_mi a b)).
  rewrite line_length_from_acc. lra.
Qed.

Lemma line_length_nonneg (coords : list (R * R)) :
  0 <= _line_length_mi coords.
Proof.
  induction coords as [|a rest IH]; [cbn; lra|].
  destruct rest as [|b rest]; [cbn; lra|].
  rewrite line_length_cons. pose proof (segment_len_nonneg a b). lra.
Qed.

Lemma interpolate_start (a b : R * R) : _interpolate_on_segment a b 0 = a.
Proof.
  destruct a. unfold _interpolate_on_segment. cbn. f_equal; lra.
Qed.

Lemma point_at_distance_from_cons (a b : R * R) (rest : list (R * R))
    (walked d : R) :
  _point_at_distance_from (a :: b :: rest) walked d
  = if Rge_dec (walked + _segment_len_mi a b) d
    then Some (_interpolate_on_segment a b
                 (if Req_dec_T (_segment_len_mi a b) 0 then 0
                  else (d - walked) / _segment_len_mi a b))
    else _point_at_distance_from (b :: rest) (walked + _segment_len_mi a b) d.
Proof. done. Qed.

Lemma point_at_distance_from_spec (coords : list (R * R)) (walked d : R) :
  walked < d <= walked + _line_length_mi coords →
  ∃ p pre a b post,
    _point_at_distance_from coords walked d = Some p
    ∧ coords = pre ++ a :: b :: post
    ∧ 0 < _segment_len_mi a b
    ∧ walked + _line_length_mi (pre ++ [a]) <= d
      <= walked + _line_length_mi (pre ++ [a]) + _segment_len_mi a b
    ∧ p = _interpolate_on_segment a b
            ((d - (walked + _line_length_mi (pre ++ [a])))
             / _segment_len_mi a b).
Proof.
  revert walked. induction coords as [|a rest IH]; intros walked Hd.
  { cbn in Hd. lra. }
  destruct rest as [|b rest]; [cbn in Hd; lra|].
  rewrite line_length_cons in Hd. rewrite point_at_distance_from_cons.
  destruct (Rge_dec (walked + _segment_len_mi a b) d) as [Hge|Hlt].
  - assert (0 < _segment_len_mi a b) as Hpos by lra.
    destruct (Req_dec_T (_segment_len_mi a b) 0) as [?|_]; [lra|].
    eexists _, [], a, b, rest. split; [done|]. split; [done|].
    split; [done|]. cbn. split; [lra|]. do 2 f_equal. lra.
  - destruct (IH (walked + _segment_len_mi a b))
      as (p & pre & a' & b' & post & Hp & Hsplit & Hpos & Hin & ->); [lra|].
    assert (_line_length_mi ((a :: pre) ++ [a'])
            = _segment_len_mi a b + _line_length_mi (pre ++ [a'])) as Hlen.
    { destruct pre as [|b0 pre].
      - injection Hsplit as <- _. cbn. lra.
      - injection Hsplit as <- _. cbn [app]. by rewrite line_length_cons. }
    exists (_interpolate_on_segment a' b'
              ((d - (walked + _line_length_mi ((a :: pre) ++ [a'])))
               / _segment_len_mi a' b')),
      (a :: pre), a', b', post.
    split.
    { rewrite Hp, Hlen. do 3 f_equal. lra. }
    split; [by rewrite Hsplit|]. split; [done|]. rewrite Hlen.
    split; [lra|done].
Qed.

Lemma point_at_distance_spec (coords : list (R * R)) (d : R) :
  0 < d <= _line_length_mi coords →
  ∃ p, _point_at_distance coords d = Some p ∧ at_arc_length coords d p.
Proof.
  intros Hd.
  destruct (point_at_distance_from_spec coords 0 d)
    as (p & pre & a & b & post & Hp & Hsplit & Hpos & Hin & ->); [lra|].
  eexists. split; [exact Hp|]. exists pre, a, b, post.
  split; [done|]. split; [done|]. split; [lra|]. do 2 f_equal. lra.
Qed.

Lemma point_at_distance_zero (first : R * R) (rest : list (R * R)) :
  _point_at_distance (first :: rest) 0 = Some first.
Proof.
  unfold _point_at_distance. destruct rest as [|b rest]; [done|].
  rewrite point_at_distance_from_cons.
  pose proof (segment_len_nonneg first b).
  destruct (Rge_dec _ _) as [_|?]; [|lra].
  assert ((if Req_dec_T (_segment_len_mi first b) 0 then 0
           else (0 - 0) / _segment_len_mi first b) = 0) as ->.
  { destruct (Req_dec_T _ _); [done|]. unfold Rdiv. lra. }
  by rewrite interpolate_start.
Qed.

Lemma fraction_interior (n : Z) (i : nat) :
  (1 <= i <= Z.to_nat n)%nat → 0 < INR i / IZR (n + 1) < 1.
Proof.
  intros Hi. assert (0 < INR i) as Hi0 by (apply lt_0_INR; lia).
  assert (INR i < IZR (n + 1)) as Hlt.
  { rewrite INR_IZR_INZ. apply IZR_lt. lia. }
  split.
  - apply Rdiv_lt_0_compat; lra.
  - apply (Rmult_lt_reg_r (IZR (n + 1))); [lra|].
    unfold Rdiv. rewrite Rmult_assoc, Rinv_l by lra. lra.
Qed.

(** ** The sampling rule in the words of the specification

    Degrees are converted to miles locally: a degree of latitude is 69
    miles and a degree of longitude 69 times the cosine of the latitude,
    taken in the middle of the segment. *)
Definition miles_between (a b : R * R) : R :=
  let latitude := (a.2 + b.2) / 2 in
  let east := (b.1 - a.1) * (69 * cos (latitude * PI / 180)) in
  let north := (b.2 - a.2) * 69 in
  R_sqrt.sqrt (Rsqr east + Rsqr north).

(** The arc length of a line: the miles of its segments, added up. *)
Fixpoint arc_length (line : list (R * R)) : R :=
  match line with
  | [] => 0
  | a :: rest =>
      match rest with
      | [] => 0
      | b :: _ => miles_between a b + arc_length rest
      end
  end.

(** The point at the fraction [t] of the way from [a] to [b]. *)
Definition point_between (a b : R * R) (t : R) : R * R :=
  ((1 - t) * a.1 + t * b.1, (1 - t) * a.2 + t * b.2).

(** [p] is the point [d] miles into the line: it lies between two
    consecutive vertices [a] and [b] a positive distance apart, of which
    [a] is [walked <= d] miles into the line and [b] at least [d] miles,
    at the fraction [(d - walked) / miles_between a b] of the way. *)
Definition miles_into (line : list (R * R)) (d : R) (p : R * R) : Prop :=
  ∃ before a b after,
    line = before ++ a :: b :: after
    ∧ 0 < miles_between a b
    ∧ arc_length (before ++ [a]) <= d
      <= arc_length (before ++ [a]) + miles_between a b
    ∧ p = point_between a b
            ((d - arc_length (before ++ [a])) / miles_between a b).

(** The tool's functions compute these. *)
Lemma segment_len_miles (a b : R * R) :
  _segment_len_mi a b = miles_between a b.
Proof.
  destruct a as [lon1 lat1], b as [lon2 lat2].
  unfold _segment_len_mi, miles_between, _deg_to_miles_lon,
    _deg_to_miles_lat, radians, Rsqr. cbn [fst snd]. f_equal.
  replace ((lat1 + lat2) / 2 * PI / 180)
    with ((lat1 + lat2) / 2 * (PI / 180)) by lra.
  ring.
Qed.

Lemma line_length_arc (coords : list (R * R)) :
  _line_length_mi coords = arc_length coords.
Proof.
  induction coords as [|a rest IH]; [done|].
  destruct rest as [|b rest]; [done|].
  rewrite line_length_cons, IH, segment_len_miles. done.
Qed.

Lemma interpolate_between (a b : R * R) (t : R) :
  _interpolate_on_segment a b t = point_between a b t.
Proof.
  unfold _interpolate_on_segment, point_between. f_equal; ring.
Qed.

Lemma at_arc_length_miles_into (coords : list (R * R)) (d : R) (p : R * R) :
  at_arc_length coords d p → miles_into coords d p.
Proof.
  intros (pre & a & b & post & -> & Hpos & Hd & ->).
  exists pre, a, b, post.
  rewrite line_length_arc, segment_len_miles in Hd.
  rewrite segment_len_miles in Hpos.
  rewrite interpolate_between, line_length_arc, segment_len_miles. done.
Qed.

Lemma arc_length_cons (a b : R * R) (rest : list (R * R)) :
  arc_length (a :: b :: rest) = miles_between a b + arc_length (b :: rest).
Proof. done. Qed.

Lemma miles_between_nonneg (a b : R * R) : 0 <= miles_between a b.
Proof. apply sqrt_pos. Qed.

Lemma arc_length_nonneg (line : list (R * R)) : 0 <= arc_length line.
Proof. rewrite <- line_length_arc. apply line_length_nonneg. Qed.

(** Away from the poles, two positions no miles apart are one position. *)
Lemma miles_between_zero (a b : R * R) :
  -90 < a.2 < 90 → -90 < b.2 < 90 → miles_between a b = 0 → a = b.
Proof.
  destruct a as [lon1 lat1], b as [lon2 lat2]. cbn [fst snd].
  intros Ha Hb Hzero. unfold miles_between in Hzero. cbn [fst snd] in Hzero.
  cbv zeta in Hzero.
  apply sqrt_eq_0 in Hzero;
    [|apply Rplus_le_le_0_compat; apply Rle_0_sqr].
  apply Rplus_sqr_eq_0 in Hzero as [Heast Hnorth].
  assert (0 < cos ((lat1 + lat2) / 2 * PI / 180)) as Hcos.
  { pose proof PI_RGT_0. apply cos_gt_0; nra. }
  assert (lat2 = lat1) as -> by lra.
  apply Rmult_integral in Heast as [?|?]; [|lra].
  f_equal. lra.
Qed.

Lemma arc_length_zero (first : R * R) (rest : list (R * R)) :
  (∀ p, p ∈ first :: rest → -90 < p.2 < 90) →
  arc_length (first :: rest) = 0 ↔ ∀ p, p ∈ first :: rest → p = first.
Proof.
  revert first. induction rest as [|b rest IH]; intros first Hlat.
  - split; [|done]. intros _ p ->%list_elem_of_singleton. done.
  - rewrite arc_length_cons.
    pose proof (miles_between_nonneg first b).
    pose proof (arc_length_nonneg (b :: rest)).
    assert (∀ p, p ∈ b :: rest → -90 < p.2 < 90) as Hlat'.
    { intros p Hp. apply Hlat. by right. }
    specialize (IH b Hlat'). split.
    + intros Hzero.
      assert (miles_between first b = 0) as Hseg by lra.
      apply miles_between_zero in Hseg as ->;
        [|apply Hlat; by left|apply Hlat; right; by left].
      intros p [->|Hp]%elem_of_cons; [done|].
      apply IH; [lra|done].
    + intros Hall.
      assert (b = first) as -> by (apply Hall; right; by left).
      assert (arc_length (first :: rest) = 0) as Hrest.
      { apply IH. intros p Hp. apply Hall. by right. }
      rewrite Hrest.
      unfold miles_between. cbv zeta.
      replace (first.1 - first.1) with 0 by lra.
      replace (first.2 - first.2) with 0 by lra.
      rewrite !Rmult_0_l, Rsqr_0, Rplus_0_r.
      replace (0 + 0) with 0 by lra. apply R_sqrt.sqrt_0.
Qed.


End Sampling.

Lemma meridian_line_latitudes (p : R * R) :
  p ∈ Samples.meridian_line → (-90 < p.2 < 90)%R.
Proof.
  unfold Samples.meridian_line. intros Hp.
  repeat (apply elem_of_cons in Hp as [->|Hp]);
    [cbn; lra|cbn; lra|by apply elem_of_nil in Hp].
Qed.

Lemma meridian_line_miles :
  miles_between Samples.meridian_start Samples.meridian_end = 10%R.
Proof.
  unfold miles_between, Samples.meridian_start, Samples.meridian_end, Rsqr.
  cbn [fst snd]. cbv zeta.
  match goal with
  | |- R_sqrt.sqrt ?x = _ =>
      replace x with (10 * 10)%R by (field_simplify; lra)
  end.
  apply sqrt_square. lra.
Qed.

Lemma miles_up_the_meridian (d : R) :
  (0 <= d)%R → miles_between (0, 0)%R (0, d / 69)%R = d.
Proof.
  intros Hd. unfold miles_between, Rsqr. cbn [fst snd]. cbv zeta.
  match goal with
  | |- R_sqrt.sqrt ?x = _ =>
      replace x with (d * d)%R by (field_simplify; lra)
  end.
  by apply sqrt_square.
Qed.


(** * Facts shared by the two seeding passes *)

Section SeedingFacts.
Import Geo.

Definition site_ids (fs : list feature) : list value :=
  (λ f, get (properties f) "site_id") <$> fs.

(** The features [fs] carry the identifiers [prefix] followed by the
    numbers [seq_no], [seq_no + 1], ... in four digits, in this order. *)
Definition numbered (prefix : string) (seq_no : nat) (fs : list feature)
  : Prop :=
  site_ids fs
  = (λ k, VStr (prefix +:+ zero_pad 4 k)) <$> seq seq_no (length fs).

Lemma numbered_snoc (prefix : string) (seq_no : nat) (fs : list feature) f :
  numbered prefix seq_no fs →
  get (properties f) "site_id"
  = VStr (prefix +:+ zero_pad 4 (seq_no + length fs)) →
  numbered prefix seq_no (fs ++ [f]).
Proof.
  unfold numbered, site_ids. intros Hfs Hf.
  rewrite fmap_app, length_app, seq_app, fmap_app, Hfs. cbn. by rewrite Hf.
Qed.

(** The state [(seeded, seq)] of a seeding loop that started with no
    feature and the counter [s0]. *)
Definition seeded_from (prefix : string) (P : feature → Prop) (s0 : nat)
    (st : list feature * nat) : Prop :=
  st.2 = (s0 + length st.1)%nat
  ∧ numbered prefix s0 st.1
  ∧ Forall P st.1.

Lemma seeded_from_snoc (prefix : string) (P : feature → Prop) (s0 : nat)
    seeded (seq_no : nat) f :
  seeded_from prefix P s0 (seeded, seq_no) →
  get (properties f) "site_id" = VStr (prefix +:+ zero_pad 4 seq_no) →
  P f →
  seeded_from prefix P s0 (seeded ++ [f], S seq_no).
Proof.
  intros (Hseq & Hnum & Hall) Hid Hf. cbn in Hseq, Hnum, Hall.
  split; [|split]; cbn [fst snd].
  - rewrite length_app. cbn. lia.
  - apply numbered_snoc; [done|]. by rewrite Hid, Hseq.
  - apply Forall_app. split; [done|]. by apply Forall_singleton.
Qed.

Lemma foldl_option_inv {A B : Type} (f : option A → B → option A)
    (I : A → Prop) :
  (∀ b, f None b = None) →
  (∀ a b a', I a → f (Some a) b = Some a' → I a') →
  ∀ (l : list B) a a', I a → foldl f (Some a) l = Some a' → I a'.
Proof.
  intros Hnone Hstep l. induction l as [|b l IH]; intros a a' Ha Hrun.
  - by injection Hrun as <-.
  - cbn [foldl] in Hrun. destruct (f (Some a) b) as [a1|] eqn:Hb.
    + by apply (IH a1 a'); [apply (Hstep a b)|].
    + assert (foldl f None l = None) as Hl.
      { clear -Hnone. induction l as [|b' l IH]; [done|].
        cbn [foldl]. by rewrite Hnone. }
      by rewrite Hl in Hrun.
Qed.

End SeedingFacts.

(** * Properties of Tier-B seeding *)

Section TierBSeeding.
Import Geo SeedTierB.
Context {text : PyText}.

Definition tierb_candidate (f : feature) : Prop :=
  get (properties f) "tier" = VStr "B"
  ∧ get (properties f) "status" = VStr "CANDIDATE".

Lemma tierb_site_properties_site_id (seq_no i : nat) (cell_id zone_id : value)
    (is_alt : bool) :
  get (site_properties seq_no i cell_id zone_id is_alt) "site_id"
  = VStr (_new_site_id seq_no).
Proof. reflexivity. Qed.

Lemma tierb_site_properties_tier (seq_no i : nat) (cell_id zone_id : value)
    (is_alt : bool) :
  get (site_properties seq_no i cell_id zone_id is_alt) "tier" = VStr "B"
  ∧ get (site_properties seq_no i cell_id zone_id is_alt) "status"
    = VStr "CANDIDATE".
Proof. split; reflexivity. Qed.

Lemma tierb_seed_point_inv (s0 : nat) (cell_id zone_id : value) (req : Z)
    (pts : list (R * R)) st (i : nat) st' :
  seeded_from "S_B_" tierb_candidate s0 st →
  seed_point cell_id zone_id req pts (Some st) i = Some st' →
  seeded_from "S_B_" tierb_candidate s0 st'.
Proof.
  destruct st as [seeded seq_no]. intros Hinv Hstep.
  unfold seed_point in Hstep. cbn [mbind option_bind] in Hstep.
  destruct (pts !! i) as [pt|]; [|done]. cbn [mbind option_bind] in Hstep.
  injection Hstep as <-. apply seeded_from_snoc; [done| |].
  - apply tierb_site_properties_site_id.
  - apply tierb_site_properties_tier.
Qed.

Lemma tierb_seed_hex_inv (s0 : nat) seeded (seq_no : nat) by_zone hf
    seeded' (seq_no' : nat) by_zone' :
  seeded_from "S_B_" tierb_candidate s0 (seeded, seq_no) →
  seed_hex (seeded, seq_no, by_zone) hf = Some (seeded', seq_no', by_zone') →
  seeded_from "S_B_" tierb_candidate s0 (seeded', seq_no').
Proof.
  intros Hinv Hrun. unfold seed_hex in Hrun. cbv beta iota zeta in Hrun.
  case_decide; [discriminate Hrun|]. case_decide; [discriminate Hrun|].
  destruct (py_int (py_or (get_or _ "tierB_sites_required" _) _))
    as [req|]; [|discriminate Hrun].
  cbn [mbind option_bind] in Hrun.
  destruct (py_int _) as [alt|]; [|discriminate Hrun].
  cbn [mbind option_bind] in Hrun.
  destruct (_ =? _)%Z; [by injection Hrun as <- <- _|].
  destruct (_get_centroid _) as [[lon0 lat0]|]; [|discriminate Hrun].
  cbn [mbind option_bind] in Hrun.
  destruct (foldl _ _ _) as [[seeded1 seq1]|] eqn:Hfold;
    [|discriminate Hrun].
  cbn [mbind option_bind] in Hrun. injection Hrun as <- <- _.
  eapply (foldl_option_inv _ (seeded_from "S_B_" tierb_candidate s0)); [| |exact Hinv|exact Hfold].
  - done.
  - intros a b a'. apply tierb_seed_point_inv.
Qed.

Lemma tierb_seed_hexes_inv (s0 : nat) hex_features seeded (seq_no : nat) by_zone
    seeded' (seq_no' : nat) by_zone' :
  seeded_from "S_B_" tierb_candidate s0 (seeded, seq_no) →
  seed_hexes hex_features (seeded, seq_no, by_zone)
  = Some (seeded', seq_no', by_zone') →
  seeded_from "S_B_" tierb_candidate s0 (seeded', seq_no').
Proof.
  revert seeded seq_no by_zone.
  induction hex_features as [|hf rest IH]; intros seeded seq_no by_zone Hinv.
  - cbn. by intros [= <- <- _].
  - cbn [seed_hexes]. intros Hrun.
    destruct (seed_hex _ hf) as [[[seeded1 seq1] by_zone1]|] eqn:Hhf;
      [|discriminate Hrun].
    cbn [mbind option_bind] in Hrun. eapply IH; [|exact Hrun]. by eapply tierb_seed_hex_inv.
Qed.

(** C10. A run of the Tier-B seeding pass that returns gives the same
    result whatever the sites file held before, the result of a run on an
    empty sites file; the sites it writes are exactly the features it seeded,
    each of tier B and status CANDIDATE, and their site_ids are S_B_0001,
    S_B_0002, ... in the order written. *)
Theorem tierb_seeding_replaces_sites (hex_features existing : list feature)
    out :
  main hex_features existing = Some out →
  main hex_features existing = main hex_features []
  ∧ out_sites out = out_seeded out
  ∧ (∀ f, f ∈ out_sites out →
          get (properties f) "tier" = VStr "B"
          ∧ get (properties f) "status" = VStr "CANDIDATE")
  ∧ site_ids (out_sites out)
    = (λ k, VStr ("S_B_" +:+ zero_pad 4 k))
        <$> seq 1 (length (out_sites out)).
Proof.
  intros Hrun. split; [by destruct hex_features|].
  unfold main, main_with in Hrun. destruct hex_features as [|hf rest]; [done|].
  cbn [REPLACE_SITES_FILE negb mbind option_bind] in Hrun.
  destruct (seed_hexes _ _) as [[[seeded seq_no] by_zone]|] eqn:Hseed;
    [|discriminate Hrun].
  cbn [mbind option_bind] in Hrun. injection Hrun as <-. cbn [out_sites out_seeded].
  split; [done|].
  apply (tierb_seed_hexes_inv 1) in Hseed as (_ & Hnum & Hall); [|done].
  cbn in Hnum, Hall. split; [|done].
  intros f Hf. by apply (proj1 (Forall_forall _ _) Hall).
Qed.

End TierBSeeding.

(** The theorem at two scored cells, with a Tier-A site in the sites file. *)
Lemma tierb_seeding_replaces_sites_witness :
  SeedTierB.main (H := no_text) Samples.scored_hexes [Samples.old_site]
  = SeedTierB.main (H := no_text) Samples.scored_hexes []
  ∧ SeedTierB.out_sites Samples.tierb_seeded
    = SeedTierB.out_seeded Samples.tierb_seeded
  ∧ (∀ f, f ∈ SeedTierB.out_sites Samples.tierb_seeded →
          get (Geo.properties f) "tier" = VStr "B"
          ∧ get (Geo.properties f) "status" = VStr "CANDIDATE")
  ∧ site_ids (SeedTierB.out_sites Samples.tierb_seeded)
    = (λ k, VStr ("S_B_" +:+ zero_pad 4 k))
        <$> seq 1 (length (SeedTierB.out_sites Samples.tierb_seeded)).
Proof.
  apply (tierb_seeding_replaces_sites (text := no_text)).
  reflexivity.
Defined.


(** * Properties of Tier-A seeding *)

Section TierASeeding.
Import Geo SeedTierA.
Context {text : PyText}.

(** The point lies outside the polygon of every entry of the index. *)
Definition outside_every_hex (pt : R * R)
    (hex_index : list (string * string * list (list (R * R)))) : Prop :=
  Forall (λ entry, _point_in_polygon pt entry.2 = Some false) hex_index.

Lemma find_hex_outside (pt : R * R)
    (hex_index : list (string * string * list (list (R * R)))) :
  _find_hex_for_point pt hex_index = Some None
  ↔ outside_every_hex pt hex_index.
Proof.
  unfold outside_every_hex.
  induction hex_index as [|[[cell_id zone_id] poly] rest IH].
  - split; [constructor|done].
  - cbn [_find_hex_for_point]. rewrite Forall_cons. cbn [snd].
    destruct (_point_in_polygon pt poly) as [[]|]; cbn [mbind option_bind].
    + split; [done|]. by intros [[=] _].
    + rewrite IH. tauto.
    + split; [done|]. by intros [[=] _].
Qed.

Lemma tiera_site_properties_site_id (seq_no i : nat)
    (cell_id zone_id : string) (corridor_id : value) (is_alt : bool) :
  get (SeedTierA.site_properties seq_no i cell_id zone_id corridor_id is_alt)
      "site_id"
  = VStr ("S_A_" +:+ zero_pad 4 seq_no).
Proof. reflexivity. Qed.

Lemma tiera_seed_point_inv (s0 : nat)
    (hex_index : list (string * string * list (list (R * R))))
    (corridor_id : value) (required : Z) (pts : list (R * R)) st (i : nat)
    st' :
  seeded_from "S_A_" (λ _, True) s0 st →
  SeedTierA.seed_point hex_index corridor_id required pts (Some st) i
  = Some st' →
  seeded_from "S_A_" (λ _, True) s0 st'.
Proof.
  destruct st as [seeded seq_no]. intros Hinv Hstep.
  unfold SeedTierA.seed_point in Hstep. cbn [mbind option_bind] in Hstep.
  destruct (pts !! i) as [pt|]; [|done]. cbn [mbind option_bind] in Hstep.
  destruct (_find_hex_for_point pt hex_index) as [[[cell_id zone_id]|]|];
    cbn [mbind option_bind] in Hstep; [| |done].
  - injection Hstep as <-. apply seeded_from_snoc; [done| |done].
    apply tiera_site_properties_site_id.
  - by injection Hstep as <-.
Qed.

Lemma seed_corridor_inv (s0 : nat)
    (hex_index : list (string * string * list (list (R * R))))
    seeded (seq_no : nat) rollup c seeded' (seq_no' : nat) rollup' :
  seeded_from "S_A_" (λ _, True) s0 (seeded, seq_no) →
  seed_corridor hex_index (seeded, seq_no, rollup) c
  = Some (seeded', seq_no', rollup') →
  seeded_from "S_A_" (λ _, True) s0 (seeded', seq_no').
Proof.
  intros Hinv Hrun. unfold seed_corridor in Hrun.
  cbv beta iota zeta in Hrun.
  destruct (geometry_of c) as [| coords | | |]; try discriminate Hrun.
  destruct (py_int (py_or (get_or _ "tierA_target_sites_min" _) _))
    as [tmin|]; [|discriminate Hrun].
  cbn [mbind option_bind] in Hrun.
  destruct (py_int _) as [tmax|]; [|discriminate Hrun].
  cbn [mbind option_bind] in Hrun.
  case_decide; [discriminate Hrun|].
  destruct (_ =? _)%Z; [by injection Hrun as <- <- _|].
  destruct (_sample_points_along_line _ _) as [pts|]; [|discriminate Hrun].
  cbn [mbind option_bind] in Hrun.
  destruct (foldl _ _ _) as [[seeded1 seq1]|] eqn:Hfold;
    [|discriminate Hrun].
  cbn [mbind option_bind] in Hrun. injection Hrun as <- <- _.
  eapply (foldl_option_inv _ (seeded_from "S_A_" (λ _, True) s0));
    [| |exact Hinv|exact Hfold].
  - done.
  - intros a b a'. apply tiera_seed_point_inv.
Qed.

Lemma seed_corridors_inv (s0 : nat)
    (hex_index : list (string * string * list (list (R * R))))
    corridors seeded (seq_no : nat) rollup seeded' (seq_no' : nat) rollup' :
  seeded_from "S_A_" (λ _, True) s0 (seeded, seq_no) →
  seed_corridors hex_index corridors (seeded, seq_no, rollup)
  = Some (seeded', seq_no', rollup') →
  seeded_from "S_A_" (λ _, True) s0 (seeded', seq_no').
Proof.
  revert seeded seq_no rollup.
  induction corridors as [|c rest IH]; intros seeded seq_no rollup Hinv.
  - cbn. by intros [= <- <- _].
  - cbn [seed_corridors]. intros Hrun.
    destruct (seed_corridor _ _ c) as [[[seeded1 seq1] rollup1]|] eqn:Hc;
      [|discriminate Hrun].
    cbn [mbind option_bind] in Hrun. eapply IH; [|exact Hrun].
    by eapply seed_corridor_inv.
Qed.

(** C8. In a run of the Tier-A seeding pass that returns, the sites written
    are the sites found that are not Tier-A sites, followed by the seeded
    ones; the site_ids of the seeded sites are S_A_0001, S_A_0002, ... in the
    order seeded; and the turn of a sampled point that lies outside the
    polygon of every indexed hex cell raises nothing and leaves the seeded
    list and the sequence counter as they were. *)
Theorem dropped_point_consumes_no_site_id
    (corridors hex_features existing : list feature) out :
  SeedTierA.main corridors hex_features existing = Some out →
  SeedTierA.out_sites out
  = filter (λ f, get (properties f) "tier" ≠ VStr "A") existing
    ++ SeedTierA.out_seeded out
  ∧ site_ids (SeedTierA.out_seeded out)
    = (λ k, VStr ("S_A_" +:+ zero_pad 4 k))
        <$> seq 1 (length (SeedTierA.out_seeded out))
  ∧ ∀ (pt : R * R) (corridor_id : value) (required : Z)
      (pts : list (R * R)) seeded (seq_no i : nat),
      pts !! i = Some pt →
      outside_every_hex pt (_build_hex_index hex_features) →
      SeedTierA.seed_point (_build_hex_index hex_features) corridor_id
        required pts (Some (seeded, seq_no)) i
      = Some (seeded, seq_no).
Proof.
  intros Hrun. unfold SeedTierA.main in Hrun.
  assert (∃ seeded seq_no rollup,
            seed_corridors (_build_hex_index hex_features) corridors
              ([], 1%nat, ∅)
            = Some (seeded, seq_no, rollup)
            ∧ out = SeedTierA.Outcome
                      (filter (λ f, get (properties f) "tier" ≠ VStr "A")
                              existing ++ seeded)
                      seeded rollup)
    as (seeded & seq_no & rollup & Hseed & ->).
  { destruct corridors, hex_features; try discriminate Hrun.
    destruct (seed_corridors _ _ _) as [[[seeded seq_no] rollup]|];
      [|discriminate Hrun].
    cbn [mbind option_bind] in Hrun. injection Hrun as <-. by eauto. }
  cbn [SeedTierA.out_sites SeedTierA.out_seeded].
  split; [done|]. split.
  - by apply (seed_corridors_inv 1) in Hseed as (_ & Hnum & _).
  - intros pt corridor_id required pts seeded0 seq0 i Hi Hout.
    apply find_hex_outside in Hout. unfold SeedTierA.seed_point.
    cbn [mbind option_bind]. rewrite Hi. cbn [mbind option_bind].
    by rewrite Hout.
Qed.

End TierASeeding.

(** The sample run: the point of corridor C2 is dropped. *)
Ltac decide_reals :=
  repeat match goal with
  | |- context [Rgt_dec ?a ?b] =>
      destruct (Rgt_dec a b); [try (exfalso; lra)|try (exfalso; lra)]
  | |- context [Rlt_dec ?a ?b] =>
      destruct (Rlt_dec a b); [try (exfalso; lra)|try (exfalso; lra)]
  | |- context [Req_dec_T ?a ?b] =>
      destruct (Req_dec_T a b); [try (exfalso; lra)|try (exfalso; lra)]
  end.

Lemma origin_in_square :
  SeedTierA._point_in_polygon (0, 0)%R [Samples.square] = Some true.
Proof.
  unfold SeedTierA._point_in_polygon, SeedTierA._point_in_ring,
    Samples.square.
  cbn [SeedTierA._point_in_ring_from]. decide_reals. reflexivity.
Qed.

Lemma far_point_off_square :
  SeedTierA._point_in_polygon (5, 5)%R [Samples.square] = Some false.
Proof.
  unfold SeedTierA._point_in_polygon, SeedTierA._point_in_ring,
    Samples.square.
  cbn [SeedTierA._point_in_ring_from]. decide_reals. reflexivity.
Qed.

Lemma seed_corridor_single {text : PyText}
    (hex_index : list (string * string * list (list (R * R))))
    seeded (seq_no : nat) rollup c (pt : R * R) (cid : string) :
  Geo.geometry_of c = Geo.LineString [pt] →
  get (Geo.properties c) "corridor_id" = VStr cid →
  py_int (py_or (get_or (Geo.properties c) "tierA_target_sites_min" (VInt 0))
                (VInt 0)) = Some 1%Z →
  py_int (py_or (get_or (Geo.properties c) "tierA_target_sites_max" (VInt 0))
                (VInt 0)) = Some 1%Z →
  SeedTierA.seed_corridor hex_index (seeded, seq_no, rollup) c
  = match SeedTierA._find_hex_for_point pt hex_index with
    | None => None
    | Some None =>
        Some (seeded, seq_no,
              <[cid := SeedTierA.RollupRow
                  (SeedTierA.required_total
                     (default (SeedTierA.RollupRow 0 0 0) (rollup !! cid)) + 1)
                  (SeedTierA.alternate_total
                     (default (SeedTierA.RollupRow 0 0 0) (rollup !! cid)) + 0)
                  (SeedTierA.total_total
                     (default (SeedTierA.RollupRow 0 0 0) (rollup !! cid)) + 1)]>
                rollup)
    | Some (Some (cell_id, zone_id)) =>
        Some (seeded
              ++ [Geo.Feature (Geo.Point pt)
                    (SeedTierA.site_properties seq_no 0 cell_id zone_id
                       (VStr cid) false)],
              S seq_no,
              <[cid := SeedTierA.RollupRow
                  (SeedTierA.required_total
                     (default (SeedTierA.RollupRow 0 0 0) (rollup !! cid)) + 1)
                  (SeedTierA.alternate_total
                     (default (SeedTierA.RollupRow 0 0 0) (rollup !! cid)) + 0)
                  (SeedTierA.total_total
                     (default (SeedTierA.RollupRow 0 0 0) (rollup !! cid)) + 1)]>
                rollup)
    end.
Proof.
  intros Hgeom Hcid Hmin Hmax. unfold SeedTierA.seed_corridor.
  rewrite Hgeom, Hcid, Hmin, Hmax. cbn [mbind option_bind].
  rewrite decide_False by done.
  change (Z.max 0 1 + Z.max 0 (1 - 1) =? 0)%Z with false. cbv iota.
  change (SeedTierA._sample_points_along_line [pt]
            (Z.max 0 1 + Z.max 0 (1 - 1)))
    with (Some [pt]).
  cbn [mbind option_bind]. change (Z.to_nat _) with 1%nat.
  cbn [seq foldl]. unfold SeedTierA.seed_point at 1.
  cbn [mbind option_bind lookup list_lookup].
  destruct (SeedTierA._find_hex_for_point pt hex_index)
    as [[[cell_id zone_id]|]|]; reflexivity.
Qed.

Lemma tiera_sample_run :
  SeedTierA.main (H := no_text) Samples.corridors
    [Samples.scored_hex "H1" 1 1] [Samples.old_site; Samples.kept_site]
  = Some Samples.tiera_seeded.
Proof.
  assert (SeedTierA._build_hex_index (H := no_text)
            [Samples.scored_hex "H1" 1 1]
          = [("H1", "Z_CENTRAL_LOW_RELIEF", [Samples.square])]) as Hidx
    by reflexivity.
  unfold SeedTierA.main, Samples.corridors. rewrite Hidx.
  cbn [SeedTierA.seed_corridors].
  rewrite (seed_corridor_single _ _ _ _ _ (0, 0)%R "C1") by reflexivity.
  cbn [SeedTierA._find_hex_for_point]. rewrite origin_in_square.
  cbn [mbind option_bind].
  rewrite (seed_corridor_single _ _ _ _ _ (5, 5)%R "C2") by reflexivity.
  cbn [SeedTierA._find_hex_for_point]. rewrite far_point_off_square.
  cbn [mbind option_bind].
  rewrite (seed_corridor_single _ _ _ _ _ (0, 0)%R "C3") by reflexivity.
  cbn [SeedTierA._find_hex_for_point]. rewrite origin_in_square.
  cbn [mbind option_bind].
  reflexivity.
Qed.

(** The theorem at the sample run. *)
Lemma dropped_point_consumes_no_site_id_witness :
  SeedTierA.out_sites Samples.tiera_seeded
  = filter (λ f, get (Geo.properties f) "tier" ≠ VStr "A")
      [Samples.old_site; Samples.kept_site]
    ++ SeedTierA.out_seeded Samples.tiera_seeded
  ∧ site_ids (SeedTierA.out_seeded Samples.tiera_seeded)
    = (λ k, VStr ("S_A_" +:+ zero_pad 4 k))
        <$> seq 1 (length (SeedTierA.out_seeded Samples.tiera_seeded))
  ∧ ∀ (pt : R * R) (corridor_id : value) (required : Z)
      (pts : list (R * R)) seeded (seq_no i : nat),
      pts !! i = Some pt →
      outside_every_hex pt
        (SeedTierA._build_hex_index (H := no_text)
           [Samples.scored_hex "H1" 1 1]) →
      SeedTierA.seed_point (H := no_text)
        (SeedTierA._build_hex_index (H := no_text)
           [Samples.scored_hex "H1" 1 1])
        corridor_id required pts (Some (seeded, seq_no)) i
      = Some (seeded, seq_no).
Proof.
  apply (dropped_point_consumes_no_site_id (text := no_text)
           Samples.corridors).
  exact tiera_sample_run.
Defined.

(** * Further properties of the scoring tool *)

Lemma list_filter_ext {A : Type} (P Q : A → Prop)
    `{∀ x, Decision (P x)} `{∀ x, Decision (Q x)} (l : list A) :
  (∀ x, x ∈ l → P x ↔ Q x) → filter P l = filter Q l.
Proof.
  induction l as [|x l IH]; intros Hl; [done|].
  rewrite !filter_cons, IH by (intros; apply Hl; by right).
  destruct (decide (P x)) as [HP|HP], (decide (Q x)) as [HQ|HQ];
    try done; exfalso; apply (Hl x) in HP || apply (Hl x) in HQ;
    done || by left.
Qed.

Section MoreScaffoldFacts.
Import ScaffoldAndScore.

Lemma scaffold_key_count unset defaults (p p' : gmap string value)
    (n n' : nat) (k : string) :
  scaffold_key unset defaults (Some (p, n)) k = Some (p', n') →
  n' = (n + if unset p k then 1 else 0)%nat.
Proof.
  unfold scaffold_key. cbn [mbind option_bind]. destruct (unset p k).
  - destruct (defaults !! k); [|done]. cbn. intros [= _ <-]. lia.
  - intros [= _ <-]. lia.
Qed.

Lemma scaffold_keys_count unset defaults (ks : list string) :
  (∀ (p q : gmap string value) k, p !! k = q !! k → unset p k = unset q k) →
  NoDup ks →
  ∀ (p p' : gmap string value) (n n' : nat),
    foldl (scaffold_key unset defaults) (Some (p, n)) ks = Some (p', n') →
    n' = (n + length (filter (λ k, unset p k = true) ks))%nat.
Proof.
  intros Hlocal. induction ks as [|k0 ks IH]; intros Hnd p p' n n' Hf.
  - cbn in Hf. injection Hf as _ <-. cbn. lia.
  - apply NoDup_cons in Hnd as [Hk0 Hnd]. cbn [foldl] in Hf.
    destruct (scaffold_key unset defaults (Some (p, n)) k0)
      as [[p1 n1]|] eqn:H1;
      [|by rewrite foldl_scaffold_key_None in Hf].
    pose proof (scaffold_key_lookup _ _ _ _ _ _ _ H1) as Hp1.
    rewrite (IH Hnd _ _ _ _ Hf), (scaffold_key_count _ _ _ _ _ _ _ H1).
    rewrite filter_cons.
    assert (filter (λ k, unset p1 k = true) ks
            = filter (λ k, unset p k = true) ks) as ->.
    { apply list_filter_ext. intros k Hk.
      rewrite (Hlocal p1 p k); [done|]. rewrite (Hp1 k).
      rewrite decide_False; [done|]. by intros ->. }
    destruct (unset p k0); [rewrite decide_True by done|
                            rewrite decide_False by done]; cbn; lia.
Qed.

(** With the defaults of any zone the scaffolding step never raises.  It
    puts the zone default under each flag that is missing, null or the empty
    string and under each weight that is missing or null, leaves every other
    field as it found it, and adds the number of fields it filled to the
    counter. *)
Theorem scaffold_fills_blanks (zid : value) (p : gmap string value)
    (n : nat) :
  ∃ p' n',
    scaffold (zone_defaults zid) (p, n) = Some (p', n')
    ∧ (∀ k, k ∈ flag_keys →
            p' !! k = if flag_unset p k then zone_defaults zid !! k
                      else p !! k)
    ∧ (∀ k, k ∈ weight_keys →
            p' !! k = if weight_unset p k then zone_defaults zid !! k
                      else p !! k)
    ∧ (∀ k, k ∉ flag_keys → k ∉ weight_keys → p' !! k = p !! k)
    ∧ n' = (n + length (filter (λ k, flag_unset p k = true) flag_keys)
              + length (filter (λ k, weight_unset p k = true) weight_keys))%nat.
Proof.
  destruct (scaffold_defined zid p n) as [[p' n'] Hs].
  exists p', n'. split; [done|].
  pose proof (scaffold_lookup _ _ _ _ _ Hs) as Hl.
  split; [|split; [|split]].
  - intros k Hk. rewrite (Hl k), (bool_decide_eq_true_2 _ Hk). cbn.
    destruct (flag_unset p k); [done|].
    assert (k ∉ weight_keys) as Hw
      by (unfold weight_keys, flag_keys in *; set_solver).
    by rewrite (bool_decide_eq_false_2 _ Hw).
  - intros k Hk.
    assert (k ∉ flag_keys) as Hf
      by (unfold weight_keys, flag_keys in *; set_solver).
    rewrite (Hl k), (bool_decide_eq_false_2 _ Hf),
      (bool_decide_eq_true_2 _ Hk). done.
  - intros k Hf Hw.
    by rewrite (Hl k), (bool_decide_eq_false_2 _ Hf),
      (bool_decide_eq_false_2 _ Hw).
  - unfold scaffold in Hs.
    destruct (foldl (scaffold_key flag_unset _) (Some (p, n)) flag_keys)
      as [[p1 n1]|] eqn:H1;
      [|by rewrite foldl_scaffold_key_None in Hs].
    assert (NoDup flag_keys) as Hnd1
      by (apply (bool_decide_unpack (NoDup flag_keys)); done).
    assert (NoDup weight_keys) as Hnd2
      by (apply (bool_decide_unpack (NoDup weight_keys)); done).
    rewrite (scaffold_keys_count _ _ _ weight_unset_local Hnd2 _ _ _ _ Hs).
    rewrite (scaffold_keys_count _ _ _ flag_unset_local Hnd1 _ _ _ _ H1).
    f_equal. f_equal. apply list_filter_ext. intros k Hk.
    rewrite (weight_unset_local p1 p k); [done|].
    rewrite (scaffold_keys_lookup _ _ _ flag_unset_local Hnd1 _ _ _ _ H1 k).
    rewrite bool_decide_eq_false_2; [done|].
    unfold weight_keys, flag_keys in *. set_solver.
Qed.

End MoreScaffoldFacts.

Section MoreScoringFacts.
Import ScaffoldAndScore.
Context {text : PyText}.

Definition derived_keys : list string :=
  ["confidence_score"; "confidence_class"; "tierB_sites_required";
   "tierB_alternate_required"; "tierC_demand_class"; "priority_score"].

(** The six derived fields written over [p]. *)
Definition with_derived (p : gmap string value) (cs : Z) (demand : string)
    (prio : Z) : gmap string value :=
  <["priority_score" := VInt prio]>
    (<["tierC_demand_class" := VStr demand]>
       (<["tierB_alternate_required" :=
            VInt (tierB_requirements (confidence_class cs)).2]>
          (<["tierB_sites_required" :=
               VInt (tierB_requirements (confidence_class cs)).1]>
             (<["confidence_class" := VStr (confidence_class cs)]>
                (<["confidence_score" := VInt cs]> p))))).

Lemma compute_confidence_score_local (p q : gmap string value) :
  (∀ k, k ∈ flag_keys → p !! k = q !! k) →
  compute_confidence_score p = compute_confidence_score q.
Proof.
  intros Hk. unfold compute_confidence_score, get_or.
  rewrite !Hk by (unfold flag_keys; set_solver). done.
Qed.

Lemma compute_tierC_demand_local (p q : gmap string value) (zid : value) :
  p !! "pop_weight" = q !! "pop_weight" →
  p !! "clutter_high" = q !! "clutter_high" →
  compute_tierC_demand p zid = compute_tierC_demand q zid.
Proof.
  intros Hp Hc. unfold compute_tierC_demand, get_or. by rewrite Hp, Hc.
Qed.

Lemma compute_priority_score_local (p q : gmap string value) :
  p !! "confidence_score" = q !! "confidence_score" →
  p !! "pop_weight" = q !! "pop_weight" →
  p !! "critical_weight" = q !! "critical_weight" →
  compute_priority_score p = compute_priority_score q.
Proof.
  intros H1 H2 H3. unfold compute_priority_score, get, get_or.
  by rewrite H1, H2, H3.
Qed.

(** The steps of [score_properties] one by one. *)
Lemma score_properties_inv (p p' : gmap string value) (n n' : nat) :
  score_properties (p, n) = Some (p', n') →
  ∃ p1 cs demand prio,
    scaffold (zone_defaults (get_or p "zone_id" (VStr ""))) (p, n)
    = Some (p1, n')
    ∧ compute_confidence_score p1 = Some cs
    ∧ compute_tierC_demand p1 (get_or p "zone_id" (VStr "")) = Some demand
    ∧ compute_priority_score (<["confidence_score" := VInt cs]> p1)
      = Some prio
    ∧ p' = with_derived p1 cs demand prio.
Proof.
  unfold score_properties. cbn [fst]. intros Hrun.
  destruct (scaffold _ _) as [[p1 n1]|]; [|discriminate Hrun].
  cbn [mbind option_bind] in Hrun.
  destruct (compute_confidence_score p1) as [cs|] eqn:Hcs;
    [|discriminate Hrun].
  cbn [mbind option_bind] in Hrun.
  destruct (tierB_requirements (confidence_class cs)) as [req alt] eqn:Hreq.
  destruct (compute_tierC_demand _ _) as [demand|] eqn:Hd;
    [|discriminate Hrun].
  cbn [mbind option_bind] in Hrun.
  destruct (compute_priority_score _) as [prio|] eqn:Hp;
    [|discriminate Hrun].
  cbn [mbind option_bind] in Hrun. injection Hrun as <- <-.
  exists p1, cs, demand, prio. split; [done|]. split; [done|].
  split; [|split].
  - rewrite <- Hd. apply compute_tierC_demand_local;
      by rewrite !lookup_insert_ne.
  - rewrite <- Hp. apply compute_priority_score_local.
    + rewrite lookup_insert_eq, !lookup_insert_ne by done.
      by rewrite lookup_insert_eq.
    + by rewrite !lookup_insert_ne.
    + by rewrite !lookup_insert_ne.
  - unfold with_derived. by rewrite Hreq.
Qed.

Lemma score_properties_intro (p p1 : gmap string value) (n n' : nat)
    (cs : Z) (demand : string) (prio : Z) :
  scaffold (zone_defaults (get_or p "zone_id" (VStr ""))) (p, n)
  = Some (p1, n') →
  compute_confidence_score p1 = Some cs →
  compute_tierC_demand p1 (get_or p "zone_id" (VStr "")) = Some demand →
  compute_priority_score (<["confidence_score" := VInt cs]> p1)
  = Some prio →
  score_properties (p, n) = Some (with_derived p1 cs demand prio, n').
Proof.
  intros Hs Hcs Hd Hp. unfold score_properties. cbn [fst].
  rewrite Hs. cbn [mbind option_bind]. rewrite Hcs. cbn [mbind option_bind].
  destruct (tierB_requirements (confidence_class cs)) as [req alt] eqn:Hreq.
  assert (compute_tierC_demand
            (<["tierB_alternate_required":=VInt alt]>
               (<["tierB_sites_required":=VInt req]>
                  (<["confidence_class":=VStr (confidence_class cs)]>
                     (<["confidence_score":=VInt cs]> p1))))
            (get_or p "zone_id" (VStr "")) = Some demand) as ->.
  { rewrite <- Hd. apply compute_tierC_demand_local;
      by rewrite !lookup_insert_ne. }
  cbn [mbind option_bind].
  assert (compute_priority_score
            (<["tierC_demand_class":=VStr demand]>
               (<["tierB_alternate_required":=VInt alt]>
                  (<["tierB_sites_required":=VInt req]>
                     (<["confidence_class":=VStr (confidence_class cs)]>
                        (<["confidence_score":=VInt cs]> p1)))))
          = Some prio) as ->.
  { rewrite <- Hp. apply compute_priority_score_local.
    - rewrite lookup_insert_eq, !lookup_insert_ne by done.
      by rewrite lookup_insert_eq.
    - by rewrite !lookup_insert_ne.
    - by rewrite !lookup_insert_ne. }
  cbn [mbind option_bind]. unfold with_derived. by rewrite Hreq.
Qed.

Lemma with_derived_lookup (p : gmap string value) (cs : Z)
    (demand : string) (prio : Z) (k : string) :
  k ∉ derived_keys → with_derived p cs demand prio !! k = p !! k.
Proof.
  intros Hk. unfold with_derived.
  rewrite !lookup_insert_ne; [done|..]; intros <-; apply Hk;
    unfold derived_keys; set_solver.
Qed.

Lemma clamp_range (x : Z) : (0 <= clamp x 0 100 <= 100)%Z.
Proof. rewrite clamp_max_min. lia. Qed.

(** Whenever the body of the scoring loop returns, it has written a
    confidence_score between 0 and 100, the class of that score, the Tier-B
    requirements of that class, a demand class among HIGH, MED and LOW, and
    a priority_score between 0 and 100. *)
Theorem scored_fields_in_range (p p' : gmap string value) (n n' : nat) :
  score_properties (p, n) = Some (p', n') →
  ∃ (cs prio : Z) (demand : string),
    p' !! "confidence_score" = Some (VInt cs)
    ∧ (0 <= cs <= 100)%Z
    ∧ p' !! "confidence_class" = Some (VStr (confidence_class cs))
    ∧ p' !! "tierB_sites_required"
      = Some (VInt (tierB_requirements (confidence_class cs)).1)
    ∧ p' !! "tierB_alternate_required"
      = Some (VInt (tierB_requirements (confidence_class cs)).2)
    ∧ p' !! "tierC_demand_class" = Some (VStr demand)
    ∧ demand ∈ ["HIGH"; "MED"; "LOW"]
    ∧ p' !! "priority_score" = Some (VInt prio)
    ∧ (0 <= prio <= 100)%Z.
Proof.
  intros (p1 & cs & demand & prio & _ & Hcs & Hd & Hp & ->)%score_properties_inv.
  exists cs, prio, demand. unfold with_derived.
  split; [by rewrite !lookup_insert_ne, lookup_insert_eq by done|].
  split.
  { unfold compute_confidence_score in Hcs.
    destruct (py_int (get_or _ "elev_adv_avail" _));
      [cbn [mbind option_bind] in Hcs|discriminate Hcs].
    destruct (py_int (get_or _ "tall_struct_avail" _));
      [cbn [mbind option_bind] in Hcs|discriminate Hcs].
    destruct (py_int (get_or _ "clutter_high" _));
      [cbn [mbind option_bind] in Hcs|discriminate Hcs].
    destruct (py_int _); [cbn [mbind option_bind] in Hcs|discriminate Hcs].
    injection Hcs as <-. apply clamp_range. }
  split; [by rewrite !lookup_insert_ne, lookup_insert_eq by done|].
  split; [by rewrite !lookup_insert_ne, lookup_insert_eq by done|].
  split; [by rewrite !lookup_insert_ne, lookup_insert_eq by done|].
  split; [by rewrite !lookup_insert_ne, lookup_insert_eq by done|].
  split.
  { unfold compute_tierC_demand in Hd.
    destruct (py_float _); [cbn [mbind option_bind] in Hd|discriminate Hd].
    destruct (py_int _); [cbn [mbind option_bind] in Hd|discriminate Hd].
    injection Hd as <-.
    repeat match goal with |- context [if ?b then _ else _] =>
      destruct b end; set_solver. }
  split; [by rewrite lookup_insert_eq|].
  unfold compute_priority_score in Hp.
  destruct (py_int _); [cbn [mbind option_bind] in Hp|discriminate Hp].
  destruct (py_float (get_or _ "pop_weight" _));
    [cbn [mbind option_bind] in Hp|discriminate Hp].
  destruct (py_float _); [cbn [mbind option_bind] in Hp|discriminate Hp].
  destruct (float_of_Z _); [cbn [mbind option_bind] in Hp|discriminate Hp].
  destruct (round_float _); [cbn [mbind option_bind] in Hp|discriminate Hp].
  injection Hp as <-. apply clamp_range.
Qed.


(** The Tier-B requirements never grow with the confidence score: a cell
    with the higher score needs no more required sites and no more
    alternates; every cell needs one or two required sites and at most one
    alternate. *)
Theorem tierB_requirements_antitone (s1 s2 : Z) :
  (s1 <= s2)%Z →
  ((tierB_requirements (confidence_class s2)).1
   <= (tierB_requirements (confidence_class s1)).1)%Z
  ∧ ((tierB_requirements (confidence_class s2)).2
     <= (tierB_requirements (confidence_class s1)).2)%Z
  ∧ (1 <= (tierB_requirements (confidence_class s2)).1 <= 2)%Z
  ∧ (0 <= (tierB_requirements (confidence_class s2)).2 <= 1)%Z.
Proof.
  intros Hle. unfold confidence_class.
  destruct (Z.leb_spec 70 s1), (Z.leb_spec 40 s1), (Z.leb_spec 70 s2),
    (Z.leb_spec 40 s2); try lia; cbn; lia.
Qed.

Lemma defaults_row_not_blank (e t c l : Z) (pw cw : float) (k : string)
    (v : value) :
  defaults_row e t c l pw cw !! k = Some v → v ≠ VNone ∧ v ≠ VStr "".
Proof.
  unfold defaults_row. intros Hk%elem_of_list_to_map_2.
  repeat (apply elem_of_cons in Hk as [[= -> ->]|Hk]; [done|]).
  by apply elem_of_nil in Hk.
Qed.

(** A zone default is a number, never blank. *)
Lemma zone_defaults_not_blank (zid : value) (k : string) (v : value) :
  zone_defaults zid !! k = Some v → v ≠ VNone ∧ v ≠ VStr "".
Proof.
  unfold zone_defaults.
  assert (∀ m : gmap string value,
            m ∈ [defaults_row 1 0 0 1 0.2 0.2; defaults_row 0 1 0 1 0.4 0.3;
                 defaults_row 1 1 1 0 0.6 0.4; defaults_row 0 0 0 0 0.0 0.0] →
            m !! k = Some v → v ≠ VNone ∧ v ≠ VStr "") as Hrows.
  { intros m Hm.
    repeat (apply elem_of_cons in Hm as [->|Hm];
            [apply defaults_row_not_blank|]).
    by apply elem_of_nil in Hm. }
  assert (default ∅ (ZONE_DEFAULTS !! "") = defaults_row 0 0 0 0 0.0 0.0)
    as -> by reflexivity.
  destruct zid as [| | | |s]; try (apply Hrows; set_solver).
  destruct (ZONE_DEFAULTS !! s) as [m|] eqn:Hs; cbn [default].
  - apply Hrows. unfold ZONE_DEFAULTS in Hs.
    apply elem_of_list_to_map_2 in Hs. set_solver.
  - apply Hrows. set_solver.
Qed.

Lemma scaffold_noop defaults (p : gmap string value) (n : nat) :
  (∀ k, k ∈ flag_keys → flag_unset p k = false) →
  (∀ k, k ∈ weight_keys → weight_unset p k = false) →
  scaffold defaults (p, n) = Some (p, n).
Proof.
  intros Hf Hw. unfold scaffold, flag_keys, weight_keys. cbn [foldl].
  unfold scaffold_key. cbn [mbind option_bind].
  repeat (rewrite Hf by (unfold flag_keys; set_solver);
          cbn [mbind option_bind]).
  repeat (rewrite Hw by (unfold weight_keys; set_solver);
          cbn [mbind option_bind]).
  done.
Qed.

(** After the scaffolding step with the defaults of a zone no flag and no
    weight is unset. *)
Lemma scaffold_sets_all (zid : value) (p p1 : gmap string value)
    (n n1 : nat) :
  scaffold (zone_defaults zid) (p, n) = Some (p1, n1) →
  (∀ k, k ∈ flag_keys → flag_unset p1 k = false)
  ∧ (∀ k, k ∈ weight_keys → weight_unset p1 k = false).
Proof.
  intros Hs. pose proof (scaffold_lookup _ _ _ _ _ Hs) as Hl. split.
  - intros k Hk. unfold flag_unset at 1. rewrite (Hl k).
    rewrite (bool_decide_eq_true_2 _ Hk). cbn [andb].
    destruct (flag_unset p k) eqn:Hu.
    + destruct (zone_defaults_complete zid k) as [v Hv]; [set_solver|].
      rewrite Hv. destruct (zone_defaults_not_blank zid k v Hv).
      by rewrite !bool_decide_eq_false_2.
    + assert (k ∉ weight_keys) as Hw
        by (unfold weight_keys, flag_keys in *; set_solver).
      rewrite (bool_decide_eq_false_2 _ Hw). cbn [andb].
      exact Hu.
  - intros k Hk. unfold weight_unset at 1. rewrite (Hl k).
    assert (k ∉ flag_keys) as Hf
      by (unfold weight_keys, flag_keys in *; set_solver).
    rewrite (bool_decide_eq_false_2 _ Hf), (bool_decide_eq_true_2 _ Hk).
    cbn [andb]. destruct (weight_unset p k) eqn:Hu.
    + destruct (zone_defaults_complete zid k) as [v Hv]; [set_solver|].
      rewrite Hv. destruct (zone_defaults_not_blank zid k v Hv).
      by rewrite !bool_decide_eq_false_2.
    + exact Hu.
Qed.

Lemma with_derived_idemp (p : gmap string value) (cs : Z) (demand : string)
    (prio : Z) :
  with_derived (with_derived p cs demand prio) cs demand prio
  = with_derived p cs demand prio.
Proof.
  apply map_eq. intros k. unfold with_derived.
  rewrite !lookup_insert. repeat case_decide; done.
Qed.

(** Scoring the output of the scoring loop again changes nothing: the body
    of the loop returns the same properties and counts no field as
    scaffolded. *)
Theorem rescoring_idempotent (p p' : gmap string value) (n n' m : nat) :
  score_properties (p, n) = Some (p', n') →
  score_properties (p', m) = Some (p', m).
Proof.
  intros (p1 & cs & demand & prio & Hs & Hcs & Hd & Hp & ->)%score_properties_inv.
  destruct (scaffold_sets_all _ _ _ _ _ Hs) as [Hflags Hweights].
  pose proof (scaffold_lookup _ _ _ _ _ Hs) as Hl.
  assert (∀ k, k ∉ derived_keys →
               with_derived p1 cs demand prio !! k = p1 !! k) as Hkeep
    by (intros; by apply with_derived_lookup).
  assert (∀ k, k ∈ flag_keys ++ weight_keys → k ∉ derived_keys) as Hdisj.
  { intros k. unfold flag_keys, weight_keys, derived_keys. set_solver. }
  assert (get_or (with_derived p1 cs demand prio) "zone_id" (VStr "")
          = get_or p "zone_id" (VStr "")) as Hzid.
  { unfold get_or. rewrite Hkeep by (unfold derived_keys; set_solver).
    rewrite (Hl "zone_id"). done. }
  rewrite <- (with_derived_idemp p1 cs demand prio) at 2.
  apply score_properties_intro.
  - apply scaffold_noop.
    + intros k Hk. rewrite <- (Hflags k Hk). apply flag_unset_local.
      apply Hkeep, Hdisj. set_solver.
    + intros k Hk. rewrite <- (Hweights k Hk). apply weight_unset_local.
      apply Hkeep, Hdisj. set_solver.
  - rewrite <- Hcs. apply compute_confidence_score_local.
    intros k Hk. apply Hkeep, Hdisj. set_solver.
  - rewrite Hzid, <- Hd.
    apply compute_tierC_demand_local; apply Hkeep;
      unfold derived_keys; set_solver.
  - rewrite <- Hp. apply compute_priority_score_local.
    + by rewrite !lookup_insert_eq.
    + rewrite !lookup_insert_ne by done. apply Hkeep.
      unfold derived_keys; set_solver.
    + rewrite !lookup_insert_ne by done. apply Hkeep.
      unfold derived_keys; set_solver.
Qed.

(** A cell whose pop_weight or critical_weight holds the empty string makes
    the body of the scoring loop raise, for every reading of strings that
    rejects the empty one: the scaffolding step leaves the empty string in
    place and [float] is applied to it. *)
Theorem blank_string_weight_aborts (p : gmap string value) (n : nat) :
  float_of_str "" = None →
  p !! "pop_weight" = Some (VStr "")
  ∨ p !! "critical_weight" = Some (VStr "") →
  score_properties (p, n) = None.
Proof.
  intros Hfloat Hblank.
  destruct (score_properties (p, n)) as [[p' n']|] eqn:Hrun; [|done].
  exfalso.
  apply score_properties_inv
    in Hrun as (p1 & cs & demand & prio & Hs & Hcs & Hd & Hp & ->).
  pose proof (scaffold_lookup _ _ _ _ _ Hs) as Hl.
  destruct Hblank as [Hpop|Hcrit].
  - assert (p1 !! "pop_weight" = Some (VStr "")) as Hpop1.
    { rewrite (Hl "pop_weight"). unfold weight_unset. by rewrite Hpop. }
    unfold compute_tierC_demand, get_or in Hd. rewrite Hpop1 in Hd.
    change (py_float (default _ (Some (VStr ""))))
      with (float_of_str "") in Hd.
    by rewrite Hfloat in Hd.
  - assert (p1 !! "critical_weight" = Some (VStr "")) as Hcrit1.
    { rewrite (Hl "critical_weight"). unfold weight_unset. by rewrite Hcrit. }
    unfold compute_priority_score, get_or in Hp.
    rewrite (lookup_insert_ne _ _ "critical_weight") in Hp by done.
    rewrite Hcrit1 in Hp.
    change (py_float (default _ (Some (VStr ""))))
      with (float_of_str "") in Hp.
    rewrite Hfloat in Hp.
    destruct (py_int _); [cbn [mbind option_bind] in Hp|discriminate Hp].
    destruct (py_float _); [cbn [mbind option_bind] in Hp|discriminate Hp].
    discriminate Hp.
Qed.

(** The body of the scoring loop leaves every field other than the four
    flags, the two weights and the six derived fields as it was, and keeps
    the value of any field other than the derived ones that is not null and
    not the empty string. *)
Theorem scoring_keeps_other_fields (p p' : gmap string value) (n n' : nat)
    (k : string) :
  score_properties (p, n) = Some (p', n') →
  k ∉ derived_keys →
  (k ∉ flag_keys → k ∉ weight_keys → p' !! k = p !! k)
  ∧ (∀ v, p !! k = Some v → v ≠ VNone → v ≠ VStr "" → p' !! k = Some v).
Proof.
  intros (p1 & cs & demand & prio & Hs & _ & _ & _ & ->)%score_properties_inv
    Hk.
  rewrite with_derived_lookup by done. split.
  - intros Hf Hw. rewrite (scaffold_lookup _ _ _ _ _ Hs k).
    by rewrite (bool_decide_eq_false_2 _ Hf), (bool_decide_eq_false_2 _ Hw).
  - intros v Hv Hnone Hempty.
    by apply (scaffold_keeps_explicit _ _ _ _ _ _ _ Hs).
Qed.

Lemma scaffold_counter defaults (p p1 : gmap string value) (a b a' : nat) :
  scaffold defaults (p, a) = Some (p1, b) →
  (a <= b <= a + 6)%nat
  ∧ scaffold defaults (p, a') = Some (p1, (a' + (b - a))%nat).
Proof.
  assert (∀ unset ks (q q1 : gmap string value) (c d c' : nat),
            foldl (scaffold_key unset defaults) (Some (q, c)) ks
            = Some (q1, d) →
            (c <= d <= c + length ks)%nat
            ∧ foldl (scaffold_key unset defaults) (Some (q, c')) ks
              = Some (q1, (c' + (d - c))%nat)) as Hfold.
  { intros unset ks. induction ks as [|k ks IH]; intros q q1 c d c' Hf.
    - cbn in Hf. injection Hf as <- <-. cbn. split; [lia|].
      do 2 f_equal. lia.
    - cbn [foldl] in Hf |- *.
      destruct (scaffold_key unset defaults (Some (q, c)) k)
        as [[q2 c2]|] eqn:Hk;
        [|by rewrite foldl_scaffold_key_None in Hf].
      destruct (IH _ _ _ _ (c' + (c2 - c))%nat Hf) as [Hle Hrun].
      assert ((c <= c2 <= S c)%nat
              ∧ scaffold_key unset defaults (Some (q, c')) k
                = Some (q2, (c' + (c2 - c))%nat)) as [Hc ->].
      { unfold scaffold_key in Hk |- *. cbn [mbind option_bind] in Hk |- *.
        destruct (unset q k).
        - destruct (defaults !! k); [|done].
          cbn [mbind option_bind] in Hk |- *. injection Hk as <- <-.
          split; [lia|]. do 2 f_equal. lia.
        - injection Hk as <- <-. split; [lia|]. do 2 f_equal. lia. }
      rewrite Hrun. cbn [length]. split; [lia|]. do 2 f_equal. lia. }
  unfold scaffold. intros Hs.
  destruct (foldl (scaffold_key flag_unset defaults) (Some (p, a)) flag_keys)
    as [[p2 c]|] eqn:H1; [|by rewrite foldl_scaffold_key_None in Hs].
  destruct (Hfold _ _ _ _ _ _ a' H1) as [Hle1 ->].
  destruct (Hfold _ _ _ _ _ _ (a' + (c - a))%nat Hs) as [Hle2 ->].
  cbn [length flag_keys weight_keys] in Hle1, Hle2. split; [lia|].
  do 2 f_equal. lia.
Qed.

(** The counter is only passed along. *)
Lemma score_properties_counter (p p' : gmap string value) (a b a' : nat) :
  score_properties (p, a) = Some (p', b) →
  (a <= b <= a + 6)%nat
  ∧ score_properties (p, a') = Some (p', (a' + (b - a))%nat).
Proof.
  intros (p1 & cs & demand & prio & Hs & Hcs & Hd & Hp & ->)%score_properties_inv.
  destruct (scaffold_counter _ _ _ _ _ a' Hs) as [Hle Hs'].
  split; [done|]. by apply score_properties_intro.
Qed.

Lemma score_all_spec (ps ps' : list (gmap string value)) (n n' : nat) :
  score_all ps n = Some (ps', n') →
  (n <= n' <= n + 6 * length ps)%nat
  ∧ Forall2 (λ p p', ∃ b, score_properties (p, 0%nat) = Some (p', b)) ps ps'.
Proof.
  revert ps' n n'. induction ps as [|p ps IH]; intros ps' n n' Hrun.
  - cbn in Hrun. injection Hrun as <- <-. cbn. split; [lia|constructor].
  - cbn [score_all] in Hrun.
    destruct (score_properties (p, n)) as [[p1 n1]|] eqn:Hp;
      [|discriminate Hrun].
    cbn [mbind option_bind] in Hrun.
    destruct (score_all ps n1) as [[rest n2]|] eqn:Hrest;
      [|discriminate Hrun].
    cbn [mbind option_bind] in Hrun. injection Hrun as <- <-.
    destruct (IH _ _ _ Hrest) as [Hle Hall].
    destruct (score_properties_counter _ _ _ _ 0%nat Hp) as [Hle1 Hp0].
    cbn [length]. split; [lia|]. constructor; [by eexists|done].
Qed.

Lemma score_all_None (ps : list (gmap string value)) (n : nat)
    (p : gmap string value) :
  p ∈ ps → score_properties (p, 0%nat) = None → score_all ps n = None.
Proof.
  revert n. induction ps as [|p0 ps IH]; intros n Hin Hnone.
  - by apply elem_of_nil in Hin.
  - cbn [score_all].
    destruct (score_properties (p0, n)) as [[p1 n1]|] eqn:Hp0; [|done].
    cbn [mbind option_bind].
    apply elem_of_cons in Hin as [->|Hin].
    + destruct (score_properties_counter _ _ _ _ 0%nat Hp0) as [_ Hp].
      congruence.
    + by rewrite (IH n1 Hin Hnone).
Qed.

(** A run of the scoring tool that returns has scored every cell in its
    place, as the body of the loop scores it on its own, and has counted at
    most six scaffolded fields per cell; if the body raises on one cell the
    whole run raises, and nothing is written. *)
Theorem scoring_run_all_or_nothing (ps : list (gmap string value)) :
  (∀ ps' n,
     main ps = Some (ps', n) →
     length ps' = length ps
     ∧ (n <= 6 * length ps)%nat
     ∧ ∀ i p, ps !! i = Some p →
              ∃ p' b, ps' !! i = Some p'
                      ∧ score_properties (p, 0%nat) = Some (p', b))
  ∧ (∀ p, p ∈ ps → score_properties (p, 0%nat) = None → main ps = None).
Proof.
  split.
  - intros ps' n [Hle Hall]%score_all_spec.
    split; [symmetry; by eapply Forall2_length|]. split; [lia|].
    intros i p Hi.
    destruct (Forall2_lookup_l _ _ _ _ _ Hall Hi) as (p' & Hp' & b & Hb).
    by exists p', b.
  - intros p. apply score_all_None.
Qed.

End MoreScoringFacts.

Lemma zoned_cell_scored :
  ScaffoldAndScore.score_properties (H := no_text) (Samples.zoned_cell, 0%nat)
  = Some (scored_zero_cell Samples.zoned_cell, 0%nat).
Proof.
  apply score_properties_explicit_zeros, cell_properties_explicit_zeros.
Qed.

Lemma blank_string_weight_aborts_witness :
  ScaffoldAndScore.score_properties (H := no_text)
    (Samples.hand_edited_cell, 0%nat) = None.
Proof.
  apply (blank_string_weight_aborts (text := no_text)).
  - reflexivity.
  - left. reflexivity.
Defined.

Lemma scored_fields_in_range_witness :
  ∃ (cs prio : Z) (demand : string),
    scored_zero_cell Samples.zoned_cell !! "confidence_score" = Some (VInt cs)
    ∧ (0 <= cs <= 100)%Z
    ∧ scored_zero_cell Samples.zoned_cell !! "confidence_class"
      = Some (VStr (ScaffoldAndScore.confidence_class cs))
    ∧ scored_zero_cell Samples.zoned_cell !! "tierB_sites_required"
      = Some (VInt (ScaffoldAndScore.tierB_requirements
                      (ScaffoldAndScore.confidence_class cs)).1)
    ∧ scored_zero_cell Samples.zoned_cell !! "tierB_alternate_required"
      = Some (VInt (ScaffoldAndScore.tierB_requirements
                      (ScaffoldAndScore.confidence_class cs)).2)
    ∧ scored_zero_cell Samples.zoned_cell !! "tierC_demand_class"
      = Some (VStr demand)
    ∧ demand ∈ ["HIGH"; "MED"; "LOW"]
    ∧ scored_zero_cell Samples.zoned_cell !! "priority_score" = Some (VInt prio)
    ∧ (0 <= prio <= 100)%Z.
Proof.
  exact (scored_fields_in_range (text := no_text) Samples.zoned_cell
           (scored_zero_cell Samples.zoned_cell) 0 0 zoned_cell_scored).
Defined.

Lemma tierB_requirements_antitone_witness :
  ((ScaffoldAndScore.tierB_requirements
      (ScaffoldAndScore.confidence_class 80)).1
   <= (ScaffoldAndScore.tierB_requirements
         (ScaffoldAndScore.confidence_class 30)).1)%Z
  ∧ ((ScaffoldAndScore.tierB_requirements
        (ScaffoldAndScore.confidence_class 80)).2
     <= (ScaffoldAndScore.tierB_requirements
           (ScaffoldAndScore.confidence_class 30)).2)%Z
  ∧ (1 <= (ScaffoldAndScore.tierB_requirements
             (ScaffoldAndScore.confidence_class 80)).1 <= 2)%Z
  ∧ (0 <= (ScaffoldAndScore.tierB_requirements
             (ScaffoldAndScore.confidence_class 80)).2 <= 1)%Z.
Proof. apply (tierB_requirements_antitone 30 80). lia. Defined.

Lemma rescoring_idempotent_witness :
  ScaffoldAndScore.score_properties (H := no_text)
    (scored_zero_cell Samples.zoned_cell, 7%nat)
  = Some (scored_zero_cell Samples.zoned_cell, 7%nat).
Proof.
  exact (rescoring_idempotent (text := no_text) Samples.zoned_cell
           (scored_zero_cell Samples.zoned_cell) 0 0 7 zoned_cell_scored).
Defined.

Lemma scoring_keeps_other_fields_witness :
  (("cell_id" : string) ∉ ScaffoldAndScore.flag_keys →
   ("cell_id" : string) ∉ ScaffoldAndScore.weight_keys →
   scored_zero_cell Samples.zoned_cell !! "cell_id" = Samples.zoned_cell !! "cell_id")
  ∧ (∀ v, Samples.zoned_cell !! "cell_id" = Some v → v ≠ VNone → v ≠ VStr "" →
          scored_zero_cell Samples.zoned_cell !! "cell_id" = Some v).
Proof.
  apply (scoring_keeps_other_fields (text := no_text) Samples.zoned_cell
           (scored_zero_cell Samples.zoned_cell) 0 0 "cell_id" zoned_cell_scored).
  apply (bool_decide_unpack _). reflexivity.
Defined.

(** * Further properties of the neighbor map and the coverage pass *)

Section MoreNeighborMapFacts.
Import ApplyTierACoverage.
Context {V : Type} `{Countable V}.

Lemma index_features_None (hexes : list (hex_feature V))
    (st : gmap V (gset key) * gmap key (gset V)) :
  index_features hexes st = None
  ↔ ∃ feature,
      feature ∈ hexes
      ∧ truthy (get (hex_properties feature) "cell_id") = true
      ∧ iter_vertices (hex_geometry feature) = None.
Proof.
  revert st. induction hexes as [|f fs IH]; intros [v2c cv].
  - cbn. split; [done|]. by intros (f & ?%elem_of_nil & _).
  - cbn [index_features]. unfold index_feature.
    destruct (truthy (get (hex_properties f) "cell_id")) eqn:Ht.
    + destruct (iter_vertices (hex_geometry f)) as [vs|] eqn:Hvs;
        cbn [mbind option_bind].
      * rewrite IH. split.
        -- intros (f' & Hin & ?). exists f'. split; [by right|done].
        -- intros (f' & [->|Hin]%elem_of_cons & Ht' & Hv'); [congruence|].
           by exists f'.
      * split; [|done]. intros _. exists f. split; [by left|done].
    + cbn [mbind option_bind]. rewrite IH. split.
      * intros (f' & Hin & ?). exists f'. split; [by right|done].
      * intros (f' & [->|Hin]%elem_of_cons & Ht' & Hv'); [congruence|].
        by exists f'.
Qed.

(** [build_neighbor_map] raises exactly when a feature with a non-empty
    cell_id has a geometry that is neither a Polygon nor a MultiPolygon; a
    feature with no cell_id is passed over, whatever its geometry. *)
Theorem build_neighbor_map_fails_iff (hexes : list (hex_feature V)) :
  build_neighbor_map hexes = None
  ↔ ∃ feature,
      feature ∈ hexes
      ∧ truthy (get (hex_properties feature) "cell_id") = true
      ∧ hex_geometry feature = OtherGeometry.
Proof.
  unfold build_neighbor_map.
  destruct (index_features hexes (∅, ∅)) as [[v2c cv]|] eqn:Hidx.
  - split; [done|]. intros (f & Hin & Ht & Hg). exfalso.
    assert (index_features hexes (∅, ∅) = None) as Hnone.
    { apply index_features_None. exists f. by rewrite Hg. }
    congruence.
  - split; [|done]. intros _.
    apply index_features_None in Hidx as (f & Hin & Ht & Hv).
    exists f. split; [done|]. split; [done|].
    by destruct (hex_geometry f).
Qed.

(** For hex cells with distinct cell_ids, the cell B is in the neighbor set
    of the cell A exactly when the two cells have a vertex in common. *)
Theorem neighbors_share_a_vertex (hexes : list (hex_feature V))
    (neighbor_map : gmap key (gset key)) (fA fB : hex_feature V)
    (vsA vsB : list V) :
  build_neighbor_map hexes = Some neighbor_map →
  NoDup (cell_keys hexes) →
  fA ∈ hexes → fB ∈ hexes →
  truthy (get (hex_properties fA) "cell_id") = true →
  truthy (get (hex_properties fB) "cell_id") = true →
  iter_vertices (hex_geometry fA) = Some vsA →
  iter_vertices (hex_geometry fB) = Some vsB →
  ∃ nsA,
    neighbor_map !! key_of (get (hex_properties fA) "cell_id") = Some nsA
    ∧ (key_of (get (hex_properties fB) "cell_id") ∈ nsA
       ↔ ∃ v, v ∈ vsA ∧ v ∈ vsB).
Proof.
  unfold build_neighbor_map. intros Hb Hnd HfA HfB HtA HtB HvA HvB.
  destruct (index_features hexes (∅, ∅)) as [[v2c cv]|] eqn:Hidx;
    [|done].
  injection Hb as <-.
  destruct (index_features_spec _ _ _ _ _ Hidx)
    as (cs & Hcs & Hv & _ & Hcv & Hndcs).
  rewrite <- (indexed_cells_keys _ _ Hcs) in Hnd.
  specialize (Hndcs Hnd).
  assert (∀ c v, c ∈ cells_at v2c v ↔ ∃ vs, (c, vs) ∈ cs ∧ v ∈ vs) as Hv'.
  { intros c v. rewrite Hv.
    assert (cells_at (∅ : gmap V (gset key)) v = ∅) as ->
      by (unfold cells_at; by rewrite lookup_empty).
    set_solver. }
  pose proof (indexed_cells_elem _ _ _ _ Hcs HfA HtA HvA) as HinA.
  pose proof (indexed_cells_elem _ _ _ _ Hcs HfB HtB HvB) as HinB.
  set (kA := key_of (get (hex_properties fA) "cell_id")) in *.
  set (kB := key_of (get (hex_properties fB) "cell_id")) in *.
  exists (neighbors_of v2c (list_to_set vsA)). split.
  { by rewrite lookup_fmap, (Hndcs kA vsA HinA). }
  rewrite elem_of_neighbors_of. split.
  - intros (v & HvinA%elem_of_list_to_set & (vs' & Hin' & Hvin')%Hv').
    exists v. split; [done|].
    pose proof (Hndcs kB vs' Hin') as H1.
    rewrite (Hndcs kB vsB HinB) in H1. injection H1 as H1.
    apply (elem_of_list_to_set (C := gset V)). rewrite H1.
    by apply elem_of_list_to_set.
  - intros (v & HvinA & HvinB). exists v.
    split; [by apply elem_of_list_to_set|].
    apply Hv'. by exists vsB.
Qed.

End MoreNeighborMapFacts.

Section MoreCoverageFacts.
Import ApplyTierACoverage.
Context {V : Type} `{Countable V} {G : Type}.
Implicit Types (f g a b : site_feature G) (sites : list (site_feature G)).
Implicit Types (hexes : list (hex_feature V)).

(** A site that the pass writes back changed was a Tier-B site not flagged
    ALT, with status CANDIDATE and a cell_id, whose cell is in the coverage
    set of a Tier-A site of the input that has a cell; it now has status
    SATISFIED and names that Tier-A site and its corridor. *)
Theorem only_covered_candidates_change
    (set_order : gset key → list key) hexes sites out (j : nat) f f' :
  (∀ s, set_order s ≡ₚ elements s) →
  main set_order hexes sites = Some out →
  sites !! j = Some f →
  out_sites out !! j = Some f' →
  f' ≠ f →
  ∃ neighbor_map (i : nat) a,
    build_neighbor_map hexes = Some neighbor_map
    ∧ sites !! i = Some a
    ∧ prop_of a "tier" = VStr "A"
    ∧ truthy (prop_of a "cell_id") = true
    ∧ prop_of f "tier" = VStr "B"
    ∧ prop_of f "notes" ≠ VStr "ALT"
    ∧ prop_of f "status" = VStr "CANDIDATE"
    ∧ truthy (prop_of f "cell_id") = true
    ∧ cell_key f ∈ covered_cells neighbor_map (cell_key a)
    ∧ prop_of f' "status" = VStr "SATISFIED"
    ∧ prop_of f' "satisfied_by" = prop_of a "site_id"
    ∧ prop_of f' "satisfied_corridor_id" = prop_of a "corridor_id".
Proof.
  intros Hperm (nm & Hnm & Hs & _)%(main_inv set_order Hperm) Hj Hj' Hne.
  rewrite Hs, list_lookup_fmap, Hj in Hj'. injection Hj' as <-.
  destruct (fate_cases nm sites f)
    as [?|(Hst & i & a & Hi & HA & (Hta & ((HB & Hn) & _ & Htf) & Hc) & Hm)];
    [done|].
  exists nm, i, a. rewrite Hm.
  repeat (split; [done|]).
  split; [apply mark_status|].
  split; [apply mark_satisfied_by|apply mark_satisfied_corridor_id].
Qed.

(** The feature at position [j] has a zone, and it is [z]. *)
Definition in_zone sites (z : key) (j : nat) : bool :=
  match sites !! j with
  | Some f =>
      truthy (prop_of f "zone_id")
      && bool_decide (key_of (prop_of f "zone_id") = z)
  | None => false
  end.

(** The update of a row for the feature at position [j]. *)
Definition row_step sites
    (update : gmap string value → zone_row → zone_row) (r : zone_row)
    (j : nat) : zone_row :=
  match sites !! j with
  | Some f => update (site_properties f) r
  | None => r
  end.

Lemma count_in_zone_lookup sites update (zs : gmap key zone_row) (j : nat)
    (z : key) :
  count_in_zone sites update zs j !! z
  = if in_zone sites z j
    then Some (row_step sites update (default zero_row (zs !! z)) j)
    else zs !! z.
Proof.
  unfold count_in_zone, in_zone, row_step.
  destruct (sites !! j) as [f|]; [|done]. fold (prop_of f "zone_id").
  destruct (truthy (prop_of f "zone_id")); [|done]. cbn [andb].
  case_bool_decide as Hz.
  - subst z. by rewrite lookup_insert_eq.
  - by rewrite lookup_insert_ne.
Qed.

Lemma foldl_count_in_zone sites update (idxs : list nat)
    (zs : gmap key zone_row) (z : key) :
  default zero_row (foldl (count_in_zone sites update) zs idxs !! z)
  = foldl (row_step sites update) (default zero_row (zs !! z))
          (filter (λ j, in_zone sites z j = true) idxs)
  ∧ (foldl (count_in_zone sites update) zs idxs !! z = None
     ↔ zs !! z = None ∧ filter (λ j, in_zone sites z j = true) idxs = []).
Proof.
  revert zs. induction idxs as [|j idxs IH]; intros zs.
  - cbn. split; [done|]. tauto.
  - cbn [foldl]. destruct (IH (count_in_zone sites update zs j)) as [IH1 IH2].
    rewrite IH1, IH2, filter_cons, count_in_zone_lookup.
    destruct (in_zone sites z j) eqn:Hj.
    + rewrite decide_True by done. cbn [foldl default]. split; [done|].
      split; [by intros [[=] _]|by intros [_ [=]]].
    + rewrite decide_False by (by intros [=]). done.
Qed.

Lemma foldl_count_required sites (r : zone_row) (hits : list nat) :
  (∀ j, j ∈ hits → is_Some (sites !! j)) →
  foldl (row_step sites count_required) r hits
  = ZoneRow (tierB_required_before r + length hits)
            (tierB_required_after r
             + length (filter (λ j, still_required sites j = true) hits))
            (tierB_alt_total r) (tierA_sites r).
Proof.
  revert r. induction hits as [|j hits IH]; intros r Hhits.
  - cbn. destruct r. cbn. f_equal; lia.
  - cbn [foldl]. rewrite IH by (intros; apply Hhits; by right).
    destruct (Hhits j) as [f Hf]; [by left|].
    rewrite filter_cons. unfold row_step, still_required. rewrite Hf.
    unfold count_required. cbn [tierB_required_before tierB_required_after
      tierB_alt_total tierA_sites].
    destruct (decide (get (site_properties f) "status" ≠ VStr "SATISFIED"))
      as [Hs|Hs].
    + rewrite bool_decide_eq_true_2 by done. rewrite decide_True by done.
      cbn [length]. f_equal; lia.
    + rewrite bool_decide_eq_false_2 by done.
      rewrite decide_False by done. cbn [length]. f_equal; lia.
Qed.

Lemma foldl_count_alt sites (r : zone_row) (hits : list nat) :
  (∀ j, j ∈ hits → is_Some (sites !! j)) →
  foldl (row_step sites count_alt) r hits
  = ZoneRow (tierB_required_before r) (tierB_required_after r)
            (tierB_alt_total r + length hits) (tierA_sites r).
Proof.
  revert r. induction hits as [|j hits IH]; intros r Hhits.
  - cbn. destruct r. cbn. f_equal; lia.
  - cbn [foldl]. rewrite IH by (intros; apply Hhits; by right).
    destruct (Hhits j) as [f Hf]; [by left|].
    unfold row_step. rewrite Hf. unfold count_alt.
    cbn [tierB_required_before tierB_required_after tierB_alt_total
         tierA_sites length]. f_equal; lia.
Qed.

Lemma foldl_count_tiera sites (r : zone_row) (hits : list nat) :
  (∀ j, j ∈ hits → is_Some (sites !! j)) →
  foldl (row_step sites count_tiera) r hits
  = ZoneRow (tierB_required_before r) (tierB_required_after r)
            (tierB_alt_total r) (tierA_sites r + length hits).
Proof.
  revert r. induction hits as [|j hits IH]; intros r Hhits.
  - cbn. destruct r. cbn. f_equal; lia.
  - cbn [foldl]. rewrite IH by (intros; apply Hhits; by right).
    destruct (Hhits j) as [f Hf]; [by left|].
    unfold row_step. rewrite Hf. unfold count_tiera.
    cbn [tierB_required_before tierB_required_after tierB_alt_total
         tierA_sites length]. f_equal; lia.
Qed.

Lemma in_zone_is_Some sites (z : key) (l : list nat) (j : nat) :
  j ∈ filter (λ j, in_zone sites z j = true) l → is_Some (sites !! j).
Proof.
  intros [Hz _]%list_elem_of_filter. unfold in_zone in Hz.
  by destruct (sites !! j).
Qed.

Lemma in_zone_fmap sites (h : site_feature G → site_feature G) (z : key)
    (j : nat) :
  (∀ f, prop_of (h f) "zone_id" = prop_of f "zone_id") →
  in_zone (h <$> sites) z j = in_zone sites z j.
Proof.
  intros Hh. unfold in_zone. rewrite list_lookup_fmap.
  destruct (sites !! j) as [f|]; [|done]. cbn. by rewrite Hh.
Qed.

(** The row of the rollup for a zone counts the required Tier-B sites of
    the zone, those of them that are not SATISFIED after the pass, the
    alternates of the zone and its Tier-A sites, each site under its own
    zone_id; a zone has a row only if one of these sites is in it. *)
Theorem zone_rollup_counts (set_order : gset key → list key) hexes sites
    out (z : key) :
  (∀ s, set_order s ≡ₚ elements s) →
  main set_order hexes sites = Some out →
  let required :=
    filter (λ j, in_zone sites z j = true) (positions is_required 0 sites) in
  let alternates :=
    filter (λ j, in_zone sites z j = true) (positions is_alt 0 sites) in
  let tiera :=
    filter (λ j, in_zone sites z j = true) (positions is_tiera 0 sites) in
  default zero_row (out_zone_stats out !! z)
  = ZoneRow (length required)
            (length (filter (λ j, still_required (out_sites out) j = true)
                            required))
            (length alternates) (length tiera)
  ∧ (out_zone_stats out !! z = None
     ↔ required = [] ∧ alternates = [] ∧ tiera = []).
Proof.
  intros Hperm (nm & Hnm & Hs & Hz & _)%(main_inv set_order Hperm).
  cbv zeta. rewrite Hz. unfold zone_rollup.
  rewrite required_features_classify, alt_features_classify,
    tiera_features_classify.
  assert (∀ l : list nat,
            filter (λ j, in_zone (out_sites out) z j = true) l
               = filter (λ j, in_zone sites z j = true) l) as Hzone.
  { intros l. rewrite Hs. induction l as [|j l IH]; [done|].
    rewrite !filter_cons, IH, in_zone_fmap; [done|].
    intros f. by apply fate_other_properties. }
  set (m1 := foldl (count_in_zone (out_sites out) count_required) ∅
                   (positions is_required 0 sites)).
  set (m2 := foldl (count_in_zone (out_sites out) count_alt) m1
                   (positions is_alt 0 sites)).
  destruct (foldl_count_in_zone (out_sites out) count_required
              (positions is_required 0 sites) ∅ z) as [H1 H1n].
  destruct (foldl_count_in_zone (out_sites out) count_alt
              (positions is_alt 0 sites) m1 z) as [H2 H2n].
  destruct (foldl_count_in_zone (out_sites out) count_tiera
              (positions is_tiera 0 sites) m2 z) as [H3 H3n].
  fold m1 in H1, H1n, H2, H2n. fold m2 in H2, H2n, H3, H3n.
  rewrite lookup_empty in H1, H1n. cbn [default] in H1.
  rewrite foldl_count_required in H1 by apply in_zone_is_Some.
  rewrite H1, foldl_count_alt in H2 by apply in_zone_is_Some.
  rewrite H2, foldl_count_tiera in H3 by apply in_zone_is_Some.
  split.
  - rewrite H3, !Hzone. cbn. f_equal; lia.
  - rewrite H3n, H2n, H1n, !Hzone. tauto.
Qed.

End MoreCoverageFacts.

Lemma covered_run :
  ApplyTierACoverage.main elements Samples.hexes Samples.sites
  = Some Samples.covered.
Proof. reflexivity. Qed.

Lemma neighbors_share_a_vertex_witness :
  ∃ nsA,
    Samples.hexes_neighbor_map !! key_of (VStr "H1") = Some nsA
    ∧ (key_of (VStr "H2") ∈ nsA
       ↔ ∃ v : nat, v ∈ [1; 2; 3; 1]%nat ∧ v ∈ [3; 4; 5; 3]%nat).
Proof.
  apply (neighbors_share_a_vertex Samples.hexes Samples.hexes_neighbor_map
           (Samples.hex "H1" [1; 2; 3; 1]%nat)
           (Samples.hex "H2" [3; 4; 5; 3]%nat)).
  - reflexivity.
  - apply (bool_decide_unpack (NoDup (cell_keys Samples.hexes))).
    vm_compute. exact I.
  - apply elem_of_cons. by left.
  - apply elem_of_cons. right. apply elem_of_cons. by left.
  - reflexivity.
  - reflexivity.
  - reflexivity.
  - reflexivity.
Defined.

Lemma only_covered_candidates_change_witness :
  ∃ neighbor_map (i : nat) a,
    ApplyTierACoverage.build_neighbor_map Samples.hexes = Some neighbor_map
    ∧ Samples.sites !! i = Some a
    ∧ prop_of a "tier" = VStr "A"
    ∧ truthy (prop_of a "cell_id") = true
    ∧ prop_of Samples.tierb_h3 "tier" = VStr "B"
    ∧ prop_of Samples.tierb_h3 "notes" ≠ VStr "ALT"
    ∧ prop_of Samples.tierb_h3 "status" = VStr "CANDIDATE"
    ∧ truthy (prop_of Samples.tierb_h3 "cell_id") = true
    ∧ cell_key Samples.tierb_h3
      ∈ ApplyTierACoverage.covered_cells neighbor_map (cell_key a)
    ∧ prop_of (mark Samples.tiera_h1 Samples.tierb_h3) "status"
      = VStr "SATISFIED"
    ∧ prop_of (mark Samples.tiera_h1 Samples.tierb_h3) "satisfied_by"
      = prop_of a "site_id"
    ∧ prop_of (mark Samples.tiera_h1 Samples.tierb_h3)
        "satisfied_corridor_id"
      = prop_of a "corridor_id".
Proof.
  apply (only_covered_candidates_change elements Samples.hexes Samples.sites
           Samples.covered 2 Samples.tierb_h3
           (mark Samples.tiera_h1 Samples.tierb_h3) elements_perm
           covered_run).
  - reflexivity.
  - reflexivity.
  - intros Heq.
    assert (prop_of (mark Samples.tiera_h1 Samples.tierb_h3) "status"
            = prop_of Samples.tierb_h3 "status") as Hs by (by rewrite Heq).
    rewrite mark_status in Hs. discriminate Hs.
Defined.

Lemma zone_rollup_counts_witness :
  let z := key_of (VStr "Z_CENTRAL_LOW_RELIEF") in
  let required :=
    filter (λ j, in_zone Samples.sites z j = true)
           (positions is_required 0 Samples.sites) in
  let alternates :=
    filter (λ j, in_zone Samples.sites z j = true)
           (positions is_alt 0 Samples.sites) in
  let tiera :=
    filter (λ j, in_zone Samples.sites z j = true)
           (positions is_tiera 0 Samples.sites) in
  default ApplyTierACoverage.zero_row
    (ApplyTierACoverage.out_zone_stats Samples.covered !! z)
  = ApplyTierACoverage.ZoneRow (length required)
      (length (filter (λ j, ApplyTierACoverage.still_required
                              (ApplyTierACoverage.out_sites Samples.covered) j
                            = true) required))
      (length alternates) (length tiera)
  ∧ (ApplyTierACoverage.out_zone_stats Samples.covered !! z = None
     ↔ required = [] ∧ alternates = [] ∧ tiera = []).
Proof.
  exact (zone_rollup_counts elements Samples.hexes Samples.sites
           Samples.covered (key_of (VStr "Z_CENTRAL_LOW_RELIEF"))
           elements_perm covered_run).
Defined.

(** ** The counters of the summary line *)

Section CoverageCounters.
Import ApplyTierACoverage.
Context {G : Type}.
Implicit Types (f g a : site_feature G) (sites orig : list (site_feature G)).

(** The feature at position [j] has the status CANDIDATE. *)
Definition open_at sites (j : nat) : bool :=
  match sites !! j with
  | Some g => bool_decide (prop_of g "status" = VStr "CANDIDATE")
  | None => false
  end.

Definition open_count sites (J : list nat) : nat :=
  length (filter (λ j, open_at sites j = true) J).

Lemma positions_lower_bound (P : site_feature G → Prop)
    `{∀ f, Decision (P f)} (i : nat) (fs : list (site_feature G)) (j : nat) :
  j ∈ positions P i fs → i <= j.
Proof. by intros (f & ? & _)%elem_of_positions. Qed.

Lemma NoDup_positions (P : site_feature G → Prop) `{∀ f, Decision (P f)}
    (i : nat) (fs : list (site_feature G)) :
  NoDup (positions P i fs).
Proof.
  revert i. induction fs as [|f fs IH]; intros i; [constructor|].
  cbn [positions]. destruct (decide (P f)); [|apply IH].
  cbn [app]. constructor; [|apply IH].
  intros Hi%positions_lower_bound. lia.
Qed.

Lemma open_count_close sites (J : list nat) (j : nat) g' :
  NoDup J → j ∈ J → open_at sites j = true →
  prop_of g' "status" ≠ VStr "CANDIDATE" →
  S (open_count (<[j := g']> sites) J) = open_count sites J.
Proof.
  intros Hnd Hj Hopen Hg'. unfold open_count.
  assert (j < length sites) as Hlt.
  { unfold open_at in Hopen. destruct (sites !! j) eqn:E; [|done].
    by eapply lookup_lt_Some. }
  assert (open_at (<[j := g']> sites) j = false) as Hclosed.
  { unfold open_at. rewrite list_lookup_insert_eq by done.
    by rewrite bool_decide_eq_false_2. }
  assert (∀ k, k ≠ j → open_at (<[j := g']> sites) k = open_at sites k)
    as Hother.
  { intros k Hk. unfold open_at. by rewrite list_lookup_insert_ne. }
  induction J as [|k J IH]; [by apply elem_of_nil in Hj|].
  apply NoDup_cons in Hnd as [Hk Hnd]. rewrite !filter_cons.
  destruct (decide (k = j)) as [->|Hne].
  - rewrite Hclosed, Hopen. rewrite decide_False by done.
    rewrite decide_True by done. cbn [length]. f_equal.
    f_equal. apply list_filter_ext. intros k' Hk'. rewrite Hother; [done|].
    by intros ->.
  - apply elem_of_cons in Hj as [->|Hj]; [done|].
    rewrite (Hother k Hne). specialize (IH Hnd Hj).
    destruct (decide (open_at sites k = true)); cbn [length]; lia.
Qed.

Lemma satisfy_count (J : list nat) (i j : nat) sites (n : nat) (any : bool) :
  NoDup J → j ∈ J →
  ∃ sites' n' any',
    satisfy i (sites, n, any) j = (sites', n', any')
    ∧ n' + open_count sites' J = n + open_count sites J.
Proof.
  intros Hnd Hj. unfold satisfy.
  destruct (sites !! i) as [a|]; [|by eexists _, _, _].
  destruct (sites !! j) as [g|] eqn:Hg; [|by eexists _, _, _].
  fold (prop_of g "status").
  destruct (decide (prop_of g "status" ≠ VStr "CANDIDATE")) as [Hs|Hs];
    [by eexists _, _, _|].
  eexists _, _, _. split; [done|].
  rewrite <- (open_count_close sites J j
                (set_properties g
                   (<["satisfied_corridor_id" := get (site_properties a) "corridor_id"]>
                      (<["satisfied_by" := get (site_properties a) "site_id"]>
                         (<["status" := VStr "SATISFIED"]>
                            (site_properties g))))) Hnd Hj).
  - lia.
  - unfold open_at. rewrite Hg. apply bool_decide_eq_true_2.
    by apply dec_stable.
  - unfold prop_of, set_properties, get. cbn [site_properties].
    rewrite !lookup_insert_ne by done. by rewrite lookup_insert_eq.
Qed.

Lemma foldl_satisfy_count (J : list nat) (i : nat) (js : list nat) sites
    (n : nat) (any : bool) :
  NoDup J → (∀ j, j ∈ js → j ∈ J) →
  ∃ sites' n' any',
    foldl (satisfy i) (sites, n, any) js = (sites', n', any')
    ∧ n' + open_count sites' J = n + open_count sites J.
Proof.
  intros Hnd. revert sites n any.
  induction js as [|j js IH]; intros sites n any Hjs.
  - by eexists _, _, _.
  - cbn [foldl].
    destruct (satisfy_count J i j sites n any Hnd) as (s1 & n1 & a1 & -> & H1);
      [apply Hjs; by left|].
    destruct (IH s1 n1 a1) as (s2 & n2 & a2 & -> & H2);
      [intros; apply Hjs; by right|].
    eexists _, _, _. split; [done|]. lia.
Qed.

Variable set_order : gset key → list key.
Variable neighbor_map : gmap key (gset key).
Variable orig : list (site_feature G).

Lemma visited_candidates (cells : list key) (j : nat) :
  j ∈ visited (tierb_candidates_by_cell (classify 0 orig no_buckets)) cells →
  j ∈ positions is_candidate 0 orig.
Proof.
  unfold visited. rewrite list_elem_of_bind. intros (c & Hj & _).
  destruct (classify_spec orig 0 no_buckets) as (_ & _ & _ & Hc).
  rewrite Hc in Hj. cbn in Hj. rewrite lookup_empty in Hj. cbn in Hj.
  apply elem_of_positions in Hj as (f & Hle & Hf & Hcand & _).
  apply elem_of_positions. by exists f.
Qed.

Lemma cover_count (i : nat) sites (n : nat) (used : gset key) :
  ∃ sites' n' used',
    cover set_order neighbor_map
      (tierb_candidates_by_cell (classify 0 orig no_buckets))
      (sites, n, used) i
    = (sites', n', used')
    ∧ n' + open_count sites' (positions is_candidate 0 orig)
      = n + open_count sites (positions is_candidate 0 orig).
Proof.
  unfold cover. destruct (sites !! i) as [a|]; [|by eexists _, _, _].
  destruct (truthy _); [|by eexists _, _, _].
  rewrite foldl_cover_cell.
  destruct (foldl_satisfy_count (positions is_candidate 0 orig) i
              (visited (tierb_candidates_by_cell (classify 0 orig no_buckets))
                 (set_order
                    (covered_cells neighbor_map
                       (key_of (get (site_properties a) "cell_id")))))
              sites n false)
    as (s1 & n1 & a1 & -> & H1).
  - apply NoDup_positions.
  - intros j. apply visited_candidates.
  - by eexists _, _, _.
Qed.

Lemma foldl_cover_count (idxs : list nat) sites (n : nat) (used : gset key) :
  ∃ sites' n' used',
    foldl (cover set_order neighbor_map
             (tierb_candidates_by_cell (classify 0 orig no_buckets)))
          (sites, n, used) idxs
    = (sites', n', used')
    ∧ n' + open_count sites' (positions is_candidate 0 orig)
      = n + open_count sites (positions is_candidate 0 orig).
Proof.
  revert sites n used. induction idxs as [|i idxs IH]; intros sites n used.
  - by eexists _, _, _.
  - cbn [foldl].
    destruct (cover_count i sites n used) as (s1 & n1 & u1 & -> & H1).
    destruct (IH s1 n1 u1) as (s2 & n2 & u2 & -> & H2).
    eexists _, _, _. split; [done|]. lia.
Qed.

End CoverageCounters.

Section CounterTheorems.
Import ApplyTierACoverage.
Context {V : Type} `{Countable V} {G : Type}.
Implicit Types (f g a b : site_feature G) (sites : list (site_feature G)).
Implicit Types (hexes : list (hex_feature V)).

Lemma filter_bool_split {A : Type} (b : A → bool) (l : list A) :
  length (filter (λ x, b x = true) l) + length (filter (λ x, b x = false) l)
  = length l.
Proof.
  induction l as [|x l IH]; [done|]. rewrite !filter_cons.
  destruct (b x); cbn [length].
  - rewrite decide_True, decide_False by done. cbn [length]. lia.
  - rewrite decide_False, decide_True by done. cbn [length]. lia.
Qed.

Lemma filter_all {A : Type} (P : A → Prop) `{∀ x, Decision (P x)}
    (l : list A) :
  (∀ x, x ∈ l → P x) → filter P l = l.
Proof.
  induction l as [|x l IH]; intros Hl; [done|].
  rewrite filter_cons, decide_True by (apply Hl; by left).
  f_equal. apply IH. intros; apply Hl. by right.
Qed.

Lemma open_count_candidates sites :
  open_count sites (positions is_candidate 0 sites)
  = length (positions is_candidate 0 sites).
Proof.
  unfold open_count. f_equal. apply filter_all.
  intros j (f & _ & Hf & _ & Hs & _)%elem_of_positions.
  rewrite Nat.sub_0_r in Hf. unfold open_at. rewrite Hf.
  by apply bool_decide_eq_true_2.
Qed.

(** The counter of satisfied candidates and the candidates still open
    make up the candidates of the input. *)
Lemma main_satisfied_count (set_order : gset key → list key) hexes sites
    out :
  main set_order hexes sites = Some out →
  out_satisfied_required out
  + open_count (out_sites out) (positions is_candidate 0 sites)
  = length (positions is_candidate 0 sites).
Proof.
  unfold main. destruct (build_neighbor_map hexes) as [nm|]; [|done].
  cbn [mbind option_bind].
  destruct (foldl_cover_count set_order nm sites
              (tiera_features (classify 0 sites no_buckets)) sites 0 ∅)
    as (s & n & u & -> & Hcount).
  cbv beta iota zeta. destruct (sortable _); [|done].
  intros [= <-]. cbn [out_satisfied_required out_sites].
  rewrite Hcount, open_count_candidates. lia.
Qed.

Lemma counts_split (R1 R2 R3 : nat → Prop) `{∀ j, Decision (R1 j)}
    `{∀ j, Decision (R2 j)} `{∀ j, Decision (R3 j)}
    (fs : list (site_feature G)) (i : nat) :
  (∀ k f, fs !! k = Some f → is_required f →
          if decide (is_candidate f)
          then R1 (i + k) ∧ (R2 (i + k) ↔ ¬ R3 (i + k))
          else R1 (i + k) ↔ R2 (i + k)) →
  length (filter R1 (positions is_required i fs))
  = length (filter R2 (positions is_required i fs))
    + length (filter R3 (positions is_candidate i fs)).
Proof.
  revert i. induction fs as [|f fs IH]; intros i Hfs; [done|].
  cbn [positions]. rewrite !filter_app, !length_app.
  rewrite (IH (S i)).
  2:{ intros k f' Hk Hreq. specialize (Hfs (S k) f' Hk Hreq).
      by replace (S i + k) with (i + S k) by lia. }
  specialize (Hfs 0 f eq_refl). rewrite Nat.add_0_r in Hfs.
  destruct (decide (is_required f)) as [Hreq|Hreq].
  - specialize (Hfs Hreq).
    destruct (decide (is_candidate f)) as [Hc|Hc].
    + destruct Hfs as [H1' H23]. rewrite !filter_cons, !filter_nil.
      rewrite (decide_True (P := R1 i)) by done.
      destruct (decide (R2 i)) as [H2'|H2'], (decide (R3 i)) as [H3'|H3'];
        cbn [length]; try lia; exfalso; tauto.
    + rewrite !filter_cons, !filter_nil.
      destruct (decide (R1 i)) as [H1'|H1'], (decide (R2 i)) as [H2'|H2'];
        cbn [length]; try lia; exfalso; tauto.
  - rewrite (decide_False (P := is_candidate f)) by (by intros [? _]).
    rewrite !filter_nil. cbn [length]. lia.
Qed.

(** The number of candidates the pass reports as satisfied and the number
    of required sites it reports as remaining add up to the number of
    required sites that were not SATISFIED before the pass; no more
    candidates are reported as satisfied than the input holds. *)
Theorem coverage_counters_consistent (set_order : gset key → list key)
    hexes sites out :
  (∀ s, set_order s ≡ₚ elements s) →
  main set_order hexes sites = Some out →
  out_satisfied_required out + out_remaining_required out
  = length (filter (λ j, still_required sites j = true)
                   (positions is_required 0 sites))
  ∧ out_satisfied_required out <= length (positions is_candidate 0 sites).
Proof.
  intros Hperm Hmain.
  pose proof (main_satisfied_count set_order hexes sites out Hmain) as Hsat.
  destruct (main_inv set_order Hperm hexes sites out Hmain)
    as (nm & Hnm & Hs & _ & Hr & _).
  split; [|lia].
  rewrite Hr, required_features_classify.
  pose proof (filter_bool_split (open_at (out_sites out))
                (positions is_candidate 0 sites)) as Hsplit.
  unfold open_count in Hsat.
  rewrite (counts_split
             (λ j, still_required sites j = true)
             (λ j, still_required (out_sites out) j = true)
             (λ j, open_at (out_sites out) j = false) sites 0).
  { lia. }
  intros k f Hk Hreq. cbn [Nat.add].
  assert (out_sites out !! k = Some (fate nm sites f)) as Hk'
    by (by rewrite Hs, list_lookup_fmap, Hk).
  unfold still_required, open_at. rewrite Hk, Hk'.
  destruct (decide (is_candidate f)) as [Hc|Hc].
  - pose proof Hc as (_ & Hst & _). unfold prop_of in Hst.
    split; [rewrite Hst; by apply bool_decide_eq_true_2|].
    destruct (fate_cases nm sites f) as [->|(_ & i & a & _ & _ & _ & ->)].
    + fold (prop_of f "status"). unfold prop_of. rewrite Hst.
      rewrite !bool_decide_eq_true_2 by done. naive_solver.
    + pose proof (mark_status a f) as Hm. unfold prop_of in Hm |- *.
      rewrite Hm. split.
      * intros Hx%bool_decide_eq_true_1. by destruct Hx.
      * intros Hx. exfalso. apply Hx. by apply bool_decide_eq_false_2.
  - by rewrite (fate_not_candidate nm sites f Hc).
Qed.

(** The order in which the cells of a coverage set are walked has no effect
    on what the pass writes: the sites, the rollup rows and the counters of
    satisfied and of remaining required sites are the same for any two
    orders. *)
Theorem coverage_order_independent
    (set_order1 set_order2 : gset key → list key) hexes sites out1 :
  (∀ s, set_order1 s ≡ₚ elements s) →
  (∀ s, set_order2 s ≡ₚ elements s) →
  main set_order1 hexes sites = Some out1 →
  ∃ out2,
    main set_order2 hexes sites = Some out2
    ∧ out_sites out2 = out_sites out1
    ∧ out_zone_stats out2 = out_zone_stats out1
    ∧ out_satisfied_required out2 = out_satisfied_required out1
    ∧ out_remaining_required out2 = out_remaining_required out1.
Proof.
  intros Hperm1 Hperm2 Hmain1.
  pose proof (main_satisfied_count set_order1 hexes sites out1 Hmain1)
    as Hsat1.
  destruct (main_inv set_order1 Hperm1 _ _ _ Hmain1)
    as (nm & Hnm & Hs1 & Hz1 & Hr1 & Hsort1).
  destruct (main_run set_order2 Hperm2 hexes sites nm Hnm)
    as (out2 & Hout2 & Hs2 & Hz2 & Hr2); [by rewrite <- Hs1, <- Hz1|].
  pose proof (main_satisfied_count set_order2 hexes sites out2 Hout2)
    as Hsat2.
  exists out2. split; [done|].
  assert (out_sites out2 = out_sites out1) as Hs by congruence.
  split; [done|]. rewrite Hs in Hsat2.
  split; [by rewrite Hz2, Hz1, Hs|]. split; [lia|].
  by rewrite Hr2, Hr1, Hs.
Qed.

End CounterTheorems.

Lemma reverse_order_perm (s : gset key) : Samples.reverse_order s ≡ₚ elements s.
Proof. apply reverse_Permutation. Qed.

Lemma coverage_order_independent_witness :
  ∃ out2,
    ApplyTierACoverage.main Samples.reverse_order Samples.hexes Samples.sites
    = Some out2
    ∧ ApplyTierACoverage.out_sites out2
      = ApplyTierACoverage.out_sites Samples.covered
    ∧ ApplyTierACoverage.out_zone_stats out2
      = ApplyTierACoverage.out_zone_stats Samples.covered
    ∧ ApplyTierACoverage.out_satisfied_required out2
      = ApplyTierACoverage.out_satisfied_required Samples.covered
    ∧ ApplyTierACoverage.out_remaining_required out2
      = ApplyTierACoverage.out_remaining_required Samples.covered.
Proof.
  exact (coverage_order_independent elements Samples.reverse_order Samples.hexes
           Samples.sites Samples.covered elements_perm reverse_order_perm
           covered_run).
Defined.

Lemma coverage_counters_consistent_witness :
  (ApplyTierACoverage.out_satisfied_required Samples.covered
   + ApplyTierACoverage.out_remaining_required Samples.covered
   = length (filter (λ j, ApplyTierACoverage.still_required Samples.sites j
                          = true)
                    (positions is_required 0 Samples.sites)))%nat
  ∧ (ApplyTierACoverage.out_satisfied_required Samples.covered
     <= length (positions is_candidate 0 Samples.sites))%nat.
Proof.
  exact (coverage_counters_consistent elements Samples.hexes Samples.sites
           Samples.covered elements_perm covered_run).
Defined.

(** * Further properties of Tier-A seeding *)

Section MoreLineFacts.
Import Geo SeedTierA.
Local Open Scope R_scope.

Lemma segment_len_sym (a b : R * R) :
  _segment_len_mi a b = _segment_len_mi b a.
Proof.
  destruct a as [lon1 lat1], b as [lon2 lat2].
  unfold _segment_len_mi, _deg_to_miles_lon, _deg_to_miles_lat. cbv zeta.
  f_equal. replace ((lat2 + lat1) / 2) with ((lat1 + lat2) / 2) by lra.
  ring.
Qed.

Lemma line_length_snoc (l : list (R * R)) (x y : R * R) :
  _line_length_mi ((l ++ [x]) ++ [y])
  = _line_length_mi (l ++ [x]) + _segment_len_mi x y.
Proof.
  induction l as [|c l IH].
  - cbn [app]. rewrite line_length_cons. cbn. lra.
  - destruct (l ++ [x]) as [|d t] eqn:Hl; [by destruct l|].
    cbn [app]. rewrite Hl. cbn [app]. rewrite !line_length_cons.
    cbn [app] in IH. rewrite IH. lra.
Qed.

(** The length of a line in miles is the same when its vertices are listed
    in reverse. *)
Theorem line_length_reverse (coords : list (R * R)) :
  _line_length_mi (reverse coords) = _line_length_mi coords.
Proof.
  induction coords as [|a rest IH]; [done|].
  destruct rest as [|b rest]; [done|].
  rewrite reverse_cons. rewrite (reverse_cons rest b) in IH |- *.
  rewrite line_length_snoc, IH, line_length_cons, segment_len_sym. lra.
Qed.

Lemma point_at_distance_from_past (coords : list (R * R)) (walked d : R) :
  walked + _line_length_mi coords < d →
  _point_at_distance_from coords walked d = last coords.
Proof.
  revert walked. induction coords as [|a rest IH]; intros walked Hd; [done|].
  destruct rest as [|b rest]; [done|].
  rewrite point_at_distance_from_cons. rewrite line_length_cons in Hd.
  pose proof (line_length_nonneg (b :: rest)).
  destruct (Rge_dec _ _) as [?|_]; [lra|].
  rewrite IH by lra. done.
Qed.

(** A distance greater than the length of the line gives the last vertex of
    the line. *)
Theorem point_past_the_end (coords : list (R * R)) (d : R) :
  _line_length_mi coords < d → _point_at_distance coords d = last coords.
Proof.
  intros Hd. apply point_at_distance_from_past. lra.
Qed.

Lemma point_at_distance_from_total (coords : list (R * R)) (walked d : R) :
  coords ≠ [] → is_Some (_point_at_distance_from coords walked d).
Proof.
  revert walked. induction coords as [|a rest IH]; intros walked Hne; [done|].
  destruct rest as [|b rest]; [by eexists|].
  rewrite point_at_distance_from_cons.
  destruct (Rge_dec _ _); [by eexists|]. by apply IH.
Qed.

(** On a line with at least one vertex the sampler returns exactly [n]
    points (none for [n <= 0]), so [main] finds a point at each index it
    reads; on an empty coordinate list it raises for [n >= 1]. *)
Theorem sample_count (coords : list (R * R)) (n : Z) :
  (coords ≠ [] →
   ∃ pts, _sample_points_along_line coords n = Some pts
          ∧ length pts = Z.to_nat n)
  ∧ (coords = [] → (1 <= n)%Z → _sample_points_along_line coords n = None).
Proof.
  split.
  - intros Hne. unfold _sample_points_along_line.
    destruct (Z.leb_spec n 0) as [?|?].
    { exists []. split; [done|]. cbn. lia. }
    destruct (Z.eqb_spec n 1) as [->|?].
    { destruct (point_at_distance_from_total coords 0
                  (_line_length_mi coords / 2) Hne) as [p Hp].
      exists [p]. unfold _point_at_distance. by rewrite Hp. }
    destruct (Rle_dec _ _) as [_|_].
    + destruct coords as [|first rest]; [done|]. eexists. split; [done|].
      apply length_replicate.
    + destruct (mapM (_point_at_distance coords) _) as [pts|] eqn:Hpts.
      * exists pts. split; [done|]. apply length_mapM in Hpts.
        by rewrite length_fmap, length_seq in Hpts.
      * exfalso. apply eq_None_not_Some in Hpts. apply Hpts.
        apply mapM_is_Some, Forall_forall. intros d _.
        by apply point_at_distance_from_total.
  - intros -> Hn. unfold _sample_points_along_line.
    destruct (Z.leb_spec n 0) as [?|_]; [lia|].
    destruct (Z.eqb_spec n 1) as [->|?]; [done|].
    destruct (Rle_dec _ _) as [_|Hpos]; [done|].
    exfalso. apply Hpos. cbn. lra.
Qed.

Lemma point_in_ring_from_off (x y : R) (ring : list (R * R))
    (inside : bool) :
  (∀ p, p ∈ ring → p.2 <= y) ∨ (∀ p, p ∈ ring → y < p.2) →
  _point_in_ring_from x y ring inside = Some inside.
Proof.
  induction ring as [|[x1 y1] rest IH]; intros Hoff; [done|].
  destruct rest as [|[x2 y2] rest]; [done|].
  assert (xorb (if Rgt_dec y1 y then true else false)
               (if Rgt_dec y2 y then true else false) = false) as Hx.
  { destruct Hoff as [Hle|Hgt].
    - pose proof (Hle (x1, y1)) as H1. pose proof (Hle (x2, y2)) as H2.
      cbn in H1, H2.
      destruct (Rgt_dec y1 y) as [?|_];
        [exfalso; assert (y1 <= y) by (apply H1; set_solver); lra|].
      destruct (Rgt_dec y2 y) as [?|_];
        [exfalso; assert (y2 <= y) by (apply H2; set_solver); lra|].
      done.
    - pose proof (Hgt (x1, y1)) as H1. pose proof (Hgt (x2, y2)) as H2.
      cbn in H1, H2.
      destruct (Rgt_dec y1 y) as [_|?];
        [|exfalso; assert (y < y1) by (apply H1; set_solver); lra].
      destruct (Rgt_dec y2 y) as [_|?];
        [|exfalso; assert (y < y2) by (apply H2; set_solver); lra].
      done. }
  change (_point_in_ring_from x y ((x1, y1) :: (x2, y2) :: rest) inside)
    with (if xorb (if Rgt_dec y1 y then true else false)
                  (if Rgt_dec y2 y then true else false)
          then
            if Req_dec_T ((y2 - y1) + 1e-12) 0 then None
            else
              _point_in_ring_from x y ((x2, y2) :: rest)
                (if Rlt_dec x ((x2 - x1) * (y - y1) / ((y2 - y1) + 1e-12) + x1)
                 then negb inside else inside)
          else _point_in_ring_from x y ((x2, y2) :: rest) inside).
  rewrite Hx. apply IH.
  destruct Hoff as [Hle|Hgt]; [left|right]; intros p Hp;
    [apply Hle|apply Hgt]; by right.
Qed.

(** A point whose latitude is at or above that of every vertex of a ring,
    or below that of every vertex, is outside the ring, and the test raises
    nothing. *)
Theorem point_off_the_latitudes_is_outside (x y : R) (ring : list (R * R)) :
  (∀ p, p ∈ ring → p.2 <= y) ∨ (∀ p, p ∈ ring → y < p.2) →
  _point_in_ring (x, y) ring = Some false.
Proof. apply point_in_ring_from_off. Qed.

End MoreLineFacts.

Lemma point_off_the_latitudes_is_outside_witness :
  SeedTierA._point_in_ring (5, 5)%R Samples.square = Some false.
Proof.
  apply point_off_the_latitudes_is_outside. left.
  intros p Hp. unfold Samples.square in Hp.
  repeat (apply elem_of_cons in Hp as [->|Hp]; [cbn; lra|]).
  by apply elem_of_nil in Hp.
Defined.

Lemma meridian_line_length :
  SeedTierA._line_length_mi Samples.meridian_line = 10%R.
Proof.
  unfold Samples.meridian_line. rewrite line_length_cons.
  unfold SeedTierA._segment_len_mi, Samples.meridian_start,
    Samples.meridian_end, SeedTierA._deg_to_miles_lon,
    SeedTierA._deg_to_miles_lat.
  cbv zeta.
  match goal with
  | |- (R_sqrt.sqrt ?x + _ = _)%R => replace x with (10 * 10)%R by lra
  end.
  rewrite sqrt_square by lra. cbn. lra.
Qed.

Lemma point_past_the_end_witness :
  SeedTierA._point_at_distance Samples.meridian_line 11
  = last Samples.meridian_line.
Proof.
  apply point_past_the_end. rewrite meridian_line_length. lra.
Defined.

Section MoreTierASeeding.
Import Geo SeedTierA.
Context {text : PyText}.
Implicit Types (hex_index : list (string * string * list (list (R * R)))).

(** The cell found for a point is the first entry of the index whose
    polygon contains it: the point is in the polygon of that entry and
    outside the polygon of every earlier entry. *)
Theorem find_hex_first_containing (pt : R * R) hex_index
    (cell_id zone_id : string) :
  _find_hex_for_point pt hex_index = Some (Some (cell_id, zone_id)) →
  ∃ (i : nat) poly,
    hex_index !! i = Some (cell_id, zone_id, poly)
    ∧ _point_in_polygon pt poly = Some true
    ∧ ∀ (k : nat) entry,
        (k < i)%nat → hex_index !! k = Some entry →
        _point_in_polygon pt entry.2 = Some false.
Proof.
  induction hex_index as [|[[c z] poly] rest IH]; [done|].
  cbn [_find_hex_for_point].
  destruct (_point_in_polygon pt poly) as [[]|] eqn:Hin;
    cbn [mbind option_bind]; [| |done].
  - intros [= -> ->]. exists 0%nat, poly. split; [done|]. split; [done|].
    intros k entry Hk. lia.
  - intros (i & poly' & Hi & Hin' & Hbefore)%IH.
    exists (S i), poly'. split; [done|]. split; [done|].
    intros [|k] entry Hk Hentry.
    + by injection Hentry as <-.
    + apply (Hbefore k); [lia|done].
Qed.

Lemma find_hex_contains (pt : R * R) hex_index (cell_id zone_id : string) :
  _find_hex_for_point pt hex_index = Some (Some (cell_id, zone_id)) →
  ∃ poly,
    (cell_id, zone_id, poly) ∈ hex_index
    ∧ _point_in_polygon pt poly = Some true.
Proof.
  induction hex_index as [|[[c z] poly] rest IH]; [done|].
  cbn [_find_hex_for_point].
  destruct (_point_in_polygon pt poly) as [[]|] eqn:Hin;
    cbn [mbind option_bind]; [| |done].
  - intros [= -> ->]. exists poly. split; [by left|done].
  - intros (poly' & Hi & Hin')%IH. exists poly'. split; [by right|done].
Qed.

(** The loops of [main] keep any property of the pair [(seeded, seq)] that
    appending a site for a point found in a cell of the index keeps. *)
Lemma seed_corridors_ind (I : list feature * nat → Prop) hex_index :
  (∀ seeded (seq_no i : nat) (pt : R * R) (cell_id zone_id : string)
     (corridor_id : value) (is_alt : bool),
     I (seeded, seq_no) →
     _find_hex_for_point pt hex_index = Some (Some (cell_id, zone_id)) →
     I (seeded
        ++ [Feature (Point pt)
              (site_properties seq_no i cell_id zone_id corridor_id is_alt)],
        S seq_no)) →
  ∀ corridors seeded (seq_no : nat) rollup seeded' (seq_no' : nat) rollup',
    I (seeded, seq_no) →
    seed_corridors hex_index corridors (seeded, seq_no, rollup)
    = Some (seeded', seq_no', rollup') →
    I (seeded', seq_no').
Proof.
  intros Hstep corridors.
  induction corridors as [|c rest IH];
    intros seeded seq_no rollup seeded' seq_no' rollup' Hinv.
  { cbn. by intros [= <- <- _]. }
  cbn [seed_corridors]. intros Hrun.
  destruct (seed_corridor hex_index (seeded, seq_no, rollup) c)
    as [[[seeded1 seq1] rollup1]|] eqn:Hc; [|discriminate Hrun].
  cbn [mbind option_bind] in Hrun. eapply IH; [|exact Hrun].
  clear IH Hrun. unfold seed_corridor in Hc. cbv beta iota zeta in Hc.
  destruct (geometry_of c) as [| coords | | |]; try discriminate Hc.
  destruct (py_int (py_or (get_or _ "tierA_target_sites_min" _) _))
    as [tmin|]; [|discriminate Hc].
  cbn [mbind option_bind] in Hc.
  destruct (py_int _) as [tmax|]; [|discriminate Hc].
  cbn [mbind option_bind] in Hc.
  case_decide; [discriminate Hc|].
  destruct (_ =? _)%Z; [by injection Hc as <- <- _|].
  destruct (_sample_points_along_line _ _) as [pts|]; [|discriminate Hc].
  cbn [mbind option_bind] in Hc.
  destruct (foldl _ _ _) as [[seeded2 seq2]|] eqn:Hfold;
    [|discriminate Hc].
  cbn [mbind option_bind] in Hc. injection Hc as <- <- _.
  eapply (foldl_option_inv _ I); [| |exact Hinv|exact Hfold].
  - done.
  - intros [s q] i [s' q'] Hs Hpt. unfold seed_point in Hpt.
    cbn [mbind option_bind] in Hpt.
    destruct (pts !! i) as [pt|]; [|discriminate Hpt].
    cbn [mbind option_bind] in Hpt.
    destruct (_find_hex_for_point pt hex_index)
      as [[[cell_id zone_id]|]|] eqn:Hfind;
      cbn [mbind option_bind] in Hpt; [| |discriminate Hpt].
    + injection Hpt as <- <-. by apply Hstep.
    + by injection Hpt as <- <-.
Qed.

Lemma tiera_site_properties_fields (seq_no i : nat)
    (cell_id zone_id : string) (corridor_id : value) (is_alt : bool) :
  get (site_properties seq_no i cell_id zone_id corridor_id is_alt) "tier"
  = VStr "A"
  ∧ get (site_properties seq_no i cell_id zone_id corridor_id is_alt)
        "status" = VStr "CANDIDATE"
  ∧ get (site_properties seq_no i cell_id zone_id corridor_id is_alt)
        "cell_id" = VStr cell_id
  ∧ get (site_properties seq_no i cell_id zone_id corridor_id is_alt)
        "zone_id" = VStr zone_id
  ∧ get (site_properties seq_no i cell_id zone_id corridor_id is_alt)
        "corridor_id" = corridor_id
  ∧ get (site_properties seq_no i cell_id zone_id corridor_id is_alt)
        "notes" = VStr (if is_alt then "ALT" else "").
Proof. repeat split; reflexivity. Qed.

(** A seeded Tier-A site: a Tier-A candidate at a point that lies in the
    polygon of the indexed cell it names. *)
Definition placed_in_its_cell hex_index (f : feature) : Prop :=
  ∃ (pt : R * R) (cell_id zone_id : string) poly,
    geometry_of f = Point pt
    ∧ get (properties f) "tier" = VStr "A"
    ∧ get (properties f) "status" = VStr "CANDIDATE"
    ∧ get (properties f) "cell_id" = VStr cell_id
    ∧ get (properties f) "zone_id" = VStr zone_id
    ∧ (cell_id, zone_id, poly) ∈ hex_index
    ∧ _point_in_polygon pt poly = Some true.

(** Every seeded site is a Tier-A candidate whose point lies in the polygon
    of the indexed cell whose cell_id and zone_id it carries; the only
    Tier-A sites written are the seeded ones, and every site found that is
    not a Tier-A site is written back. *)
Theorem tiera_sites_are_regenerated
    (corridors hex_features existing : list feature) out :
  main corridors hex_features existing = Some out →
  (∀ f, f ∈ out_seeded out →
        placed_in_its_cell (_build_hex_index hex_features) f)
  ∧ (∀ f, f ∈ out_sites out →
          get (properties f) "tier" = VStr "A" → f ∈ out_seeded out)
  ∧ (∀ f, f ∈ existing →
          get (properties f) "tier" ≠ VStr "A" → f ∈ out_sites out).
Proof.
  intros Hrun. unfold main in Hrun.
  assert (∃ seeded seq_no rollup,
            seed_corridors (_build_hex_index hex_features) corridors
              ([], 1%nat, ∅)
            = Some (seeded, seq_no, rollup)
            ∧ out = Outcome
                      (filter (λ f, get (properties f) "tier" ≠ VStr "A")
                              existing ++ seeded)
                      seeded rollup)
    as (seeded & seq_no & rollup & Hseed & ->).
  { destruct corridors, hex_features; try discriminate Hrun.
    destruct (seed_corridors _ _ _) as [[[seeded seq_no] rollup]|];
      [|discriminate Hrun].
    cbn [mbind option_bind] in Hrun. injection Hrun as <-. by eauto. }
  cbn [out_sites out_seeded]. split; [|split].
  - apply Forall_forall.
    apply (seed_corridors_ind
             (λ st, Forall (placed_in_its_cell
                              (_build_hex_index hex_features)) st.1)
             _) in Hseed; [done| |done].
    intros s q i pt cell_id zone_id cid alt Hs Hfind. cbn [fst] in *.
    apply Forall_app. split; [done|]. apply Forall_singleton.
    destruct (find_hex_contains _ _ _ _ Hfind) as (poly & Hk & Hin).
    exists pt, cell_id, zone_id, poly.
    destruct (tiera_site_properties_fields q i cell_id zone_id cid alt)
      as (? & ? & ? & ? & _).
    repeat (split; [done|]). done.
  - intros f [Hf|Hf]%elem_of_app; [|done].
    apply list_elem_of_filter in Hf as [Hne _]. done.
  - intros f Hf Hne. apply elem_of_app. left.
    by apply list_elem_of_filter.
Qed.

Lemma seed_corridors_None hex_index corridors
    (st : list feature * nat * gmap string rollup_row) c :
  c ∈ corridors →
  (∀ st, seed_corridor hex_index st c = None) →
  seed_corridors hex_index corridors st = None.
Proof.
  intros Hc Hnone. revert st.
  induction corridors as [|c0 rest IH]; intros st;
    [by apply elem_of_nil in Hc|].
  cbn [seed_corridors]. apply elem_of_cons in Hc as [->|Hc].
  - by rewrite Hnone.
  - destruct (seed_corridor hex_index st c0) as [st1|]; [|done].
    cbn [mbind option_bind]. by apply IH.
Qed.

(** Tier-A seeding raises, and writes nothing, when there is no corridor,
    no hex cell, a corridor whose geometry is not a LineString or a corridor
    with no corridor_id. *)
Theorem tiera_seeding_aborts
    (corridors hex_features existing : list feature) :
  corridors = [] ∨ hex_features = []
  ∨ (∃ c, c ∈ corridors
          ∧ ((∀ coords, geometry_of c ≠ LineString coords)
             ∨ get (properties c) "corridor_id" = VNone)) →
  main corridors hex_features existing = None.
Proof.
  intros [->|[->|(c & Hc & Hbad)]];
    [reflexivity|destruct corridors; reflexivity|].
  unfold main. destruct corridors as [|c0 rest];
    [by apply elem_of_nil in Hc|].
  destruct hex_features as [|h hs]; [reflexivity|].
  rewrite (seed_corridors_None _ _ _ c Hc); [done|].
  intros [[seeded seq_no] rollup]. unfold seed_corridor.
  destruct Hbad as [Hgeom|Hid].
  - destruct (geometry_of c) as [| coords | | |] eqn:Hg; try done.
    by destruct (Hgeom coords).
  - destruct (geometry_of c); try done. rewrite Hid.
    destruct (py_int (py_or (get_or _ "tierA_target_sites_min" _) _));
      [|reflexivity].
    cbn [mbind option_bind].
    destruct (py_int _); [|reflexivity]. cbn [mbind option_bind].
    by rewrite decide_True.
Qed.

Definition row_adds_up (r : rollup_row) : Prop :=
  (total_total r = required_total r + alternate_total r
   ∧ 0 <= required_total r ∧ 0 <= alternate_total r)%Z.

Lemma seed_corridor_rollup hex_index seeded (seq_no : nat) rollup c
    seeded' (seq_no' : nat) rollup' :
  map_Forall (λ _, row_adds_up) rollup →
  seed_corridor hex_index (seeded, seq_no, rollup) c
  = Some (seeded', seq_no', rollup') →
  map_Forall (λ _, row_adds_up) rollup'.
Proof.
  intros Hinv Hc. unfold seed_corridor in Hc. cbv beta iota zeta in Hc.
  destruct (geometry_of c) as [| coords | | |]; try discriminate Hc.
  destruct (py_int (py_or (get_or _ "tierA_target_sites_min" _) _))
    as [tmin|]; [|discriminate Hc].
  cbn [mbind option_bind] in Hc.
  destruct (py_int _) as [tmax|]; [|discriminate Hc].
  cbn [mbind option_bind] in Hc.
  case_decide; [discriminate Hc|].
  assert (map_Forall (λ _, row_adds_up)
            (<[py_str (get (properties c) "corridor_id") :=
                 RollupRow
                   (required_total
                      (default (RollupRow 0 0 0)
                         (rollup !! py_str (get (properties c) "corridor_id")))
                    + Z.max 0 tmin)
                   (alternate_total
                      (default (RollupRow 0 0 0)
                         (rollup !! py_str (get (properties c) "corridor_id")))
                    + Z.max 0 (tmax - tmin))
                   (total_total
                      (default (RollupRow 0 0 0)
                         (rollup !! py_str (get (properties c) "corridor_id")))
                    + (Z.max 0 tmin + Z.max 0 (tmax - tmin)))]> rollup))
    as Hnew.
  { apply map_Forall_insert_2; [|done].
    assert (row_adds_up
              (default (RollupRow 0 0 0)
                 (rollup !! py_str (get (properties c) "corridor_id"))))
      as (Ht & Hr & Ha).
    { destruct (rollup !! _) as [r|] eqn:Hr; cbn [default].
      - by apply (Hinv _ r Hr).
      - unfold row_adds_up. cbn. lia. }
    unfold row_adds_up. cbn [required_total alternate_total total_total].
    lia. }
  destruct (_ =? _)%Z; [by injection Hc as _ _ <-|].
  destruct (_sample_points_along_line _ _) as [pts|]; [|discriminate Hc].
  cbn [mbind option_bind] in Hc.
  destruct (foldl _ _ _) as [[seeded2 seq2]|]; [|discriminate Hc].
  cbn [mbind option_bind] in Hc. by injection Hc as _ _ <-.
Qed.

(** In every row of the corridor rollup the total is the sum of required
    and alternate, neither of which is negative. *)
Theorem tiera_rollup_rows_add_up
    (corridors hex_features existing : list feature) out
    (corridor_id : string) (r : rollup_row) :
  main corridors hex_features existing = Some out →
  out_rollup out !! corridor_id = Some r →
  (total_total r = required_total r + alternate_total r
   ∧ 0 <= required_total r ∧ 0 <= alternate_total r)%Z.
Proof.
  intros Hrun Hr. unfold main in Hrun.
  destruct corridors as [|c0 rest]; [done|].
  destruct hex_features as [|h hs]; [done|].
  destruct (seed_corridors _ _ _) as [[[seeded seq_no] rollup]|] eqn:Hseed;
    [|discriminate Hrun].
  cbn [mbind option_bind] in Hrun. injection Hrun as <-.
  cbn [out_rollup] in Hr.
  assert (∀ corridors st st',
            map_Forall (λ _, row_adds_up) st.2 →
            seed_corridors (_build_hex_index (h :: hs)) corridors st
            = Some st' →
            map_Forall (λ _, row_adds_up) st'.2) as Hall.
  { clear. intros corridors.
    induction corridors as [|c rest IH]; intros st st' Hinv.
    - cbn. by intros [= <-].
    - cbn [seed_corridors]. intros Hrun.
      destruct (seed_corridor _ st c) as [st1|] eqn:Hc;
        [|discriminate Hrun].
      cbn [mbind option_bind] in Hrun. apply (IH st1 st'); [|done].
      destruct st as [[s q] ro], st1 as [[s1 q1] ro1].
      by eapply seed_corridor_rollup. }
  apply (Hall _ _ _ (map_Forall_empty _) Hseed _ _ Hr).
Qed.

End MoreTierASeeding.

Lemma origin_off_far_square :
  SeedTierA._point_in_polygon (0, 0)%R [Samples.far_square] = Some false.
Proof.
  unfold SeedTierA._point_in_polygon, SeedTierA._point_in_ring,
    Samples.far_square.
  cbn [SeedTierA._point_in_ring_from]. decide_reals. reflexivity.
Qed.

Lemma origin_found_in_second_cell :
  SeedTierA._find_hex_for_point (0, 0)%R Samples.two_cell_index
  = Some (Some ("H1", "Z_CENTRAL_LOW_RELIEF")).
Proof.
  unfold Samples.two_cell_index. cbn [SeedTierA._find_hex_for_point].
  rewrite origin_off_far_square. cbn [mbind option_bind].
  by rewrite origin_in_square.
Qed.

(** The theorem on an index of two cells, for the origin: the first entry,
    the cell over the far square, is tested and does not contain the
    origin; the second entry, the cell H1 over the square around the origin,
    is the one found. *)
Lemma find_hex_first_containing_witness :
  ∃ poly,
    Samples.two_cell_index !! 1%nat
    = Some ("H1", "Z_CENTRAL_LOW_RELIEF", poly)
    ∧ SeedTierA._point_in_polygon (0, 0)%R poly = Some true
    ∧ Samples.two_cell_index !! 0%nat
      = Some ("H_FAR", "Z_WEST_HIGH_RELIEF", [Samples.far_square])
    ∧ SeedTierA._point_in_polygon (0, 0)%R [Samples.far_square]
      = Some false.
Proof.
  destruct (find_hex_first_containing (0, 0)%R Samples.two_cell_index
              "H1" "Z_CENTRAL_LOW_RELIEF" origin_found_in_second_cell)
    as (i & poly & Hi & Hin & Hbefore).
  destruct i as [|[|i]]; [discriminate Hi| |discriminate Hi].
  exists poly. split; [exact Hi|]. split; [exact Hin|].
  split; [reflexivity|].
  exact (Hbefore 0%nat
           ("H_FAR", "Z_WEST_HIGH_RELIEF", [Samples.far_square])
           (Nat.lt_0_succ 0) eq_refl).
Defined.

Lemma tiera_seeding_aborts_witness :
  SeedTierA.main (H := no_text) [] Samples.scored_hexes [] = None.
Proof. apply tiera_seeding_aborts. left. reflexivity. Defined.

Lemma tiera_rollup_rows_add_up_witness :
  (SeedTierA.total_total (SeedTierA.RollupRow 1 0 1)
   = SeedTierA.required_total (SeedTierA.RollupRow 1 0 1)
     + SeedTierA.alternate_total (SeedTierA.RollupRow 1 0 1)
   ∧ 0 <= SeedTierA.required_total (SeedTierA.RollupRow 1 0 1)
   ∧ 0 <= SeedTierA.alternate_total (SeedTierA.RollupRow 1 0 1))%Z.
Proof.
  apply (tiera_rollup_rows_add_up (text := no_text) Samples.corridors
           [Samples.scored_hex "H1" 1 1]
           [Samples.old_site; Samples.kept_site] Samples.tiera_seeded "C2"
           (SeedTierA.RollupRow 1 0 1) tiera_sample_run).
  reflexivity.
Defined.

Lemma tiera_sites_are_regenerated_witness :
  (∀ f, f ∈ SeedTierA.out_seeded Samples.tiera_seeded →
        placed_in_its_cell
          (SeedTierA._build_hex_index (H := no_text)
             [Samples.scored_hex "H1" 1 1]) f)
  ∧ (∀ f, f ∈ SeedTierA.out_sites Samples.tiera_seeded →
          get (Geo.properties f) "tier" = VStr "A" →
          f ∈ SeedTierA.out_seeded Samples.tiera_seeded)
  ∧ (∀ f, f ∈ [Samples.old_site; Samples.kept_site] →
          get (Geo.properties f) "tier" ≠ VStr "A" →
          f ∈ SeedTierA.out_sites Samples.tiera_seeded).
Proof.
  exact (tiera_sites_are_regenerated (text := no_text) Samples.corridors
           [Samples.scored_hex "H1" 1 1]
           [Samples.old_site; Samples.kept_site] Samples.tiera_seeded
           tiera_sample_run).
Defined.

(** * Further properties of Tier-B seeding and of the tessellator *)

Section MoreTierBSeeding.
Import Geo SeedTierB.
Local Open Scope R_scope.

Lemma candidate_points_length (lon lat : R) (n : Z) :
  (1 <= n)%Z → length (_candidate_points lon lat n) = Z.to_nat n.
Proof.
  intros Hn. unfold _candidate_points.
  destruct (Z.leb_spec n 1) as [?|?].
  { replace n with 1%Z by lia. done. }
  rewrite length_app, !length_fmap, length_take, length_seq.
  change (length base_offsets) with 9%nat. lia.
Qed.

Lemma offset_point_inj (lon lat : R) :
  Inj (=) (=) (λ '(dx, dy), (lon + IZR dx * 0.0003, lat + IZR dy * 0.0003)).
Proof.
  intros [dx dy] [dx' dy'] [= Hx Hy].
  assert (IZR dx = IZR dx') as ->%eq_IZR by lra.
  assert (IZR dy = IZR dy') as ->%eq_IZR by lra.
  done.
Qed.

(** For [n >= 1] the candidate points of a cell are [n] in number; they are
    pairwise distinct for [n <= 9]; from [n = 10] on the tenth point is the
    sixth one again, one step east of the centroid. *)
Theorem candidate_points_distinct_up_to_nine (lon lat : R) (n : Z) :
  ((1 <= n)%Z → length (_candidate_points lon lat n) = Z.to_nat n)
  ∧ ((n <= 9)%Z → NoDup (_candidate_points lon lat n))
  ∧ ((10 <= n)%Z →
     _candidate_points lon lat n !! 9%nat = Some (lon + 0.0003, lat)
     ∧ _candidate_points lon lat n !! 5%nat = Some (lon + 0.0003, lat)).
Proof.
  split; [apply candidate_points_length|]. split.
  - intros Hn. unfold _candidate_points.
    destruct (Z.leb_spec n 1) as [?|?]; [apply NoDup_singleton|].
    replace (Z.to_nat n - length base_offsets)%nat with 0%nat
      by (change (length base_offsets) with 9%nat; lia).
    cbn [seq fmap list_fmap]. rewrite app_nil_r.
    apply (@NoDup_fmap_2 _ _ _ (offset_point_inj lon lat)).
    apply (sublist_NoDup _ base_offsets); [|apply sublist_take].
    apply (bool_decide_unpack _). vm_compute. exact I.
  - intros Hn. unfold _candidate_points.
    destruct (Z.leb_spec n 1) as [?|_]; [lia|].
    replace (Z.to_nat (Z.min n (Z.of_nat (length base_offsets)))) with 9%nat
      by (change (length base_offsets) with 9%nat; lia).
    change (take 9 base_offsets) with base_offsets.
    split.
    + rewrite lookup_app_r by (by rewrite length_fmap).
      rewrite length_fmap. change (length base_offsets) with 9%nat.
      rewrite list_lookup_fmap, lookup_seq_lt by lia.
      cbn [fmap option_fmap option_map]. do 2 f_equal.
      replace (Z.of_nat (9 + (9 - 9)) - Z.of_nat 9 + 1)%Z with 1%Z by lia.
      lra.
    + rewrite lookup_app_l by (rewrite length_fmap; cbn; lia).
      rewrite list_lookup_fmap.
      change (base_offsets !! 5%nat) with (Some (1, 0)%Z).
      cbn [fmap option_fmap option_map]. do 2 f_equal; lra.
Qed.


Context {text : PyText}.

Lemma tierb_site_properties_fields (seq_no i : nat) (cell_id zone_id : value)
    (is_alt : bool) :
  get (site_properties seq_no i cell_id zone_id is_alt) "site_id"
  = VStr (_new_site_id seq_no)
  ∧ get (site_properties seq_no i cell_id zone_id is_alt) "cell_id" = cell_id
  ∧ get (site_properties seq_no i cell_id zone_id is_alt) "zone_id" = zone_id
  ∧ get (site_properties seq_no i cell_id zone_id is_alt) "tier" = VStr "B"
  ∧ get (site_properties seq_no i cell_id zone_id is_alt) "status"
    = VStr "CANDIDATE"
  ∧ get (site_properties seq_no i cell_id zone_id is_alt) "notes"
    = VStr (if is_alt then "ALT" else "").
Proof. repeat split; reflexivity. Qed.

(** The loop over the points of one cell, from the point numbered
    [start]. *)
Lemma foldl_seed_point (cell_id zone_id : value) (req : Z)
    (pts : list (R * R)) (len start : nat) seeded (seq_no : nat) :
  (start + len <= length pts)%nat →
  ∃ new,
    foldl (seed_point cell_id zone_id req pts) (Some (seeded, seq_no))
          (seq start len)
    = Some (seeded ++ new, (seq_no + len)%nat)
    ∧ length new = len
    ∧ ∀ (k : nat) f,
        new !! k = Some f →
        ∃ pt,
          pts !! (start + k)%nat = Some pt
          ∧ f = Feature (Point pt)
                  (site_properties (seq_no + k) (start + k) cell_id zone_id
                     (req <=? Z.of_nat (start + k))%Z).
Proof.
  revert start seeded seq_no.
  induction len as [|len IH]; intros start seeded seq_no Hlen.
  - exists []. cbn [seq foldl]. rewrite app_nil_r, Nat.add_0_r.
    split; [done|]. split; [done|]. by intros k f ?.
  - cbn [seq foldl].
    destruct (lookup_lt_is_Some_2 pts start) as [pt Hpt]; [lia|].
    assert (seed_point cell_id zone_id req pts (Some (seeded, seq_no)) start
            = Some (seeded
                    ++ [Feature (Point pt)
                          (site_properties seq_no start cell_id zone_id
                             (req <=? Z.of_nat start)%Z)],
                    S seq_no)) as ->.
    { unfold seed_point. cbn [mbind option_bind]. by rewrite Hpt. }
    destruct (IH (S start) (seeded ++ [Feature (Point pt)
                          (site_properties seq_no start cell_id zone_id
                             (req <=? Z.of_nat start)%Z)]) (S seq_no))
      as (new & -> & Hnew & Hall); [lia|].
    eexists (_ :: new). rewrite <- app_assoc. cbn [app].
    split; [do 2 f_equal; lia|]. split; [cbn; lia|].
    intros [|k] f Hk.
    + injection Hk as <-. exists pt. rewrite !Nat.add_0_r. done.
    + destruct (Hall k f Hk) as (pt' & Hpt' & ->). exists pt'.
      replace (start + S k)%nat with (S start + k)%nat by lia.
      replace (seq_no + S k)%nat with (S seq_no + k)%nat by lia. done.
Qed.

(** For a cell with an id, a zone, a centroid and [req + alt > 0] sites to
    place, the turn of the loop succeeds and appends [req + alt] sites: the
    [k]-th at the [k]-th candidate point, numbered [seq + k], with the
    cell's id and zone, tier B, status CANDIDATE, and flagged ALT exactly
    from the [req]-th on. *)
Theorem seed_hex_places_required_then_alternates
    seeded (seq_no : nat) (by_zone : gmap key zone_row) (hf : feature)
    (req alt : Z) (lon lat : R) :
  let props := properties hf in
  let cell_id :=
    py_or (py_or (get props "cell_id") (get props "id"))
          (get props "hex_id") in
  let zone_id := get props "zone_id" in
  cell_id ≠ VNone →
  zone_id ≠ VNone →
  py_int (py_or (get_or props "tierB_sites_required" (VInt 0)) (VInt 0))
  = Some req →
  py_int (py_or (get_or props "tierB_alternate_required" (VInt 0)) (VInt 0))
  = Some alt →
  (0 < req + alt)%Z →
  _get_centroid (geometry_of hf) = Some (lon, lat) →
  ∃ new by_zone',
    seed_hex (seeded, seq_no, by_zone) hf
    = Some (seeded ++ new, (seq_no + length new)%nat, by_zone')
    ∧ length new = Z.to_nat (req + alt)
    ∧ ∀ (k : nat) f,
        new !! k = Some f →
        ∃ pt,
          _candidate_points lon lat (req + alt) !! k = Some pt
          ∧ geometry_of f = Point pt
          ∧ get (properties f) "site_id"
            = VStr ("S_B_" +:+ zero_pad 4 (seq_no + k))
          ∧ get (properties f) "cell_id" = cell_id
          ∧ get (properties f) "zone_id" = zone_id
          ∧ get (properties f) "tier" = VStr "B"
          ∧ get (properties f) "status" = VStr "CANDIDATE"
          ∧ get (properties f) "notes"
            = VStr (if (req <=? Z.of_nat k)%Z then "ALT" else "").
Proof.
  intros props cell_id zone_id Hcell Hzone Hreq Halt Htotal Hcentroid.
  unfold seed_hex. cbv beta iota zeta. fold props. fold cell_id zone_id.
  rewrite (decide_False (P := cell_id = VNone)) by done.
  rewrite (decide_False (P := zone_id = VNone)) by done.
  rewrite Hreq. cbn [mbind option_bind]. rewrite Halt.
  cbn [mbind option_bind].
  destruct (Z.eqb_spec (req + alt) 0) as [?|_]; [lia|].
  rewrite Hcentroid. cbn [mbind option_bind].
  destruct (foldl_seed_point cell_id zone_id req
              (_candidate_points lon lat (req + alt))
              (Z.to_nat (req + alt)) 0 seeded seq_no)
    as (new & -> & Hlen & Hall).
  { rewrite candidate_points_length by lia. lia. }
  cbn [mbind option_bind]. exists new. eexists.
  split; [by rewrite Hlen|]. split; [done|].
  intros k f Hk. destruct (Hall k f Hk) as (pt & Hpt & ->).
  exists pt. cbn [Nat.add] in Hpt.
  destruct (tierb_site_properties_fields (seq_no + k) (0 + k) cell_id
              zone_id (req <=? Z.of_nat (0 + k))%Z)
    as (Hid & ? & ? & ? & ? & Hnotes).
  cbn [geometry_of properties]. repeat (split; [done|]). exact Hnotes.
Qed.

Definition zone_row_adds_up (r : zone_row) : Prop :=
  (total r = tierB_sites_required r + tierB_alternate_required r)%Z.

Lemma seed_hex_by_zone seeded (seq_no : nat) by_zone hf
    seeded' (seq_no' : nat) by_zone' :
  map_Forall (λ _, zone_row_adds_up) by_zone →
  seed_hex (seeded, seq_no, by_zone) hf = Some (seeded', seq_no', by_zone') →
  map_Forall (λ _, zone_row_adds_up) by_zone'.
Proof.
  intros Hinv Hrun. unfold seed_hex in Hrun. cbv beta iota zeta in Hrun.
  case_decide; [discriminate Hrun|]. case_decide; [discriminate Hrun|].
  destruct (py_int (py_or (get_or _ "tierB_sites_required" _) _))
    as [req|]; [|discriminate Hrun].
  cbn [mbind option_bind] in Hrun.
  destruct (py_int _) as [alt|]; [|discriminate Hrun].
  cbn [mbind option_bind] in Hrun.
  assert (map_Forall (λ _, zone_row_adds_up)
            (<[key_of (get (properties hf) "zone_id") :=
                 ZoneRow
                   (tierB_sites_required
                      (default (ZoneRow 0 0 0)
                         (by_zone !! key_of (get (properties hf) "zone_id")))
                    + req)
                   (tierB_alternate_required
                      (default (ZoneRow 0 0 0)
                         (by_zone !! key_of (get (properties hf) "zone_id")))
                    + alt)
                   (total
                      (default (ZoneRow 0 0 0)
                         (by_zone !! key_of (get (properties hf) "zone_id")))
                    + (req + alt))]> by_zone)) as Hnew.
  { apply map_Forall_insert_2; [|done].
    assert (zone_row_adds_up
              (default (ZoneRow 0 0 0)
                 (by_zone !! key_of (get (properties hf) "zone_id"))))
      as Hz.
    { destruct (by_zone !! _) as [r|] eqn:Hr; cbn [default].
      - by apply (Hinv _ r Hr).
      - unfold zone_row_adds_up. cbn. lia. }
    unfold zone_row_adds_up in *.
    cbn [tierB_sites_required tierB_alternate_required total]. lia. }
  destruct (_ =? _)%Z; [by injection Hrun as _ _ <-|].
  destruct (_get_centroid _) as [[lon0 lat0]|]; [|discriminate Hrun].
  cbn [mbind option_bind] in Hrun.
  destruct (foldl _ _ _) as [[seeded1 seq1]|]; [|discriminate Hrun].
  cbn [mbind option_bind] in Hrun. by injection Hrun as _ _ <-.
Qed.

Lemma seed_hexes_by_zone hex_features st st' :
  map_Forall (λ _, zone_row_adds_up) st.2 →
  seed_hexes hex_features st = Some st' →
  map_Forall (λ _, zone_row_adds_up) st'.2.
Proof.
  revert st. induction hex_features as [|hf rest IH]; intros st Hinv.
  - cbn. by intros [= <-].
  - cbn [seed_hexes]. intros Hrun.
    destruct (seed_hex st hf) as [st1|] eqn:Hhf; [|discriminate Hrun].
    cbn [mbind option_bind] in Hrun. apply (IH st1); [|done].
    destruct st as [[s q] bz], st1 as [[s1 q1] bz1].
    by eapply seed_hex_by_zone.
Qed.

(** In every row of the requirement table by zone, in either mode, the
    total is the sum of the required and the alternate sites. *)
Theorem tierb_zone_rows_add_up (replace_sites_file : bool)
    (hex_features existing : list feature) out (zone_id : key)
    (r : zone_row) :
  main_with replace_sites_file hex_features existing = Some out →
  out_by_zone out !! zone_id = Some r →
  (total r = tierB_sites_required r + tierB_alternate_required r)%Z.
Proof.
  intros Hrun Hr. unfold main_with in Hrun.
  destruct hex_features as [|hf rest]; [done|].
  destruct (match (if negb replace_sites_file then existing else []) with
            | [] => Some 1%Z
            | _ :: _ => _next_site_seq
                          (if negb replace_sites_file then existing else [])
            end) as [s|]; [|discriminate Hrun].
  cbn [mbind option_bind] in Hrun.
  destruct (seed_hexes _ _) as [[[seeded seq_no] by_zone]|] eqn:Hseed;
    [|discriminate Hrun].
  cbn [mbind option_bind] in Hrun. injection Hrun as <-.
  cbn [out_by_zone] in Hr.
  apply seed_hexes_by_zone in Hseed; [|apply map_Forall_empty].
  by apply (Hseed _ r Hr).
Qed.

Lemma next_site_seq_from_spec (fs : list feature) (m s : Z) :
  _next_site_seq_from fs m = Some s →
  (m + 1 <= s)%Z
  ∧ ∀ f (site_id : string) (k : Z),
      f ∈ fs →
      get_or (properties f) "site_id" (VStr "") = VStr site_id →
      String.prefix "S_B_" site_id = true →
      str_isdigit (last_segment site_id "") = true →
      int_of_str (last_segment site_id "") = Some k →
      (k < s)%Z.
Proof.
  revert m. induction fs as [|f fs IH]; intros m.
  - cbn. intros [= <-]. split; [lia|]. by intros f id k ?%elem_of_nil.
  - cbn [_next_site_seq_from].
    assert (∀ m', (m <= m')%Z → _next_site_seq_from fs m' = Some s →
              (m + 1 <= s)%Z
              ∧ ∀ f' (site_id : string) (k : Z),
                  f' ∈ fs →
                  get_or (properties f') "site_id" (VStr "") = VStr site_id →
                  String.prefix "S_B_" site_id = true →
                  str_isdigit (last_segment site_id "") = true →
                  int_of_str (last_segment site_id "") = Some k →
                  (k < s)%Z) as Hrest.
    { intros m' Hm (Hle & Hall)%IH. split; [lia|done]. }
    destruct (get_or (properties f) "site_id" (VStr "")) as [| | | |id] eqn:Hid;
      try (intros (Hle & Hall)%(Hrest m); [|lia]; split; [done|];
           intros f' id' k [->|?]%elem_of_cons; [congruence|by eapply Hall]).
    destruct (String.prefix "S_B_" id) eqn:Hpre;
      [|intros (Hle & Hall)%(Hrest m); [|lia]; split; [done|];
        intros f' id' k [->|?]%elem_of_cons; [congruence|by eapply Hall]].
    destruct (str_isdigit (last_segment id "")) eqn:Hdig;
      [|intros (Hle & Hall)%(Hrest m); [|lia]; split; [done|];
        intros f' id' k [->|?]%elem_of_cons; [congruence|by eapply Hall]].
    destruct (int_of_str (last_segment id "")) as [n|] eqn:Hint; [|done].
    cbn [mbind option_bind]. intros Hrun.
    destruct (IH _ Hrun) as [Hle Hall]. split; [lia|].
    intros f' id' k [->|?]%elem_of_cons; [|by eapply Hall].
    rewrite Hid. intros [= <-] _ _. rewrite Hint. intros [= <-]. lia.
Qed.

(** With [REPLACE_SITES_FILE] off, the pass writes the sites found followed
    by the seeded ones; the seeded site_ids are numbered consecutively from
    the next free number, which is 1 for an empty file and otherwise greater
    than the number of every S_B_ site_id found. *)
Theorem tierb_append_mode (hex_features existing : list feature) out :
  main_with false hex_features existing = Some out →
  ∃ s : Z,
    out_sites out = existing ++ out_seeded out
    ∧ (1 <= s)%Z
    ∧ (existing = [] → s = 1%Z)
    ∧ (existing ≠ [] → _next_site_seq existing = Some s)
    ∧ site_ids (out_seeded out)
      = (λ k, VStr ("S_B_" +:+ zero_pad 4 k))
          <$> seq (Z.to_nat s) (length (out_seeded out))
    ∧ ∀ f (site_id : string) (k : Z),
        f ∈ existing →
        get_or (properties f) "site_id" (VStr "") = VStr site_id →
        String.prefix "S_B_" site_id = true →
        str_isdigit (last_segment site_id "") = true →
        int_of_str (last_segment site_id "") = Some k →
        (k < s)%Z.
Proof.
  intros Hrun. unfold main_with in Hrun.
  destruct hex_features as [|hf rest]; [done|].
  cbn [negb] in Hrun.
  assert (∃ s, match existing with
               | [] => Some 1%Z
               | _ :: _ => _next_site_seq existing
               end = Some s
               ∧ (1 <= s)%Z
               ∧ (existing = [] → s = 1%Z)
               ∧ (existing ≠ [] → _next_site_seq existing = Some s)
               ∧ ∀ f (site_id : string) (k : Z),
                   f ∈ existing →
                   get_or (properties f) "site_id" (VStr "") = VStr site_id →
                   String.prefix "S_B_" site_id = true →
                   str_isdigit (last_segment site_id "") = true →
                   int_of_str (last_segment site_id "") = Some k →
                   (k < s)%Z) as (s & Hs & Hle & Hnil & Hcons & Hall).
  { destruct existing as [|f0 fs] eqn:He.
    - exists 1%Z. repeat split; try done;
        by intros f id k ?%elem_of_nil.
    - destruct (_next_site_seq (f0 :: fs)) as [s|] eqn:Hnext;
        [|discriminate Hrun].
      exists s. destruct (next_site_seq_from_spec _ _ _ Hnext) as [? ?].
      repeat split; try done; lia. }
  rewrite Hs in Hrun. cbn [mbind option_bind] in Hrun.
  destruct (seed_hexes _ _) as [[[seeded seq_no] by_zone]|] eqn:Hseed;
    [|discriminate Hrun].
  cbn [mbind option_bind] in Hrun. injection Hrun as <-.
  cbn [out_sites out_seeded].
  apply (tierb_seed_hexes_inv (Z.to_nat s)) in Hseed as (_ & Hnum & _);
    [|done].
  exists s. repeat (split; [done|]). done.
Qed.

End MoreTierBSeeding.

Section TessellationFacts.
Local Open Scope R_scope.

(** The centroid Tier-B seeding computes for a hexagon of the tessellator
    is the center the hexagon was drawn around. *)
Theorem hex_centroid_is_center (center_lon center_lat r_mi : R) :
  SeedTierB._get_centroid
    (Geo.Polygon (MakeHexCells.hex_polygon center_lon center_lat r_mi))
  = Some (center_lon, center_lat).
Proof.
  unfold SeedTierB._get_centroid, MakeHexCells.hex_polygon. cbv zeta.
  cbn [head mbind option_bind]. unfold SeedTierB._centroid_from_ring.
  cbn [removelast fmap list_fmap fst snd length].
  rewrite decide_False by done. unfold SeedTierB.sum_R. cbn [foldl].
  change (INR 6) with (1 + 1 + 1 + 1 + 1 + 1).
  do 2 f_equal; field.
Qed.

Lemma row_cells_numbered (fuel : nat) (lon lat lon_step lon_max : R)
    (cell_idx : nat) :
  (MakeHexCells.row_cells fuel lon lat lon_step lon_max cell_idx).2
  = (cell_idx
     + length (MakeHexCells.row_cells fuel lon lat lon_step lon_max
                 cell_idx).1)%nat
  ∧ ∀ (k : nat) f,
      (MakeHexCells.row_cells fuel lon lat lon_step lon_max cell_idx).1 !! k
      = Some f →
      MakeHexCells.properties f
      = MakeHexCells.cell_properties (cell_idx + S k).
Proof.
  revert lon cell_idx. induction fuel as [|fuel IH]; intros lon cell_idx.
  - cbn. split; [lia|]. by intros k f ?.
  - cbn [MakeHexCells.row_cells].
    destruct (Rle_dec lon lon_max); [|cbn; split; [lia|by intros k f ?]].
    destruct (IH (lon + lon_step) (S cell_idx)) as [Hidx Hall].
    destruct (MakeHexCells.row_cells fuel _ lat lon_step lon_max _)
      as [fs idx]. cbn [fst snd] in *. split; [cbn [length]; lia|].
    intros [|k] f Hk.
    + injection Hk as <-. cbn [MakeHexCells.properties]. f_equal. lia.
    + rewrite (Hall k f Hk). f_equal. lia.
Qed.

Lemma grid_cells_numbered (fuel : nat) (lat : R) (row cell_idx k : nat) f :
  MakeHexCells.grid_cells fuel lat row cell_idx !! k = Some f →
  MakeHexCells.properties f = MakeHexCells.cell_properties (cell_idx + S k).
Proof.
  revert lat row cell_idx k.
  induction fuel as [|fuel IH]; intros lat row cell_idx k; [done|].
  cbn [MakeHexCells.grid_cells]. unfold MakeHexCells.BBOX.
  destruct (Rle_dec lat _); [|done].
  match goal with
  | |- context [MakeHexCells.row_cells ?a ?b ?c ?d ?e ?g] =>
      destruct (row_cells_numbered a b c d e g) as [Hidx Hall];
      destruct (MakeHexCells.row_cells a b c d e g) as [fs idx]
  end.
  cbn [fst snd] in *. intros Hk.
  apply lookup_app_Some in Hk as [Hk|[Hle Hk]].
  - by apply Hall.
  - rewrite (IH _ _ _ _ Hk). f_equal. lia.
Qed.

(** The [k]-th cell the tessellator writes, counting from 0, carries the
    property literal of [main] numbered [k + 1], hence the cell_id H_
    followed by [k + 1] in six digits. *)
Theorem tessellation_ids_are_sequential (fuel k : nat) f :
  MakeHexCells.main fuel !! k = Some f →
  MakeHexCells.properties f = MakeHexCells.cell_properties (S k)
  ∧ get (MakeHexCells.properties f) "cell_id"
    = VStr ("H_" +:+ zero_pad 6 (S k)).
Proof.
  intros Hk%grid_cells_numbered. rewrite Hk. done.
Qed.

End TessellationFacts.

Lemma tierb_appended_run :
  SeedTierB.main_with (H := no_text) false Samples.scored_hexes
    [Samples.old_site]
  = Some Samples.tierb_appended.
Proof. reflexivity. Qed.

Lemma tierb_renumbered_run :
  SeedTierB.main_with (H := decimal_text) false Samples.scored_hexes
    [Samples.old_site; Samples.kept_site]
  = Some Samples.tierb_renumbered.
Proof. reflexivity. Qed.

(** The theorem on a sites file that holds S_A_0007 and S_B_0001, with site
    ids read as decimal digits: the two sites found are written first; the
    next free number is 2, greater than the 1 of S_B_0001; the three seeded
    sites are S_B_0002, S_B_0003 and S_B_0004. *)
Lemma tierb_append_mode_witness :
  ∃ s : Z,
    SeedTierB.out_sites Samples.tierb_renumbered
    = [Samples.old_site; Samples.kept_site]
      ++ SeedTierB.out_seeded Samples.tierb_renumbered
    ∧ SeedTierB._next_site_seq (H := decimal_text)
        [Samples.old_site; Samples.kept_site] = Some s
    ∧ s = 2%Z
    ∧ (1 < s)%Z
    ∧ site_ids (SeedTierB.out_seeded Samples.tierb_renumbered)
      = [VStr "S_B_0002"; VStr "S_B_0003"; VStr "S_B_0004"].
Proof.
  destruct (tierb_append_mode (text := decimal_text) Samples.scored_hexes
              [Samples.old_site; Samples.kept_site] Samples.tierb_renumbered
              tierb_renumbered_run)
    as (s & Hsites & _ & _ & Hnext & Hids & Hpast).
  specialize (Hnext ltac:(discriminate)).
  assert (s = 2%Z) as Hs.
  { assert (SeedTierB._next_site_seq (H := decimal_text)
              [Samples.old_site; Samples.kept_site] = Some 2%Z) as Htwo
      by reflexivity.
    congruence. }
  exists s. split; [exact Hsites|]. split; [exact Hnext|].
  split; [exact Hs|]. split.
  - apply (Hpast Samples.kept_site "S_B_0001" 1%Z).
    + apply elem_of_cons. right. apply elem_of_cons. by left.
    + reflexivity.
    + reflexivity.
    + reflexivity.
    + reflexivity.
  - rewrite Hids, Hs. reflexivity.
Defined.

Lemma tierb_zone_rows_add_up_witness :
  (SeedTierB.total (SeedTierB.ZoneRow 2 1 3)
   = SeedTierB.tierB_sites_required (SeedTierB.ZoneRow 2 1 3)
     + SeedTierB.tierB_alternate_required (SeedTierB.ZoneRow 2 1 3))%Z.
Proof.
  apply (tierb_zone_rows_add_up (text := no_text) false Samples.scored_hexes
           [Samples.old_site] Samples.tierb_appended
           (key_of (VStr "Z_CENTRAL_LOW_RELIEF")) (SeedTierB.ZoneRow 2 1 3)
           tierb_appended_run).
  reflexivity.
Defined.

Lemma seed_hex_places_required_then_alternates_witness :
  ∃ new by_zone',
    SeedTierB.seed_hex (H := no_text) ([], 1%nat, ∅)
      (Samples.scored_hex "H1" 1 1)
    = Some ([] ++ new, (1 + length new)%nat, by_zone')
    ∧ length new = Z.to_nat (1 + 1)
    ∧ ∀ (k : nat) f,
        new !! k = Some f →
        ∃ pt,
          SeedTierB._candidate_points Samples.square_centroid.1
            Samples.square_centroid.2 (1 + 1) !! k = Some pt
          ∧ Geo.geometry_of f = Geo.Point pt
          ∧ get (Geo.properties f) "site_id"
            = VStr ("S_B_" +:+ zero_pad 4 (1 + k))
          ∧ get (Geo.properties f) "cell_id" = VStr "H1"
          ∧ get (Geo.properties f) "zone_id" = VStr "Z_CENTRAL_LOW_RELIEF"
          ∧ get (Geo.properties f) "tier" = VStr "B"
          ∧ get (Geo.properties f) "status" = VStr "CANDIDATE"
          ∧ get (Geo.properties f) "notes"
            = VStr (if (1 <=? Z.of_nat k)%Z then "ALT" else "").
Proof.
  apply (seed_hex_places_required_then_alternates (text := no_text)
           [] 1 ∅ (Samples.scored_hex "H1" 1 1) 1 1
           Samples.square_centroid.1 Samples.square_centroid.2).
  - apply (bool_decide_unpack _). reflexivity.
  - apply (bool_decide_unpack _). reflexivity.
  - reflexivity.
  - reflexivity.
  - lia.
  - reflexivity.
Defined.

Lemma first_cell_is_first : MakeHexCells.main 1 !! 0%nat = Some Samples.first_cell.
Proof.
  unfold MakeHexCells.main, MakeHexCells.BBOX.
  cbn [MakeHexCells.grid_cells MakeHexCells.row_cells].
  unfold MakeHexCells.BBOX.
  destruct (Rle_dec 24 49.5) as [_|Hn]; [|exfalso; apply Hn; lra].
  change (Nat.odd 0) with false. cbv iota.
  destruct (Rle_dec (-125 + 0) (-66.5)) as [_|Hn]; [|exfalso; apply Hn; lra].
  reflexivity.
Qed.

Lemma tessellation_ids_are_sequential_witness :
  MakeHexCells.properties Samples.first_cell = MakeHexCells.cell_properties 1
  ∧ get (MakeHexCells.properties Samples.first_cell) "cell_id"
    = VStr ("H_" +:+ zero_pad 6 1).
Proof.
  exact (tessellation_ids_are_sequential 1 0 Samples.first_cell
           first_cell_is_first).
Defined.
